(** * Benchmark regression detector (scripts/bench_compare.py)

    A shallow embedding of the script, function by function, and the
    properties of its parser, comparator and exit status; then the text
    replacements of the template adaptation script (adapt_template.py).

    Conventions of the embedding.
    - A Python [str] is a list of Unicode code points ([N]).
    - A Python [int] is a [Z]; integers are unbounded. The interpreter
      refuses to convert more than 4300 digits between [str] and [int]:
      [int] of a longer string raises [ValueError], and so does the model.
      The integers the script formats come out of [int], so that they
      have 4300 digits at most and [format] converts them.
    - A Python [float] is a binary64 number, kept as sign, integral
      significand and binary exponent; the quotient of two integers is
      rounded to nearest, ties to even, and raises [OverflowError] beyond
      the binary64 range, as the [/] operator on [int] does.
    - A [dict] is a [gmap], a [set] a [gset]; both are only ever
      enumerated through [sorted].
    - [print] and [open] are recorded as a trace of events. *)

From Stdlib Require Import ZArith NArith QArith Qabs Qpower Lia Bool Ascii String.
From Stdlib Require Import DecimalPos DecimalN.
From stdpp Require Import base option list gmap sets sorting.

Abbreviation str := (list N).

(** ** Strings *)

(** An ASCII literal as a list of code points. *)
Definition lit (s : string) : str :=
  map N_of_ascii (list_ascii_of_string s).
Arguments lit : simpl never.

(** [s.startswith(l)], returning what follows the prefix. *)
Fixpoint strip_prefix (l s : str) : option str :=
  match l, s with
  | [], _ => Some s
  | a :: l', b :: s' => if (a =? b)%N then strip_prefix l' s' else None
  | _ :: _, [] => None
  end.

(** Comparison of two [str] values with [<]: lexicographic on code points. *)
Fixpoint str_ltb (a b : str) : bool :=
  match a, b with
  | _, [] => false
  | [], _ :: _ => true
  | x :: a', y :: b' => (x <? y)%N || ((x =? y)%N && str_ltb a' b')
  end.

Definition str_lt (a b : str) : Prop := str_ltb a b = true.
Definition str_le (a b : str) : Prop := a = b \/ str_lt a b.

(** ** Character classes of the [re] module on [str] patterns *)

(** [\s]: the code points for which [str.isspace] holds. *)
Definition is_space (c : N) : bool :=
  ((0x09 <=? c) && (c <=? 0x0D) || (0x1C <=? c) && (c <=? 0x20)
   || (c =? 0x85) || (c =? 0xA0) || (c =? 0x1680)
   || (0x2000 <=? c) && (c <=? 0x200A)
   || (c =? 0x2028) || (c =? 0x2029) || (c =? 0x202F) || (c =? 0x205F)
   || (c =? 0x3000))%N.

(** The code points of digit zero of every run of ten decimal digits
    (general category Nd, Unicode 14). *)
Definition decimal_zeros : list N :=
  [ 0x30; 0x660; 0x6F0; 0x7C0; 0x966; 0x9E6; 0xA66; 0xAE6; 0xB66; 0xBE6;
    0xC66; 0xCE6; 0xD66; 0xDE6; 0xE50; 0xED0; 0xF20; 0x1040; 0x1090;
    0x17E0; 0x1810; 0x1946; 0x19D0; 0x1A80; 0x1A90; 0x1B50; 0x1BB0;
    0x1C40; 0x1C50; 0xA620; 0xA8D0; 0xA900; 0xA9D0; 0xA9F0; 0xAA50;
    0xABF0; 0xFF10; 0x104A0; 0x10D30; 0x11066; 0x110F0; 0x11136; 0x111D0;
    0x112F0; 0x11450; 0x114D0; 0x11650; 0x116C0; 0x11730; 0x118E0;
    0x11950; 0x11C50; 0x11D50; 0x11DA0; 0x16A60; 0x16AC0; 0x16B50;
    0x1D7CE; 0x1D7D8; 0x1D7E2; 0x1D7EC; 0x1D7F6; 0x1E140; 0x1E2F0;
    0x1E950; 0x1FBF0 ]%N.

(** The decimal value of a code point, if it is a decimal digit. *)
Fixpoint decimal_in (zeros : list N) (c : N) : option Z :=
  match zeros with
  | [] => None
  | z :: zeros' =>
      if ((z <=? c) && (c <? z + 10))%N then Some (Z.of_N (c - z))
      else decimal_in zeros' c
  end.

Definition to_decimal (c : N) : option Z := decimal_in decimal_zeros c.

(** [\d] *)
Definition is_digit (c : N) : bool :=
  match to_decimal c with Some _ => true | None => false end.

Definition comma : N := 0x2C.
Definition newline : N := 0x0A.

Inductive cclass :=
| Space          (* \s *)
| NotSpace       (* \S *)
| AnyChar        (* .  : anything but a newline *)
| DigitOrComma.  (* [\d,] *)

Definition in_class (k : cclass) (c : N) : bool :=
  match k with
  | Space => is_space c
  | NotSpace => negb (is_space c)
  | AnyChar => negb (c =? newline)%N
  | DigitOrComma => is_digit c || (c =? comma)%N
  end.

(** ** A backtracking matcher for the fragment of [re] the script uses *)

Inductive regex :=
| Bol                          (* ^ *)
| Lit (l : str)                (* literal text *)
| Plus (k : cclass)            (* k+ , greedy *)
| Star (k : cclass)            (* k* , greedy *)
| Group (i : nat) (r : regex)  (* ( r ), capturing group number i *)
| Cat (r1 r2 : regex).         (* r1 r2 *)

Infix "⋅" := Cat (at level 41, right associativity).

(** The groups of a match object. *)
Abbreviation groups := (gmap nat str).

Section Engine.
Context {A : Type}.

(** A greedy repetition: the longest run first, then shorter ones as
    the rest of the pattern fails. [pos] is the offset of [s] in the
    subject. *)
Fixpoint greedy (p : N -> bool) (pos : nat) (s : str)
    (k : nat -> str -> option A) : option A :=
  match s with
  | c :: s' =>
      if p c then
        match greedy p (S pos) s' k with
        | Some a => Some a
        | None => k pos s
        end
      else k pos s
  | [] => k pos s
  end.

Fixpoint run (r : regex) (pos : nat) (s : str) (caps : groups)
    (k : nat -> str -> groups -> option A) : option A :=
  match r with
  | Bol => if (pos =? 0)%nat then k pos s caps else None
  | Lit l =>
      match strip_prefix l s with
      | Some s' => k (pos + length l)%nat s' caps
      | None => None
      end
  | Star c => greedy (in_class c) pos s (fun pos' s' => k pos' s' caps)
  | Plus c =>
      match s with
      | x :: s' =>
          if in_class c x
          then greedy (in_class c) (S pos) s' (fun pos' s' => k pos' s' caps)
          else None
      | [] => None
      end
  | Group i r' =>
      run r' pos s caps
        (fun pos' s' caps' => k pos' s' (<[i := take (pos' - pos) s]> caps'))
  | Cat r1 r2 =>
      run r1 pos s caps (fun pos' s' caps' => run r2 pos' s' caps' k)
  end.
End Engine.

(** [re.match(r, s)]: a match anchored at offset 0, not required to reach
    the end of [s]. *)
Definition re_match (r : regex) (s : str) : option groups :=
  run r 0 s ∅ (fun _ _ caps => Some caps).

(** [m.group(i)] *)
Definition group (m : groups) (i : nat) : str := default [] (m !! i).

(** ** parse_bencher *)

(** r'^test\s+(\S+)\s+.*\s+bench:\s+([\d,]+)\s+ns/iter' *)
Definition bencher_line : regex :=
  Bol ⋅ Lit (lit "test") ⋅ Plus Space ⋅ Group 1 (Plus NotSpace) ⋅ Plus Space
  ⋅ Star AnyChar ⋅ Plus Space ⋅ Lit (lit "bench:") ⋅ Plus Space
  ⋅ Group 2 (Plus DigitOrComma) ⋅ Plus Space ⋅ Lit (lit "ns/iter").

Inductive exn := ValueError | OverflowError | ZeroDivisionError | OSError.

Inductive result (A : Type) :=
| Ok (a : A)
| Raise (e : exn).
Arguments Ok {A} a.
Arguments Raise {A} e.

(** [s.replace(',', '')] *)
Definition strip_commas (s : str) : str :=
  filter (fun c => c ≠ comma) s.

Fixpoint digits_value (acc : Z) (s : str) : option Z :=
  match s with
  | [] => Some acc
  | c :: s' =>
      match to_decimal c with
      | Some d => digits_value (10 * acc + d) s'
      | None => None
      end
  end.

(** The limit of the interpreter on the digits of a string that [int]
    converts, and of an integer that [str] and [format] convert: the
    default of [sys.int_max_str_digits]. *)
Definition int_max_str_digits : Z := 4300%Z.

(** [int(s)] on a string of decimal digits; the empty string, any other
    character, and more digits than the limit raise [ValueError]. (Signs,
    surrounding blanks and underscores, which [int] also reads, cannot
    occur in the argument the script passes: see [strip_commas_digits].) *)
Definition py_int (s : str) : result Z :=
  match s with
  | [] => Raise ValueError
  | _ :: _ =>
      if (int_max_str_digits <? Z.of_nat (length s))%Z then Raise ValueError
      else
        match digits_value 0 s with
        | Some v => Ok v
        | None => Raise ValueError
        end
  end.

(** The body of the [for line in lines] loop, on the dict built so far. *)
Fixpoint parse_loop (lines : list str) (results : gmap str Z)
    : result (gmap str Z) :=
  match lines with
  | [] => Ok results
  | line :: rest =>
      match re_match bencher_line line with
      | Some m =>
          let name := group m 1 in
          match py_int (strip_commas (group m 2)) with
          | Ok ns => parse_loop rest (<[name := ns]> results)
          | Raise e => Raise e
          end
      | None => parse_loop rest results
      end
  end.

Definition parse_bencher (lines : list str) : result (gmap str Z) :=
  parse_loop lines ∅.

(** ** binary64 arithmetic *)

(** A finite binary64 number: (-1)^[fneg] * [fmant] * 2^[fexp], with
    [0 <= fmant < 2^53]. *)
Record float := Float { fneg : bool; fmant : Z; fexp : Z }.

Local Open Scope Z_scope.

(** [2^e] for [0 <= e] and 1 below: the numerator of the fraction 2^e,
    and, taken at [- e], its denominator. *)
Definition exp2 (e : Z) : Z := 2 ^ Z.max 0 e.

(** The integer nearest to [n / d], ties to the even one ([0 <= n], [0 < d]). *)
Definition rne (n d : Z) : Z :=
  let q := n / d in
  let r := n mod d in
  if 2 * r <? d then q
  else if d <? 2 * r then q + 1
  else if Z.even q then q else q + 1.

(** [floor (log2 (n / d))] for [0 < n] and [0 < d]. *)
Definition ratio_log2 (n d : Z) : Z :=
  let e := Z.log2 n - Z.log2 d in
  if n * exp2 (- e) <? d * exp2 e then e - 1 else e.

(** The binary64 number nearest to [n / d] ([0 <= n], [0 < d]), as
    significand and exponent; [None] when it rounds beyond the largest
    finite binary64 number. *)
Definition round_binary64 (n d : Z) : option (Z * Z) :=
  if n =? 0 then Some (0, -1074)
  else
    let e := ratio_log2 n d in
    let k := Z.max e (-1022) - 52 in
    let m := rne (n * exp2 (- k)) (d * exp2 k) in
    let '(m, k) := if m =? 2 ^ 53 then (2 ^ 52, k + 1) else (m, k) in
    if 971 <? k then None else Some (m, k).

(** [a / b] on two [int]s: the correctly rounded quotient. *)
Definition int_truediv (a b : Z) : result float :=
  if b =? 0 then Raise ZeroDivisionError
  else
    match round_binary64 (Z.abs a) (Z.abs b) with
    | Some (m, k) => Ok (Float (xorb (a <? 0) (b <? 0)) m k)
    | None => Raise OverflowError
    end.

(** The value of [x] in units of [2^k], for [k <= fexp x]. *)
Definition scaled (x : float) (k : Z) : Z :=
  (if fneg x then -1 else 1) * fmant x * 2 ^ (fexp x - k).

(** [x < y] *)
Definition float_ltb (x y : float) : bool :=
  let k := Z.min (fexp x) (fexp y) in
  scaled x k <? scaled y k.

Definition float_zero : float := Float false 0 (-1074).

(** The literals [0.10] and [0.05]: the binary64 numbers nearest to 1/10
    and to 1/20. *)
Definition float_0_10 : float := Float false 7205759403792794 (-56).
Definition float_0_05 : float := Float false 7205759403792794 (-57).

(** Unary minus on a float. *)
Definition float_neg (x : float) : float :=
  Float (negb (fneg x)) (fmant x) (fexp x).

Definition REGRESSION_THRESHOLD : float := float_0_10.

(** ** Text formatting *)

Fixpoint uint_digits (u : Decimal.uint) : str :=
  match u with
  | Decimal.Nil => []
  | Decimal.D0 u => 0x30%N :: uint_digits u
  | Decimal.D1 u => 0x31%N :: uint_digits u
  | Decimal.D2 u => 0x32%N :: uint_digits u
  | Decimal.D3 u => 0x33%N :: uint_digits u
  | Decimal.D4 u => 0x34%N :: uint_digits u
  | Decimal.D5 u => 0x35%N :: uint_digits u
  | Decimal.D6 u => 0x36%N :: uint_digits u
  | Decimal.D7 u => 0x37%N :: uint_digits u
  | Decimal.D8 u => 0x38%N :: uint_digits u
  | Decimal.D9 u => 0x39%N :: uint_digits u
  end.

(** [str(n)] for [0 <= n] *)
Definition dec (n : Z) : str := uint_digits (N.to_uint (Z.to_N n)).

(** Commas between groups of three digits, on the reversed digits; [k]
    digits of the current group are out. *)
Fixpoint sep3 (k : nat) (rd : str) : str :=
  match rd with
  | [] => []
  | d :: rest =>
      if (k =? 3)%nat then comma :: d :: sep3 1 rest
      else d :: sep3 (S k) rest
  end.

(** [format(n, ',')] *)
Definition with_commas (n : Z) : str :=
  (if n <? 0 then lit "-" else []) ++ rev (sep3 0 (rev (dec (Z.abs n)))).

Definition space : N := 0x20%N.

(** [format(s, '<w')] and [format(s, '>w')] *)
Definition ljust (w : nat) (s : str) : str :=
  s ++ replicate (w - length s) space.
Definition rjust (w : nat) (s : str) : str :=
  replicate (w - length s) space ++ s.

(** [format(x, '.pf')] without the sign, for [p] digits after the point;
    [x] given as a significand and exponent. *)
Definition fixed_text (p : nat) (m k : Z) : str :=
  let t := rne (m * 10 ^ Z.of_nat p * exp2 k) (exp2 (- k)) in
  let ip := dec (t / 10 ^ Z.of_nat p) in
  match p with
  | O => ip
  | _ =>
      let fp := dec (t mod 10 ^ Z.of_nat p) in
      ip ++ lit "." ++ replicate (p - length fp) 0x30%N ++ fp
  end.

(** [x * 100] on floats, [None] for an infinite product. *)
Definition times_100 (x : float) : option (Z * Z) :=
  round_binary64 (fmant x * 100 * exp2 (fexp x)) (exp2 (- fexp x)).

(** [format(x, '+.1%')] *)
Definition percent_text (x : float) : str :=
  (if fneg x then lit "-" else lit "+")
  ++ match times_100 x with
     | Some (m, k) => fixed_text 1 m k
     | None => lit "inf"
     end
  ++ lit "%".

(** [format(REGRESSION_THRESHOLD * 100, '.0f')] *)
Definition threshold_text : str :=
  match times_100 REGRESSION_THRESHOLD with
  | Some (m, k) => fixed_text 0 m k
  | None => lit "inf"
  end.

(** ** The report *)

Inductive marker := NoMarker | RegressionMark | FasterMark.

(** The lines the script prints, with the values interpolated in each. *)
Inductive line :=
| Usage (prog : str)
| SkipNotice
| Title
| Header
| Rule
| MissingRow (name : str) (base_ns : Z)
| MatchedRow (name : str) (base_ns curr_ns : Z) (delta : float) (mk : marker)
| NewRow (name : str) (curr_ns : Z)
| Blank
| FailSummary (count : nat)
| RegressedItem (name : str) (delta : float)
| PassSummary.

Definition marker_text (mk : marker) : str :=
  match mk with
  | NoMarker => []
  | RegressionMark => lit " " ++ [0x274C%N] ++ lit " REGRESSION"
  | FasterMark => lit " " ++ [0x1F680%N] ++ lit " faster"
  end.

(** The text of each line, without the newline [print] adds. *)
Definition render (l : line) : str :=
  match l with
  | Usage prog =>
      lit "Usage: " ++ prog ++ lit " <baseline.txt> <current.txt>"
  | SkipNotice =>
      [0x26A0%N; 0xFE0F%N]
      ++ lit "  No baseline benchmarks found. Skipping comparison."
  | Title => [0x1F4CA%N] ++ lit " Benchmark Comparison"
  | Header =>
      ljust 50 (lit "Benchmark") ++ lit " " ++ rjust 12 (lit "Baseline")
      ++ lit " " ++ rjust 12 (lit "Current") ++ lit " "
      ++ rjust 10 (lit "Delta")
  | Rule => replicate 86 0x2D%N
  | MissingRow name base_ns =>
      lit "  " ++ ljust 48 name ++ lit " " ++ rjust 12 (with_commas base_ns)
      ++ lit " " ++ rjust 12 (lit "MISSING") ++ lit " " ++ rjust 10 [0x2014%N]
  | MatchedRow name base_ns curr_ns delta mk =>
      lit "  " ++ ljust 48 name ++ lit " " ++ rjust 12 (with_commas base_ns)
      ++ lit " " ++ rjust 12 (with_commas curr_ns) ++ lit " "
      ++ rjust 9 (percent_text delta) ++ marker_text mk
  | NewRow name curr_ns =>
      lit "  " ++ ljust 48 name ++ lit " " ++ rjust 12 (lit "NEW") ++ lit " "
      ++ rjust 12 (with_commas curr_ns)
  | Blank => []
  | FailSummary count =>
      [0x274C%N] ++ lit " " ++ dec (Z.of_nat count)
      ++ lit " benchmark(s) regressed by >" ++ threshold_text ++ lit "%:"
  | RegressedItem name delta =>
      lit "   - " ++ name ++ lit ": " ++ percent_text delta
  | PassSummary => [0x2705%N] ++ lit " No benchmark regressions detected."
  end.

(** ** main *)

Inductive event :=
| Open (path : str)
| Print (l : line).

(** How the process ends: falling off the end of [main], [sys.exit], or
    an exception nobody catches. *)
Inductive termination :=
| Return
| SysExit (code : Z)
| Uncaught (e : exn).

Definition exit_status (t : termination) : Z :=
  match t with
  | Return => 0
  | SysExit code => code
  | Uncaught _ => 1
  end.

(** [(curr_ns - base_ns) / base_ns if base_ns > 0 else 0]; the integer 0
    of the second branch compares and formats as the float 0.0. *)
Definition relative_delta (base_ns curr_ns : Z) : result float :=
  if 0 <? base_ns then int_truediv (curr_ns - base_ns) base_ns
  else Ok float_zero.

(** [delta > REGRESSION_THRESHOLD] *)
Definition is_regression (delta : float) : bool :=
  float_ltb REGRESSION_THRESHOLD delta.

(** [delta < -0.05] *)
Definition is_faster (delta : float) : bool :=
  float_ltb delta (float_neg float_0_05).

Definition marker_of (delta : float) : marker :=
  if is_regression delta then RegressionMark
  else if is_faster delta then FasterMark
  else NoMarker.

(** Order of the [(name, ns)] tuples, and of names, under [sorted]. *)
Definition item_ltb (a b : str * Z) : bool :=
  str_ltb a.1 b.1 || (bool_decide (a.1 = b.1) && (a.2 <? b.2)).

Definition item_le (a b : str * Z) : Prop := item_ltb b a = false.
Definition name_le (a b : str) : Prop := str_ltb b a = false.

#[global] Instance item_le_dec : RelDecision item_le.
Proof. intros a b. unfold item_le. apply _. Defined.
#[global] Instance name_le_dec : RelDecision name_le.
Proof. intros a b. unfold name_le. apply _. Defined.

(** [sorted(d.items())] *)
Definition sorted_items (d : gmap str Z) : list (str * Z) :=
  merge_sort item_le (map_to_list d).

(** [sorted(set(current.keys()) - set(baseline.keys()))] *)
Definition new_names (baseline current : gmap str Z) : list str :=
  merge_sort name_le (elements (dom current ∖ dom baseline)).

(** The loop over the baseline: the rows printed, and the regressions
    list at the end, or the exception that stopped the loop. *)
Fixpoint baseline_loop (current : gmap str Z) (items : list (str * Z))
    (regressions : list (str * float))
    : list line * result (list (str * float)) :=
  match items with
  | [] => ([], Ok regressions)
  | (name, base_ns) :: rest =>
      match current !! name with
      | None =>
          let '(out, r) := baseline_loop current rest regressions in
          (MissingRow name base_ns :: out, r)
      | Some curr_ns =>
          match relative_delta base_ns curr_ns with
          | Raise e => ([], Raise e)
          | Ok delta =>
              let regressions' :=
                if is_regression delta then regressions ++ [(name, delta)]
                else regressions in
              let '(out, r) := baseline_loop current rest regressions' in
              (MatchedRow name base_ns curr_ns delta (marker_of delta) :: out, r)
          end
      end
  end.

(** The loop over the benchmarks only the current report has. *)
Definition new_rows (baseline current : gmap str Z) : list line :=
  map (fun name => NewRow name (default 0 (current !! name)))
      (new_names baseline current).

(** [main] from [if not baseline:] on. *)
Definition compare (baseline current : gmap str Z)
    : list line * termination :=
  if decide (baseline = ∅) then ([SkipNotice], SysExit 0)
  else
    let '(rows, r) := baseline_loop current (sorted_items baseline) [] in
    match r with
    | Raise e => ([Title; Header; Rule] ++ rows, Uncaught e)
    | Ok regressions =>
        let body :=
          [Title; Header; Rule] ++ rows ++ new_rows baseline current
          ++ [Blank] in
        match regressions with
        | [] => (body ++ [PassSummary], Return)
        | _ :: _ =>
            (body ++ FailSummary (length regressions)
                  :: map (fun '(name, delta) => RegressedItem name delta)
                         regressions,
             SysExit 1)
        end
    end.

(** The file system as the script sees it: [open(path)] followed by
    [readlines()] gives the lines or raises. *)
Definition files := str -> result (list str).

(** [main], with [sys.argv = prog :: args]. *)
Definition main (prog : str) (args : list str) (fs : files)
    : list event * termination :=
  match args with
  | [path1; path2] =>
      match fs path1 with
      | Raise e => ([Open path1], Uncaught e)
      | Ok lines1 =>
          match parse_bencher lines1 with
          | Raise e => ([Open path1], Uncaught e)
          | Ok baseline =>
              match fs path2 with
              | Raise e => ([Open path1; Open path2], Uncaught e)
              | Ok lines2 =>
                  match parse_bencher lines2 with
                  | Raise e => ([Open path1; Open path2], Uncaught e)
                  | Ok current =>
                      let '(out, t) := compare baseline current in
                      ([Open path1; Open path2] ++ map Print out, t)
                  end
              end
          end
      end
  | _ => ([Print (Usage prog)], SysExit 1)
  end.

(** What reaches standard output. *)
Definition stdout (evs : list event) : list str :=
  omap (fun ev => match ev with Print l => Some (render l) | Open _ => None end)
       evs.

(** ** Vocabulary of the properties *)

(** The benchmark a table row is about: rows of the loop over the
    baseline, rows of the loop over the new benchmarks, and both. *)
Definition baseline_row_name (l : line) : option str :=
  match l with
  | MissingRow name _ | MatchedRow name _ _ _ _ => Some name
  | _ => None
  end.

Definition new_row_name (l : line) : option str :=
  match l with
  | NewRow name _ => Some name
  | _ => None
  end.

Definition row_name (l : line) : option str :=
  match l with
  | MissingRow name _ | MatchedRow name _ _ _ _ | NewRow name _ => Some name
  | _ => None
  end.

Definition is_new_row (l : line) : bool :=
  match l with NewRow _ _ => true | _ => false end.

(** The row the loop over the baseline prints for one item. *)
Definition row_spec (current : gmap str Z) (item : str * Z) (row : line)
    : Prop :=
  match current !! item.1 with
  | None => row = MissingRow item.1 item.2
  | Some curr_ns =>
      exists delta,
        relative_delta item.2 curr_ns = Ok delta
        /\ row = MatchedRow item.1 item.2 curr_ns delta (marker_of delta)
  end.

(** A benchmark of both reports whose delta is above the threshold. *)
Definition regressed (baseline current : gmap str Z) (name : str)
    (delta : float) : Prop :=
  exists base_ns curr_ns,
    baseline !! name = Some base_ns /\ current !! name = Some curr_ns
    /\ relative_delta base_ns curr_ns = Ok delta
    /\ is_regression delta = true.

(** Every benchmark of both reports has a delta in the binary64 range. *)
Definition deltas_finite (baseline current : gmap str Z) : Prop :=
  forall name base_ns curr_ns,
    baseline !! name = Some base_ns -> current !! name = Some curr_ns ->
    exists delta, relative_delta base_ns curr_ns = Ok delta.

(** The end of the report, from the regressions list. *)
Definition summary (regressions : list (str * float)) : list line :=
  match regressions with
  | [] => [PassSummary]
  | _ :: _ =>
      FailSummary (length regressions)
      :: map (fun '(name, delta) => RegressedItem name delta) regressions
  end.

Definition verdict (regressions : list (str * float)) : termination :=
  match regressions with
  | [] => Return
  | _ :: _ => SysExit 1
  end.

(** ** What the pattern accepts *)

(** The ways a pattern can match at offset [pos] with [s] left of the
    subject: the offset and text after the match, and the groups set. *)
Inductive matches
    : regex -> nat -> str -> groups -> nat -> str -> groups -> Prop :=
| matches_bol s caps :
    matches Bol 0 s caps 0 s caps
| matches_lit l pos s caps :
    matches (Lit l) pos (l ++ s) caps (pos + length l)%nat s caps
| matches_star c u pos s caps :
    Forall (fun x => in_class c x = true) u ->
    matches (Star c) pos (u ++ s) caps (pos + length u)%nat s caps
| matches_plus c u pos s caps :
    u <> [] -> Forall (fun x => in_class c x = true) u ->
    matches (Plus c) pos (u ++ s) caps (pos + length u)%nat s caps
| matches_group i r pos s caps pos' s' caps' :
    matches r pos s caps pos' s' caps' ->
    matches (Group i r) pos s caps pos' s'
            (<[i := take (pos' - pos) s]> caps')
| matches_cat r1 r2 pos s caps pos1 s1 caps1 pos2 s2 caps2 :
    matches r1 pos s caps pos1 s1 caps1 ->
    matches r2 pos1 s1 caps1 pos2 s2 caps2 ->
    matches (r1 ⋅ r2) pos s caps pos2 s2 caps2.

(** A non-empty run of characters of one class. *)
Definition run_of (k : cclass) (u : str) : Prop :=
  u <> [] /\ Forall (fun x => in_class k x = true) u.

(** The line shape of the pattern, with the texts of its two groups. *)
Definition line_shape (line name number : str) : Prop :=
  exists ws1 ws2 mid ws3 ws4 ws5 tail,
    line = lit "test" ++ ws1 ++ name ++ ws2 ++ mid ++ ws3 ++ lit "bench:"
           ++ ws4 ++ number ++ ws5 ++ lit "ns/iter" ++ tail
    /\ run_of Space ws1 /\ run_of NotSpace name /\ run_of Space ws2
    /\ Forall (fun x => in_class AnyChar x = true) mid
    /\ run_of Space ws3 /\ run_of Space ws4 /\ run_of DigitOrComma number
    /\ run_of Space ws5.

(** The two groups of the match of a line, if it matches. *)
Definition line_entry (line : str) : option (str * str) :=
  (fun m => (group m 1, group m 2)) <$> re_match bencher_line line.

(** [int] converts the number of a line, its commas removed: it has a
    digit, and no more digits than the limit. *)
Definition int_reads (number : str) : Prop :=
  strip_commas number <> []
  /\ Z.of_nat (length (strip_commas number)) <= int_max_str_digits.

(** The value the last matching line for [name] gives it. *)
Fixpoint last_entry (name : str) (lines : list str) : option Z :=
  match lines with
  | [] => None
  | line :: rest =>
      match last_entry name rest with
      | Some v => Some v
      | None =>
          match line_entry line with
          | Some (n, number) =>
              if decide (n = name) then
                match py_int (strip_commas number) with
                | Ok v => Some v
                | Raise _ => None
                end
              else None
          | None => None
          end
      end
  end.

(** Whether [s] holds a white space character with "bench:" right after. *)
Fixpoint marker_after_space (s : str) : bool :=
  match s with
  | [] => false
  | w :: s' =>
      is_space w && bool_decide (is_Some (strip_prefix (lit "bench:") s'))
      || marker_after_space s'
  end.

(** ** The numbers floats stand for *)

(** [2^e <= n / d] and [n / d < 2^e], without fractions. *)
Abbreviation ratio_ge n d e := (d * exp2 e <= n * exp2 (- e))%Z.
Abbreviation ratio_lt n d e := (n * exp2 (- e) < d * exp2 e)%Z.

(** [2^e] as a fraction. *)
Definition pow2 (e : Z) : Q :=
  Qmake (exp2 e) (Z.to_pos (exp2 (- e))).

(** The rational number a float is. *)
Definition float_Q (x : float) : Q :=
  (inject_Z ((if fneg x then -1 else 1) * fmant x) * pow2 (fexp x))%Q.




(** ** Runs and reports *)

(** The run reads and parses both files and finds a benchmark of both
    reports above the threshold. *)
Definition run_regressed (args : list str) (fs : files) : Prop :=
  exists path1 path2 lines1 lines2 baseline current name delta,
    args = [path1; path2]
    /\ fs path1 = Ok lines1 /\ parse_bencher lines1 = Ok baseline
    /\ fs path2 = Ok lines2 /\ parse_bencher lines2 = Ok current
    /\ regressed baseline current name delta.

(** The current report without its new benchmarks. *)
Definition known (baseline current : gmap str Z) : gmap str Z :=
  filter (fun item => item.1 ∈ dom baseline) current.

(** A line of the report, other than the rows of the new benchmarks,
    that is there because of the new benchmarks. *)
Definition new_header (baseline current : gmap str Z) (l : line) : Prop :=
  l ∈ (compare baseline current).1 /\ is_new_row l = false
  /\ l ∉ (compare baseline (known baseline current)).1.

(** The report as a table: which benchmarks a row may be about. *)
Definition row_in_place (baseline current : gmap str Z) (l : line) : Prop :=
  match l with
  | MatchedRow name base_ns curr_ns _ _ =>
      baseline !! name = Some base_ns /\ current !! name = Some curr_ns
  | MissingRow name base_ns =>
      baseline !! name = Some base_ns /\ current !! name = None
  | NewRow name curr_ns =>
      baseline !! name = None /\ current !! name = Some curr_ns
  | _ => True
  end.

(** ** Inputs of the examples *)

(** A line of the shape whose number is a comma. *)
Definition comma_line : str := lit "test a b bench: , ns/iter".

(** Two spaces, and nothing else, between the name and "bench:". *)
Definition two_spaces_line : str := lit "test foo  bench: 1 ns/iter".

(** A file system without files, and one of two files. *)
Definition no_files : files := fun _ => Raise OSError.

Definition two_files (lines1 lines2 : list str) : files :=
  fun path =>
    if decide (path = lit "baseline.txt") then Ok lines1
    else if decide (path = lit "current.txt") then Ok lines2
    else Raise OSError.

Definition paths : list str := [lit "baseline.txt"; lit "current.txt"].

(** A file system with the baseline of the scenario below and no current
    report. *)
Definition baseline_only : files :=
  fun path =>
    if decide (path = lit "baseline.txt")
    then Ok [lit "test foo ... bench: 1,000 ns/iter"]
    else Raise OSError.

(** The reports of the scenario of the specification: foo slows down by
    20%, bar speeds up by 4%. *)
Definition scenario_baseline : list str :=
  [lit "test foo ... bench: 1,000 ns/iter";
   lit "test bar ... bench: 500 ns/iter"].

Definition scenario_current : list str :=
  [lit "test foo ... bench: 1,200 ns/iter";
   lit "test bar ... bench: 480 ns/iter"].

(** Two reports with benchmarks of every kind: "bar" and "foo" are in
    both, "gone" is in the baseline alone, "added" and "new" are in the
    current report alone. *)
Definition example_baseline : gmap str Z :=
  {[lit "bar" := 500; lit "foo" := 1000; lit "gone" := 7]}.

Definition example_current : gmap str Z :=
  {[lit "added" := 5; lit "bar" := 480; lit "foo" := 1200;
    lit "new" := 300]}.

(** A baseline of 2^60 ns, and a current duration above it by more than
    a tenth of it. *)
Definition large_baseline : Z := 2 ^ 60.
Definition large_current : Z := 2 ^ 60 + 115292150460684698.

(** [deltas_finite], computed. *)
Definition deltas_finiteb (baseline current : gmap str Z) : bool :=
  forallb (fun item : str * Z =>
             match current !! item.1 with
             | Some curr_ns =>
                 match relative_delta item.2 curr_ns with
                 | Ok _ => true
                 | Raise _ => false
                 end
             | None => true
             end)
          (map_to_list baseline).

(** ** Reading the report *)

(** The regression a row of the table flags, the one a line of the final
    listing names, and the count the summary line gives. *)
Definition flagged (l : line) : option (str * float) :=
  match l with
  | MatchedRow name _ _ delta RegressionMark => Some (name, delta)
  | _ => None
  end.

Definition listed (l : line) : option (str * float) :=
  match l with
  | RegressedItem name delta => Some (name, delta)
  | _ => None
  end.

Definition announced (l : line) : option nat :=
  match l with
  | FailSummary count => Some count
  | _ => None
  end.

(** * The template adaptation script, [adapt_template.py] *)

(** The script reads each file of the template as text, rewrites the
    placeholders in it and writes the text back when it has changed. The
    text of a file is a [str], as [f.read()] returns it. *)

(** ** Strings *)

(** The scan of [s.replace(old, new)] for a non-empty [old]: from the left,
    an occurrence of [old] gives [new] and the scan goes on behind it, any
    other character is kept. [skip] characters of the occurrence just
    replaced are still to pass. *)
Fixpoint replace_from (old new : str) (skip : nat) (s : str) : str :=
  match s with
  | [] => []
  | c :: rest =>
      match skip with
      | S k => replace_from old new k rest
      | O =>
          match strip_prefix old s with
          | Some _ => new ++ replace_from old new (length old - 1)%nat rest
          | None => c :: replace_from old new 0 rest
          end
      end
  end.

(** [s.replace(old, new)]; with an empty [old], [new] goes before every
    character and at the end. *)
Definition str_replace (old new s : str) : str :=
  match old with
  | [] => new ++ concat (map (fun c => c :: new) s)
  | _ :: _ => replace_from old new 0 s
  end.

(** [k in s] *)
Fixpoint str_contains (k s : str) : bool :=
  match strip_prefix k s with
  | Some _ => true
  | None =>
      match s with
      | [] => false
      | _ :: rest => str_contains k rest
      end
  end.

(** ** The script *)

(** The dictionary [replacements]; a loop over its items takes them in the
    order they are written in. *)
Definition replacements : list (str * str) :=
  [(lit "@YOUR_SCOPE/YOUR_TOOL", lit "@sansavision/vidra");
   (lit "@YOUR_SCOPE/", lit "@sansavision/");
   (lit "YOUR_TOOL", lit "vidra");
   (lit "your-tool", lit "vidra")].

(** The loop over the items, on the text of one file. *)
Definition apply_items (items : list (str * str)) (content : str) : str :=
  foldl (fun text '(old, new) => str_replace old new text) content items.

(** [new_content] when the body of the loop over the files reaches its
    last statement. *)
Definition new_content (content : str) : str :=
  let replaced := apply_items replacements content in
  if str_contains (lit "your-tool-mcp") replaced
  then str_replace (lit "vidra-mcp") [] replaced
  else replaced.

(** What the body of the loop does to a file: the text it writes, [None]
    when it leaves the file as it is. *)
Definition rewrite_file (content : str) : option str :=
  let text := new_content content in
  if decide (content = text) then None else Some text.

(** ** Occurrences *)

(** [k] occurs in [s]. *)
Definition occurs (k s : str) : Prop := exists a b, s = a ++ k ++ b.

(** The non-empty ends of a string. *)
Fixpoint suffixes (s : str) : list str :=
  match s with
  | [] => []
  | _ :: rest => s :: suffixes rest
  end.

(** One of two strings starts with the other. *)
Definition comparable (x y : str) : bool :=
  match strip_prefix x y, strip_prefix y x with
  | None, None => false
  | _, _ => true
  end.

(** An occurrence of [k] and one of [m] can share characters, or touch when
    one of them is empty: an end of one starts with the other, or starts
    it. *)
Definition clash (k m : str) : bool :=
  existsb (fun t => comparable t m) (suffixes k)
  || existsb (fun t => comparable t k) (suffixes m).

(** No occurrence of [k] overlaps another: no end of [k] but [k] itself
    starts [k]. *)
Definition border_free (k : str) : bool :=
  forallb (fun t => negb (bool_decide (is_Some (strip_prefix t k))))
          (suffixes (tail k)).

(** * Properties *)

(** ** The order of names *)

Lemma str_ltb_irrefl (a : str) : str_ltb a a = false.
Proof.
  induction a as [|x a IH]; simpl; [done|].
  rewrite N.ltb_irrefl, N.eqb_refl, IH. done.
Qed.

Lemma str_ltb_trans (a b c : str) :
  str_ltb a b = true -> str_ltb b c = true -> str_ltb a c = true.
Proof.
  revert b c. induction a as [|x a IH]; intros [|y b] [|z c]; simpl; try done.
  rewrite !orb_true_iff, !andb_true_iff, !N.ltb_lt, !N.eqb_eq.
  intros [Hxy|[-> Hab]] [Hyz|[-> Hbc]].
  - left. lia.
  - by left.
  - by left.
  - right. split; [done|]. by apply (IH b c).
Qed.

(** Trichotomy: two names neither of which is below the other are equal. *)
Lemma str_ltb_total (a b : str) :
  str_ltb a b = false -> str_ltb b a = false -> a = b.
Proof.
  revert b. induction a as [|x a IH]; intros [|y b]; simpl; try done.
  rewrite !orb_false_iff, !andb_false_iff, !N.ltb_ge, !N.eqb_neq.
  intros [Hxy Hab] [Hyx Hba].
  assert (x = y) as -> by lia.
  f_equal. apply IH; [destruct Hab|destruct Hba]; done.
Qed.

Lemma str_ltb_asym (a b : str) : str_ltb a b = true -> str_ltb b a = false.
Proof.
  intros Hab. destruct (str_ltb b a) eqn:Hba; [|done].
  by rewrite <- (str_ltb_irrefl a), <- (str_ltb_trans a b a Hab Hba).
Qed.

#[global] Instance name_le_total : Total name_le.
Proof.
  intros a b. unfold name_le.
  destruct (str_ltb b a) eqn:Hba; [right|by left].
  by apply str_ltb_asym.
Qed.

#[global] Instance name_le_trans : Transitive name_le.
Proof.
  intros a b c. unfold name_le. intros Hba Hcb.
  destruct (str_ltb c a) eqn:Hca; [|done].
  destruct (str_ltb a b) eqn:Hab.
  - by rewrite (str_ltb_trans c a b Hca Hab) in Hcb.
  - rewrite (str_ltb_total a b Hab Hba) in Hca. congruence.
Qed.

Lemma name_le_lt (a b : str) : name_le a b -> a ≠ b -> str_lt a b.
Proof.
  unfold name_le, str_lt. intros Hba Hne.
  destruct (str_ltb a b) eqn:Hab; [done|].
  by destruct Hne; apply str_ltb_total.
Qed.

Lemma item_ltb_name (a b : str * Z) :
  a.1 ≠ b.1 -> item_ltb a b = str_ltb a.1 b.1.
Proof.
  intros Hne. unfold item_ltb.
  rewrite (bool_decide_eq_false_2 _ Hne). simpl. by rewrite orb_false_r.
Qed.

#[global] Instance item_le_total : Total item_le.
Proof.
  intros [n1 v1] [n2 v2]. unfold item_le, item_ltb. simpl.
  destruct (str_ltb n1 n2) eqn:H12; destruct (str_ltb n2 n1) eqn:H21; simpl.
  - by rewrite (str_ltb_asym _ _ H12) in H21.
  - left. rewrite bool_decide_eq_false_2; [done|].
    intros ->. by rewrite str_ltb_irrefl in H12.
  - right. rewrite bool_decide_eq_false_2; [done|].
    intros ->. by rewrite str_ltb_irrefl in H21.
  - rewrite (str_ltb_total _ _ H12 H21), !bool_decide_eq_true_2 by done.
    simpl. destruct (Z.ltb_spec v2 v1); [right|by left].
    apply Z.ltb_ge. lia.
Qed.

#[global] Instance item_le_trans : Transitive item_le.
Proof.
  intros [n1 v1] [n2 v2] [n3 v3]. unfold item_le, item_ltb. simpl.
  rewrite !orb_false_iff, !andb_false_iff, !Z.ltb_ge.
  intros [H21 E21] [H32 E32].
  assert (name_le n1 n3) as H31 by (by apply (name_le_trans n1 n2 n3)).
  split; [done|].
  destruct (decide (n3 = n1)) as [->|Hne];
    [|left; by apply bool_decide_eq_false_2].
  assert (n2 = n1) as -> by (by apply str_ltb_total).
  rewrite !bool_decide_eq_true_2 in E21, E32 by done.
  right. destruct E21, E32; try done. lia.
Qed.

(** Sorted without repetition is strictly ascending. *)
Lemma StronglySorted_strict (l : list str) :
  StronglySorted name_le l -> NoDup l -> StronglySorted str_lt l.
Proof.
  induction 1 as [|x l Hl IH Hx]; intros Hnd; constructor.
  - apply IH. by apply NoDup_cons in Hnd as [_ ?].
  - apply NoDup_cons in Hnd as [Hx' _].
    apply Forall_forall. intros y Hy.
    apply name_le_lt; [by eapply Forall_forall in Hx|].
    intros ->. done.
Qed.

Lemma StronglySorted_str_lt_NoDup (l : list str) :
  StronglySorted str_lt l -> NoDup l.
Proof.
  induction 1 as [|x l Hl IH Hx]; constructor; [|done].
  intros Hin. eapply Forall_forall in Hx; [|done].
  unfold str_lt in Hx. by rewrite str_ltb_irrefl in Hx.
Qed.

(** The items of a dict, sorted: ascending names, each key once. *)
Lemma sorted_items_perm (d : gmap str Z) : sorted_items d ≡ₚ map_to_list d.
Proof. apply merge_sort_Permutation. Qed.

Lemma elem_of_sorted_items (d : gmap str Z) (name : str) (v : Z) :
  (name, v) ∈ sorted_items d <-> d !! name = Some v.
Proof. by rewrite sorted_items_perm, elem_of_map_to_list. Qed.

Lemma sorted_items_names_NoDup (d : gmap str Z) : NoDup (sorted_items d).*1.
Proof. rewrite sorted_items_perm. apply NoDup_fst_map_to_list. Qed.

Lemma elem_of_sorted_items_names (d : gmap str Z) (name : str) :
  name ∈ (sorted_items d).*1 <-> name ∈ dom d.
Proof.
  rewrite elem_of_dom, list_elem_of_fmap. split.
  - intros [[n v] [-> Hin]]. apply elem_of_sorted_items in Hin. by exists v.
  - intros [v Hv]. exists (name, v). split; [done|].
    by apply elem_of_sorted_items.
Qed.

Lemma sorted_items_names_sorted (d : gmap str Z) :
  StronglySorted str_lt (sorted_items d).*1.
Proof.
  apply StronglySorted_strict; [|apply sorted_items_names_NoDup].
  pose proof (sorted_items_names_NoDup d) as Hnd.
  pose proof (StronglySorted_merge_sort item_le (map_to_list d)) as Hs.
  fold (sorted_items d) in Hs.
  induction Hs as [|x l Hl IH Hx]; simpl; constructor.
  - apply IH. simpl in Hnd. by apply NoDup_cons in Hnd as [_ ?].
  - simpl in Hnd. apply NoDup_cons in Hnd as [Hx' _].
    apply Forall_fmap, Forall_forall. intros y Hy. simpl.
    eapply Forall_forall in Hx; [|done].
    unfold item_le in Hx. unfold name_le.
    rewrite item_ltb_name in Hx; [done|].
    intros Heq. apply Hx'. rewrite <- Heq. apply list_elem_of_fmap. eauto.
Qed.

Lemma elem_of_new_names (baseline current : gmap str Z) (name : str) :
  name ∈ new_names baseline current
  <-> name ∈ dom current /\ name ∉ dom baseline.
Proof.
  unfold new_names.
  by rewrite merge_sort_Permutation, elem_of_elements, elem_of_difference.
Qed.

Lemma new_names_sorted (baseline current : gmap str Z) :
  StronglySorted str_lt (new_names baseline current).
Proof.
  apply StronglySorted_strict.
  - apply (StronglySorted_merge_sort name_le).
  - unfold new_names. rewrite merge_sort_Permutation. apply NoDup_elements.
Qed.

(** ** The loop over the baseline *)

Lemma relative_delta_raises (base_ns curr_ns : Z) (e : exn) :
  relative_delta base_ns curr_ns = Raise e -> e = OverflowError.
Proof.
  unfold relative_delta, int_truediv.
  destruct (Z.ltb_spec 0 base_ns) as [Hb|]; [|done].
  destruct (Z.eqb_spec base_ns 0) as [|_]; [lia|].
  destruct (round_binary64 _ _) as [[m k]|]; [done|]. congruence.
Qed.

(** When the loop runs to its end, it has printed one row per item, in
    the order of the items, and added the regressed items, in that order
    too, to the regressions list. *)
Lemma baseline_loop_ok (current : gmap str Z) (items : list (str * Z))
    (regs regs' : list (str * float)) (rows : list line) :
  baseline_loop current items regs = (rows, Ok regs') ->
  Forall2 (row_spec current) items rows
  /\ exists added,
       regs' = regs ++ added
       /\ forall name delta,
            (name, delta) ∈ added
            <-> exists base_ns curr_ns,
                  (name, base_ns) ∈ items /\ current !! name = Some curr_ns
                  /\ relative_delta base_ns curr_ns = Ok delta
                  /\ is_regression delta = true.
Proof.
  revert regs rows. induction items as [|[name base_ns] items IH];
    intros regs rows; simpl.
  - intros [= <- <-]. split; [constructor|].
    exists []. split; [by rewrite app_nil_r|].
    intros n d. split; [by intros ?%elem_of_nil|].
    by intros (? & ? & ?%elem_of_nil & _).
  - destruct (current !! name) as [curr_ns|] eqn:Hcur.
    + destruct (relative_delta base_ns curr_ns) as [delta|e] eqn:Hd; [|done].
      destruct (baseline_loop current items _) as [out r] eqn:Hloop.
      intros [= <- ->].
      apply IH in Hloop as (Hrows & added & -> & Hadded).
      split.
      { constructor; [|done]. unfold row_spec. simpl. rewrite Hcur. eauto. }
      destruct (is_regression delta) eqn:Hreg.
      * exists ((name, delta) :: added).
        split; [by rewrite <- app_assoc|].
        intros n d. rewrite elem_of_cons, Hadded. split.
        -- intros [[= -> ->]|(b & c & Hin & ?)].
           ++ exists base_ns, curr_ns. by rewrite elem_of_cons; auto.
           ++ exists b, c. by rewrite elem_of_cons; auto.
        -- intros (b & c & [[= -> ->]|Hin]%elem_of_cons & Hc & Hdel & Hr).
           ++ left. rewrite Hcur in Hc. injection Hc as <-.
              rewrite Hd in Hdel. by injection Hdel as <-.
           ++ right. eauto 10.
      * exists added. split; [done|].
        intros n d. rewrite Hadded. split.
        -- intros (b & c & Hin & ?). exists b, c.
           by rewrite elem_of_cons; auto.
        -- intros (b & c & [[= -> ->]|Hin]%elem_of_cons & Hc & Hdel & Hr).
           ++ rewrite Hcur in Hc. injection Hc as <-.
              rewrite Hd in Hdel. injection Hdel as <-. congruence.
           ++ eauto 10.
    + destruct (baseline_loop current items regs) as [out r] eqn:Hloop.
      intros [= <- ->].
      apply IH in Hloop as (Hrows & added & -> & Hadded).
      split.
      { constructor; [|done]. unfold row_spec. simpl. by rewrite Hcur. }
      exists added. split; [done|].
      intros n d. rewrite Hadded. split.
      * intros (b & c & Hin & ?). exists b, c. by rewrite elem_of_cons; auto.
      * intros (b & c & [[= -> ->]|Hin]%elem_of_cons & Hc & Hdel & Hr).
        -- congruence.
        -- eauto 10.
Qed.

(** The loop runs to its end when every delta it computes is finite. *)
Lemma baseline_loop_total (current : gmap str Z) (items : list (str * Z))
    (regs : list (str * float)) :
  (forall name base_ns curr_ns,
     (name, base_ns) ∈ items -> current !! name = Some curr_ns ->
     exists delta, relative_delta base_ns curr_ns = Ok delta) ->
  exists rows regs', baseline_loop current items regs = (rows, Ok regs').
Proof.
  revert regs. induction items as [|[name base_ns] items IH];
    intros regs Hfin; simpl; [eauto|].
  assert (forall regs0, exists rows regs',
             baseline_loop current items regs0 = (rows, Ok regs')) as IH'.
  { intros regs0. apply IH. intros n b c Hin. apply Hfin.
    by apply elem_of_cons; right. }
  destruct (current !! name) as [curr_ns|] eqn:Hcur.
  - destruct (Hfin name base_ns curr_ns) as [delta ->];
      [by apply elem_of_cons; left|done|].
    match goal with |- context [baseline_loop current items ?r] =>
      destruct (IH' r) as (rows & regs' & ->) end.
    eauto.
  - destruct (IH' regs) as (rows & regs' & ->). eauto.
Qed.

(** The loop stops early only on a delta beyond the binary64 range. *)
Lemma baseline_loop_raise (current : gmap str Z) (items : list (str * Z))
    (regs : list (str * float)) (rows : list line) (e : exn) :
  baseline_loop current items regs = (rows, Raise e) ->
  e = OverflowError
  /\ exists name base_ns curr_ns,
       (name, base_ns) ∈ items /\ current !! name = Some curr_ns
       /\ relative_delta base_ns curr_ns = Raise OverflowError.
Proof.
  revert regs rows. induction items as [|[name base_ns] items IH];
    intros regs rows; simpl; [done|].
  destruct (current !! name) as [curr_ns|] eqn:Hcur.
  - destruct (relative_delta base_ns curr_ns) as [delta|e'] eqn:Hd.
    + destruct (baseline_loop current items _) as [out r] eqn:Hloop.
      intros [= <- ->].
      apply IH in Hloop as (-> & n & b & c & Hin & ?).
      split; [done|]. exists n, b, c. by rewrite elem_of_cons; auto.
    + intros [= <- <-]. pose proof (relative_delta_raises _ _ _ Hd) as ->.
      split; [done|]. exists name, base_ns, curr_ns.
      by rewrite elem_of_cons; auto.
  - destruct (baseline_loop current items regs) as [out r] eqn:Hloop.
    intros [= <- ->].
    apply IH in Hloop as (-> & n & b & c & Hin & ?).
    split; [done|]. exists n, b, c. by rewrite elem_of_cons; auto.
Qed.

(** The rows of the loop are rows of the baseline, whatever its end. *)
Lemma baseline_loop_rows (current : gmap str Z) (items : list (str * Z))
    (regs : list (str * float)) :
  Forall (fun l => is_new_row l = false)
         (baseline_loop current items regs).1.
Proof.
  revert regs. induction items as [|[name base_ns] items IH];
    intros regs; simpl; [constructor|].
  destruct (current !! name) as [curr_ns|].
  - destruct (relative_delta base_ns curr_ns) as [delta|e]; [|constructor].
    match goal with |- context [baseline_loop current items ?r] =>
      specialize (IH r); destruct (baseline_loop current items r) end.
    by constructor.
  - specialize (IH regs). destruct (baseline_loop current items regs).
    by constructor.
Qed.

(** The loop reads [current] at the names of its items only. *)
Lemma baseline_loop_ext (current current' : gmap str Z)
    (items : list (str * Z)) (regs : list (str * float)) :
  (forall name, name ∈ items.*1 -> current !! name = current' !! name) ->
  baseline_loop current items regs = baseline_loop current' items regs.
Proof.
  revert regs. induction items as [|[name base_ns] items IH];
    intros regs Hext; simpl; [done|].
  rewrite <- (Hext name) by (simpl; apply elem_of_cons; auto).
  assert (forall r, baseline_loop current items r
                    = baseline_loop current' items r) as IH'.
  { intros r. apply IH. intros n Hn. apply Hext. simpl.
    by apply elem_of_cons; right. }
  destruct (current !! name) as [curr_ns|]; [|by rewrite IH'].
  destruct (relative_delta base_ns curr_ns); [|done]. by rewrite IH'.
Qed.

Lemma Forall2_row_spec_names (current : gmap str Z)
    (items : list (str * Z)) (rows : list line) :
  Forall2 (row_spec current) items rows ->
  omap baseline_row_name rows = items.*1
  /\ omap new_row_name rows = []
  /\ omap row_name rows = items.*1.
Proof.
  induction 1 as [|[name b] row items rows Hrow _ (IH1 & IH2 & IH3)];
    simpl; [done|].
  unfold row_spec in Hrow. simpl in Hrow.
  destruct (current !! name).
  - destruct Hrow as (d & _ & ->). cbn.
    repeat split; [f_equal; exact IH1|exact IH2|f_equal; exact IH3].
  - subst row. cbn.
    repeat split; [f_equal; exact IH1|exact IH2|f_equal; exact IH3].
Qed.

(** ** The comparison as a whole *)

(** With an empty baseline the comparison is skipped. *)
Lemma compare_empty (current : gmap str Z) :
  compare ∅ current = ([SkipNotice], SysExit 0).
Proof. unfold compare. by rewrite decide_True. Qed.

(** With a baseline and finite deltas, the report is the three heading
    lines, a row per baseline item, a row per new benchmark, a blank line
    and the summary. *)
Lemma compare_finite (baseline current : gmap str Z) :
  baseline ≠ ∅ -> deltas_finite baseline current ->
  exists rows regs,
    compare baseline current
    = ([Title; Header; Rule] ++ rows ++ new_rows baseline current
       ++ [Blank] ++ summary regs, verdict regs)
    /\ Forall2 (row_spec current) (sorted_items baseline) rows
    /\ forall name delta,
         (name, delta) ∈ regs <-> regressed baseline current name delta.
Proof.
  intros Hne Hfin. unfold compare. rewrite decide_False by done.
  destruct (baseline_loop_total current (sorted_items baseline) [])
    as (rows & regs & Hloop).
  { intros n b c Hin. apply Hfin. by apply elem_of_sorted_items. }
  rewrite Hloop. exists rows, regs.
  apply baseline_loop_ok in Hloop as (Hrows & added & -> & Hadded).
  simpl. split; [|split; [done|]].
  - destruct added; simpl; by rewrite <- ?app_assoc.
  - intros n d. rewrite Hadded. unfold regressed.
    by setoid_rewrite elem_of_sorted_items.
Qed.

(** Without an uncaught exception the same holds, and the deltas were
    finite. *)
Lemma compare_completed (baseline current : gmap str Z)
    (out : list line) (t : termination) :
  baseline ≠ ∅ -> compare baseline current = (out, t) ->
  (forall e, t <> Uncaught e) ->
  exists rows regs,
    out = [Title; Header; Rule] ++ rows ++ new_rows baseline current
          ++ [Blank] ++ summary regs
    /\ t = verdict regs
    /\ Forall2 (row_spec current) (sorted_items baseline) rows
    /\ forall name delta,
         (name, delta) ∈ regs <-> regressed baseline current name delta.
Proof.
  intros Hne Hcmp Ht. unfold compare in Hcmp.
  rewrite decide_False in Hcmp by done.
  destruct (baseline_loop current (sorted_items baseline) [])
    as [rows [regs|e]] eqn:Hloop.
  - exists rows, regs.
    apply baseline_loop_ok in Hloop as (Hrows & added & -> & Hadded).
    simpl in *. split; [|split; [|split; [done|]]].
    + destruct added; injection Hcmp as <- <-; simpl;
        by rewrite <- ?app_assoc.
    + by destruct added; injection Hcmp as <- <-.
    + intros n d. rewrite Hadded. unfold regressed.
      by setoid_rewrite elem_of_sorted_items.
  - injection Hcmp as <- <-. by destruct (Ht e).
Qed.

(** ** The matcher finds a match exactly when there is one *)

Lemma strip_prefix_Some (l s s' : str) :
  strip_prefix l s = Some s' <-> s = l ++ s'.
Proof.
  revert s. induction l as [|a l IH]; intros s; simpl.
  - split; congruence.
  - destruct s as [|b s]; [done|].
    destruct (N.eqb_spec a b) as [->|Hne].
    + rewrite IH. split; congruence.
    + split; congruence.
Qed.

Section EngineCorrect.
Context {A : Type}.
Implicit Types (k : nat -> str -> option A).

Lemma greedy_sound p pos s k a :
  greedy p pos s k = Some a ->
  exists u s', s = u ++ s' /\ Forall (fun x => p x = true) u
               /\ k (pos + length u)%nat s' = Some a.
Proof.
  revert pos. induction s as [|c s IH]; intros pos; simpl.
  - intros Hk. exists [], []. by rewrite Nat.add_0_r.
  - destruct (p c) eqn:Hc.
    + destruct (greedy p (S pos) s k) as [a'|] eqn:Hg.
      * intros [= ->]. apply IH in Hg as (u & s' & -> & Hu & Hk).
        exists (c :: u), s'. simpl.
        rewrite Nat.add_succ_r. by repeat split; [constructor|].
      * intros Hk. exists [], (c :: s). by rewrite Nat.add_0_r.
    + intros Hk. exists [], (c :: s). by rewrite Nat.add_0_r.
Qed.

Lemma greedy_complete p pos u s' k :
  Forall (fun x => p x = true) u ->
  is_Some (k (pos + length u)%nat s') ->
  is_Some (greedy p pos (u ++ s') k).
Proof.
  intros Hu. revert pos. induction Hu as [|c u Hc Hu IH]; intros pos; simpl.
  - rewrite Nat.add_0_r. intros Hk.
    destruct s' as [|c s']; simpl; [done|].
    destruct (p c); [|done]. by destruct (greedy p (S pos) s' k).
  - rewrite Hc, Nat.add_succ_r. intros Hk.
    by destruct (IH (S pos) Hk) as [a ->].
Qed.

Lemma run_sound r pos s caps (k : nat -> str -> groups -> option A) a :
  run r pos s caps k = Some a ->
  exists pos' s' caps',
    matches r pos s caps pos' s' caps' /\ k pos' s' caps' = Some a.
Proof.
  revert pos s caps k.
  induction r as [|l|c|c|i r IH|r1 IH1 r2 IH2]; intros pos s caps k; simpl.
  - destruct (Nat.eqb_spec pos 0) as [->|]; [|done].
    intros Hk. eauto using matches.
  - destruct (strip_prefix l s) as [s'|] eqn:Hl; [|done].
    apply strip_prefix_Some in Hl as ->. intros Hk. eauto using matches.
  - destruct s as [|x s]; [done|].
    destruct (in_class c x) eqn:Hx; [|done].
    intros (u & s' & -> & Hu & Hk)%greedy_sound.
    exists (S pos + length u)%nat, s', caps. split; [|done].
    replace (S pos + length u)%nat with (pos + length (x :: u))%nat
      by (simpl; lia).
    by apply (matches_plus c (x :: u)); [|constructor].
  - intros (u & s' & -> & Hu & Hk)%greedy_sound.
    exists (pos + length u)%nat, s', caps. split; [by constructor|done].
  - intros (pos' & s' & caps' & Hm & Hk)%IH.
    exists pos', s', (<[i := take (pos' - pos) s]> caps').
    split; [by constructor|done].
  - intros (pos1 & s1 & caps1 & Hm1 & Hk)%IH1.
    apply IH2 in Hk as (pos2 & s2 & caps2 & Hm2 & Hk).
    exists pos2, s2, caps2. split; [by econstructor|done].
Qed.

Lemma run_complete r pos s caps pos' s' caps'
    (k : nat -> str -> groups -> option A) :
  matches r pos s caps pos' s' caps' ->
  is_Some (k pos' s' caps') ->
  is_Some (run r pos s caps k).
Proof.
  intros Hm. revert k.
  induction Hm as [s caps|l pos s caps|c u pos s caps Hu
                   |c u pos s caps Hne Hu
                   |i r pos s caps pos' s' caps' Hm IH
                   |r1 r2 pos s caps pos1 s1 caps1 pos2 s2 caps2 _ IH1 _ IH2];
    intros k Hk; simpl.
  - done.
  - by rewrite (proj2 (strip_prefix_Some l (l ++ s) s) eq_refl).
  - by apply (greedy_complete _ _ _ _ (fun pos' s' => k pos' s' caps)).
  - destruct Hu as [|x u Hx Hu]; [done|]. simpl. rewrite Hx.
    apply (greedy_complete _ _ _ _ (fun pos' s' => k pos' s' caps)); [done|].
    by replace (S pos + length u)%nat with (pos + length (x :: u))%nat
      by (simpl; lia).
  - by apply IH.
  - apply IH1. by apply IH2.
Qed.
End EngineCorrect.

(** A match consumes a prefix of what it is given. *)
Lemma matches_consumes r pos s caps pos' s' caps' :
  matches r pos s caps pos' s' caps' ->
  exists u, s = u ++ s' /\ pos' = (pos + length u)%nat.
Proof.
  induction 1 as [s caps|l pos s caps|c u pos s caps Hu
                  |c u pos s caps Hne Hu
                  |i r pos s caps pos' s' caps' Hm IH
                  |r1 r2 pos s caps pos1 s1 caps1 pos2 s2 caps2
                     _ IH1 _ IH2].
  - by exists [].
  - by exists l.
  - by exists u.
  - by exists u.
  - done.
  - destruct IH1 as (u1 & -> & ->), IH2 as (u2 & -> & ->).
    exists (u1 ++ u2). rewrite length_app, <- app_assoc. split; [done|lia].
Qed.

(** ** The shape of a matching line *)

Ltac invert_matches :=
  repeat match goal with
         | H : matches (_ ⋅ _) _ _ _ _ _ _ |- _ => inversion H; clear H; subst
         | H : matches (Group _ _) _ _ _ _ _ _ |- _ =>
             inversion H; clear H; subst
         | H : matches (Plus _) _ _ _ _ _ _ |- _ => inversion H; clear H; subst
         | H : matches (Star _) _ _ _ _ _ _ |- _ => inversion H; clear H; subst
         | H : matches (Lit _) _ _ _ _ _ _ |- _ => inversion H; clear H; subst
         | H : matches Bol _ _ _ _ _ _ |- _ => inversion H; clear H; subst
         end.

Lemma take_run (pos : nat) (u s : str) :
  take (pos + length u - pos) (u ++ s) = u.
Proof.
  replace (pos + length u - pos)%nat with (length u) by lia.
  by rewrite take_app_length.
Qed.

(** A line the pattern matches has the shape, with the groups found. *)
Lemma re_match_shape (line : str) (m : groups) :
  re_match bencher_line line = Some m ->
  line_shape line (group m 1) (group m 2).
Proof.
  unfold re_match. intros (pos' & s' & caps' & Hm & [= ->])%run_sound.
  unfold bencher_line in Hm. invert_matches.
  unfold group. rewrite lookup_insert_ne, !lookup_insert_eq by done. simpl.
  rewrite !take_run.
  do 7 eexists. split; [reflexivity|].
  unfold run_of. by repeat split.
Qed.

(** A line of the shape is matched. *)
Lemma shape_re_match (line name number : str) :
  line_shape line name number -> is_Some (re_match bencher_line line).
Proof.
  intros (ws1 & ws2 & mid & ws3 & ws4 & ws5 & tl & -> & [? ?] & [? ?] & [? ?]
          & ? & [? ?] & [? ?] & [? ?] & [? ?]).
  unfold re_match, bencher_line.
  eapply run_complete; [|by eexists].
  repeat (eapply matches_cat; [first
    [ apply matches_bol | apply matches_lit
    | apply matches_plus; eassumption | apply matches_star; eassumption
    | apply matches_group, matches_plus; eassumption ]|]).
  apply matches_lit.
Qed.

Lemma line_entry_Some (line name number : str) :
  line_entry line = Some (name, number) -> line_shape line name number.
Proof.
  unfold line_entry. destruct (re_match bencher_line line) as [m|] eqn:Hm;
    [|done].
  intros [= <- <-]. by apply re_match_shape.
Qed.

Lemma line_entry_None (line : str) :
  line_entry line = None <-> forall name number, ~ line_shape line name number.
Proof.
  unfold line_entry. split.
  - intros Hnone name number [m Hm]%shape_re_match. by rewrite Hm in Hnone.
  - intros Hno. destruct (re_match bencher_line line) as [m|] eqn:Hm; [|done].
    by destruct (Hno _ _ (re_match_shape _ _ Hm)).
Qed.

(** A run of one class followed by a character outside it is determined
    by the text. *)
Lemma run_unique (p : N -> bool) (u u' : str) (x x' : N) (r r' : str) :
  Forall (fun c => p c = true) u -> Forall (fun c => p c = true) u' ->
  p x = false -> p x' = false ->
  u ++ x :: r = u' ++ x' :: r' -> u = u' /\ x :: r = x' :: r'.
Proof.
  intros Hu. revert u'. induction Hu as [|c u Hc Hu IH];
    intros u' Hu' Hx Hx'; destruct Hu' as [|c' u' Hc' Hu']; simpl.
  - done.
  - intros [= -> _]. congruence.
  - intros [= -> _]. congruence.
  - intros [= -> Heq]. destruct (IH u' Hu' Hx Hx' Heq) as [-> ?]. done.
Qed.

Lemma run_of_head (k : cclass) (u : str) :
  run_of k u ->
  exists x u', u = x :: u' /\ in_class k x = true
               /\ Forall (fun c => in_class k c = true) u'.
Proof.
  intros [Hne Hu]. destruct Hu as [|x u Hx Hu]; [done|]. eauto.
Qed.

Lemma run_of_last (k : cclass) (u : str) :
  run_of k u ->
  exists u' x, u = u' ++ [x] /\ in_class k x = true
               /\ Forall (fun c => in_class k c = true) u'.
Proof.
  intros [Hne Hu]. destruct (exists_last Hne) as (u' & x & ->).
  apply Forall_app in Hu as [Hu' Hx]. inversion_clear Hx as [|? ? Hx' _].
  by exists u', x.
Qed.

(** The name of a line of the shape is the first token after "test". *)
Lemma line_shape_name (ws1 name ws2 rest line name' number : str) :
  line = lit "test" ++ ws1 ++ name ++ ws2 ++ rest ->
  run_of Space ws1 -> run_of NotSpace name -> run_of Space ws2 ->
  line_shape line name' number ->
  exists ws2' rest',
    name' = name /\ ws2 ++ rest = ws2' ++ rest' /\ run_of Space ws2'
    /\ exists mid ws3 tl,
         rest' = mid ++ ws3 ++ lit "bench:" ++ tl
         /\ Forall (fun x => in_class AnyChar x = true) mid
         /\ run_of Space ws3.
Proof.
  intros -> H1 Hn H2
    (ws1' & ws2' & mid & ws3 & ws4 & ws5 & tl & Heq & H1' & Hn' & H2'
     & Hmid & H3 & _).
  apply app_inv_head in Heq.
  remember (mid ++ ws3 ++ lit "bench:" ++ ws4 ++ number ++ ws5
              ++ lit "ns/iter" ++ tl) as rest' eqn:Hrest'.
  destruct (run_of_head _ _ Hn) as (x & n1 & -> & Hx & Hn1).
  destruct (run_of_head _ _ Hn') as (x' & n1' & -> & Hx' & Hn1').
  destruct (run_of_head _ _ H2) as (w & v & -> & Hw & Hv).
  destruct (run_of_head _ _ H2') as (w' & v' & -> & Hw' & Hv').
  cbn [in_class] in Hx, Hx', Hw, Hw'. apply negb_true_iff in Hx, Hx'.
  destruct H1 as [_ H1], H1' as [_ H1'].
  cbn [app] in Heq.
  destruct (run_unique is_space ws1 ws1' x x' _ _ H1 H1' Hx Hx' Heq)
    as [-> [= -> Heq2]].
  destruct (run_unique (fun c => negb (is_space c)) n1 n1' w w'
              (v ++ rest) (v' ++ rest')) as [-> [= -> Heq3]]; try done.
  { by rewrite Hw. } { by rewrite Hw'. }
  exists (w' :: v'), rest'.
  split; [done|]. split; [by cbn [app]; rewrite Heq3|].
  split; [split; [done|by constructor]|].
  by exists mid, ws3, (ws4 ++ number ++ ws5 ++ lit "ns/iter" ++ tl).
Qed.

Lemma app_eq_split {A : Type} (l r p q : list A) (x : A) :
  l ++ r = p ++ x :: q ->
  (exists p', p = l ++ p' /\ r = p' ++ x :: q) \/ x ∈ l.
Proof.
  revert p. induction l as [|a l IH]; intros p; simpl.
  - intros ->. left. by exists p.
  - destruct p as [|b p]; simpl.
    + intros [= -> _]. right. by apply elem_of_cons; left.
    + intros [= -> Heq]. destruct (IH p Heq) as [(p' & -> & ->)|Hin].
      * left. by exists p'.
      * right. by apply elem_of_cons; right.
Qed.

Lemma marker_after_space_intro (pre post : str) (w : N) :
  is_space w = true ->
  marker_after_space (pre ++ w :: lit "bench:" ++ post) = true.
Proof.
  intros Hw. induction pre as [|c pre IH]; cbn [app marker_after_space].
  - rewrite Hw, bool_decide_eq_true_2; [done|].
    exists post. by apply strip_prefix_Some.
  - rewrite IH. apply orb_true_r.
Qed.

Lemma marker_no_space : Forall (fun c => is_space c = false) (lit "bench:").
Proof. repeat constructor. Qed.

(** One white space character between the name and "bench:", and no
    white space followed by "bench:" further on: the line has no entry. *)
Lemma line_entry_single_space (ws1 name rest : str) (w : N) :
  run_of Space ws1 -> run_of NotSpace name -> is_space w = true ->
  marker_after_space rest = false ->
  line_entry (lit "test" ++ ws1 ++ name ++ [w] ++ lit "bench:" ++ rest) = None.
Proof.
  intros H1 Hn Hw Hrest.
  destruct (line_entry _) as [[n d]|] eqn:Hentry; [|done].
  apply line_entry_Some in Hentry.
  destruct (line_shape_name ws1 name [w] (lit "bench:" ++ rest) _ n d eq_refl)
    as (ws2' & rest' & _ & Heq & H2' & mid & ws3 & tl & -> & Hmid & H3);
    [done|done|by split; [|constructor]|done|].
  destruct (run_of_head _ _ H2') as (w' & v' & -> & _ & Hv').
  destruct (run_of_last _ _ H3) as (ws3' & w3 & -> & Hw3 & _).
  pose proof marker_no_space as Hns.
  remember (lit "bench:") as bm eqn:Hbm.
  cbn [app] in Heq. injection Heq as _ Heq.
  assert (bm ++ rest = (v' ++ mid ++ ws3') ++ w3 :: bm ++ tl) as Heq'.
  { rewrite Heq. by rewrite <- !app_assoc. }
  apply app_eq_split in Heq' as [(p' & _ & ->)|Hin].
  - subst bm. by rewrite marker_after_space_intro in Hrest.
  - eapply Forall_forall in Hns; [|done]. cbn [in_class] in Hw3. congruence.
Qed.

(** A line with an entry starts with "test" and has two white space
    characters, at least, between the name and the "bench:" its number
    follows. *)
Lemma line_entry_needs (line name number : str) :
  line_entry line = Some (name, number) ->
  exists ws1 w1 mid w2 rest,
    line = lit "test" ++ ws1 ++ name ++ [w1] ++ mid ++ [w2] ++ lit "bench:"
           ++ rest
    /\ run_of Space ws1 /\ run_of NotSpace name
    /\ is_space w1 = true /\ is_space w2 = true.
Proof.
  intros (ws1 & ws2 & mid & ws3 & ws4 & ws5 & tl & -> & H1 & Hn & H2 & _
          & H3 & _)%line_entry_Some.
  destruct (run_of_head _ _ H2) as (w1 & v & -> & Hw1 & _).
  destruct (run_of_last _ _ H3) as (ws3' & w2 & -> & Hw2 & _).
  exists ws1, w1, (v ++ mid ++ ws3'), w2,
    (ws4 ++ number ++ ws5 ++ lit "ns/iter" ++ tl).
  split; [|done]. cbn [app]. by rewrite <- !app_assoc.
Qed.

(** ** The numbers the pattern lets through *)

Lemma to_decimal_range (c : N) (d : Z) : to_decimal c = Some d -> 0 <= d <= 9.
Proof.
  unfold to_decimal. induction decimal_zeros as [|z zs IH]; simpl; [done|].
  destruct (N.leb_spec z c), (N.ltb_spec c (z + 10)); simpl; try done.
  intros [= <-]. lia.
Qed.

Lemma strip_commas_digits (number : str) :
  Forall (fun x => in_class DigitOrComma x = true) number ->
  Forall (fun x => is_digit x = true) (strip_commas number).
Proof.
  unfold strip_commas. induction 1 as [|c number Hc _ IH]; [constructor|].
  rewrite filter_cons. destruct (decide (c ≠ comma)) as [Hne|]; [|done].
  constructor; [|done]. simpl in Hc.
  apply orb_true_iff in Hc as [|Heq%N.eqb_eq]; done.
Qed.

Lemma digits_value_digits (s : str) (acc : Z) :
  Forall (fun x => is_digit x = true) s -> 0 <= acc ->
  exists v, digits_value acc s = Some v /\ 0 <= v.
Proof.
  intros Hs. revert acc. induction Hs as [|c s Hc _ IH]; intros acc Hacc; simpl.
  - eauto.
  - unfold is_digit in Hc. destruct (to_decimal c) as [d|] eqn:Hd; [|done].
    apply to_decimal_range in Hd. apply IH. lia.
Qed.

Lemma digits_value_bound (s : str) (acc v : Z) :
  digits_value acc s = Some v -> 0 <= acc ->
  acc * 10 ^ Z.of_nat (length s) <= v
  /\ v < (acc + 1) * 10 ^ Z.of_nat (length s).
Proof.
  revert acc. induction s as [|c s IH]; intros acc; cbn [digits_value length].
  - intros [= ->] _. cbn. lia.
  - destruct (to_decimal c) as [d|] eqn:Hd; [|done].
    apply to_decimal_range in Hd. intros Hv Hacc.
    apply IH in Hv as [Hlo Hhi]; [|lia].
    rewrite Nat2Z.inj_succ, Z.pow_succ_r by lia.
    assert (0 < 10 ^ Z.of_nat (length s)) by (apply Z.pow_pos_nonneg; lia).
    nia.
Qed.

(** [int] of the second group, commas removed: a non-negative integer
    when the group holds a digit and no more digits than the limit,
    [ValueError] otherwise. *)
Lemma py_int_number (number : str) :
  Forall (fun x => in_class DigitOrComma x = true) number ->
  (int_reads number ->
   exists v, py_int (strip_commas number) = Ok v /\ 0 <= v
             /\ digits_value 0 (strip_commas number) = Some v)
  /\ (~ int_reads number ->
      py_int (strip_commas number) = Raise ValueError).
Proof.
  intros Hd%strip_commas_digits. unfold int_reads, py_int.
  destruct (strip_commas number) as [|c s] eqn:Hs; [by split; [intros []|]|].
  destruct (digits_value_digits (c :: s) 0 Hd) as (v & Hv & Hpos); [done|].
  rewrite Hv.
  destruct (Z.ltb_spec int_max_str_digits (Z.of_nat (length (c :: s))))
    as [Hlong|Hshort].
  - split; [intros [_ ?]; lia|done].
  - split; [by exists v|]. intros Hno. by destruct Hno.
Qed.

Lemma py_int_Ok (number : str) (v : Z) :
  Forall (fun x => in_class DigitOrComma x = true) number ->
  py_int (strip_commas number) = Ok v ->
  int_reads number /\ 0 <= v
  /\ digits_value 0 (strip_commas number) = Some v.
Proof.
  intros [Hreads Hno]%py_int_number Hv.
  assert (int_reads number) as Hr.
  { unfold int_reads.
    destruct (decide (strip_commas number = [])) as [Hnil|Hne].
    - rewrite Hno in Hv; [done|]. by intros [? _].
    - destruct (Z.le_gt_cases (Z.of_nat (length (strip_commas number)))
                  int_max_str_digits) as [Hle|Hgt]; [done|].
      rewrite Hno in Hv; [done|]. intros [_ ?]. lia. }
  split; [done|]. destruct (Hreads Hr) as (v' & Hv' & ? & ?).
  rewrite Hv in Hv'. by injection Hv' as <-.
Qed.

Lemma py_int_Raise (number : str) (e : exn) :
  Forall (fun x => in_class DigitOrComma x = true) number ->
  py_int (strip_commas number) = Raise e ->
  e = ValueError /\ ~ int_reads number.
Proof.
  intros [Hreads Hno]%py_int_number He. split.
  - unfold py_int in He. destruct (strip_commas number); [congruence|].
    destruct (_ <? _); [congruence|].
    destruct (digits_value _ _); congruence.
  - intros (v & Hv & _)%Hreads. by rewrite Hv in He.
Qed.

Lemma strip_commas_nil (number : str) :
  strip_commas number = [] <-> Forall (fun c => c = comma) number.
Proof.
  unfold strip_commas. induction number as [|c number IH]; [done|].
  rewrite filter_cons, Forall_cons.
  destruct (decide (c ≠ comma)) as [Hne|Heq].
  - split; [done|]. by intros [? _].
  - apply dec_stable in Heq. rewrite IH. split; [by split|by intros [_ ?]].
Qed.

(** ** parse_bencher *)

Lemma line_entry_groups (line : str) :
  line_entry line
  = match re_match bencher_line line with
    | Some m => Some (group m 1, group m 2)
    | None => None
    end.
Proof. unfold line_entry. by destruct (re_match bencher_line line). Qed.

(** The loop, when it ends: each name has the value of its last matching
    line, or the value it had before the loop. *)
Lemma parse_loop_ok (lines : list str) (acc m : gmap str Z) :
  parse_loop lines acc = Ok m ->
  forall name,
    m !! name = match last_entry name lines with
                | Some v => Some v
                | None => acc !! name
                end.
Proof.
  revert acc. induction lines as [|line lines IH]; intros acc; simpl.
  - by intros [= ->].
  - rewrite line_entry_groups.
    destruct (re_match bencher_line line) as [mt|].
    + destruct (py_int (strip_commas (group mt 2))) as [ns|e]; [|done].
      intros Hloop name. rewrite (IH _ Hloop name).
      destruct (last_entry name lines); [done|].
      destruct (decide (group mt 1 = name)) as [->|Hne].
      * by rewrite lookup_insert_eq.
      * by rewrite lookup_insert_ne.
    + intros Hloop name. rewrite (IH _ Hloop name).
      by destruct (last_entry name lines).
Qed.

(** The loop ends when [int] reads the number of every matching line. *)
Lemma parse_loop_total (lines : list str) (acc : gmap str Z) :
  (forall line name number,
     line ∈ lines -> line_entry line = Some (name, number) ->
     int_reads number) ->
  exists m, parse_loop lines acc = Ok m.
Proof.
  revert acc. induction lines as [|line lines IH]; intros acc Hd; simpl;
    [eauto|].
  assert (forall acc', exists m, parse_loop lines acc' = Ok m) as IH'.
  { intros acc'. apply IH. intros l n d Hin. apply Hd.
    by apply elem_of_cons; right. }
  destruct (re_match bencher_line line) as [mt|] eqn:Hm; [|done].
  pose proof (re_match_shape _ _ Hm)
    as (? & ? & ? & ? & ? & ? & ? & _ & _ & _ & _ & _ & _ & _ & [_ Hnum] & _).
  apply py_int_number in Hnum as [Hreads _].
  destruct Hreads as (v & -> & _); [|apply IH'].
  apply (Hd line (group mt 1)); [by left|].
  by rewrite line_entry_groups, Hm.
Qed.

(** The loop raises only [ValueError], on a matching line whose number
    [int] does not read. *)
Lemma parse_loop_raise (lines : list str) (acc : gmap str Z) (e : exn) :
  parse_loop lines acc = Raise e ->
  e = ValueError
  /\ exists line name number,
       line ∈ lines /\ line_entry line = Some (name, number)
       /\ ~ int_reads number.
Proof.
  revert acc. induction lines as [|line lines IH]; intros acc; simpl; [done|].
  destruct (re_match bencher_line line) as [mt|] eqn:Hm.
  - pose proof (re_match_shape _ _ Hm)
      as (? & ? & ? & ? & ? & ? & ? & _ & _ & _ & _ & _ & _ & _ & [_ Hnum]
          & _).
    destruct (py_int (strip_commas (group mt 2))) as [v|e'] eqn:Hint.
    + intros (-> & l & n & d & Hin & ?)%IH. split; [done|].
      exists l, n, d. split; [by right|done].
    + apply py_int_Raise in Hint as [-> Hno]; [|done].
      intros [= <-]. split; [done|].
      exists line, (group mt 1), (group mt 2).
      split; [by left|]. split; [by rewrite line_entry_groups, Hm|done].
  - intros (-> & l & n & d & Hin & ?)%IH. split; [done|].
    exists l, n, d. split; [by right|done].
Qed.

(** The value of the last matching line of a name, spelled out. *)
Lemma last_entry_Some (name : str) (lines : list str) (v : Z) :
  last_entry name lines = Some v
  <-> exists before line after number,
        lines = before ++ line :: after
        /\ line_entry line = Some (name, number)
        /\ py_int (strip_commas number) = Ok v
        /\ last_entry name after = None.
Proof.
  induction lines as [|l lines IH]; simpl.
  - split; [done|]. intros (before & ? & ? & ? & Heq & _).
    by destruct before.
  - destruct (last_entry name lines) as [v'|] eqn:Hlast.
    + split.
      * intros [= ->].
        destruct (proj1 IH eq_refl) as (before & line & after & d & -> & ?).
        by exists (l :: before), line, after, d.
      * intros (before & line & after & d & Heq & He & Hv & Hnone).
        destruct before as [|l' before]; simpl in Heq; injection Heq as -> ->.
        -- congruence.
        -- apply IH. by exists before, line, after, d.
    + split.
      * intros Hv. exists [], l, lines.
        destruct (line_entry l) as [[n d]|]; [|done].
        destruct (decide (n = name)) as [->|]; [|done].
        exists d. destruct (py_int (strip_commas d)); [|done].
        by injection Hv as ->.
      * intros (before & line & after & d & Heq & He & Hv & Hnone).
        destruct before as [|l' before]; simpl in Heq; injection Heq as -> ->.
        -- rewrite He, decide_True, Hv by done. done.
        -- assert (@None Z = Some v) as Habs; [|done].
           apply IH. by exists before, line, after, d.
Qed.

Lemma last_entry_None (name : str) (lines : list str) :
  (forall line, line ∈ lines -> line_entry line = None) ->
  last_entry name lines = None.
Proof.
  induction lines as [|l lines IH]; intros Hno; simpl; [done|].
  rewrite IH by (intros l' Hin; apply Hno; by right).
  by rewrite (Hno l) by (by left).
Qed.

Lemma last_entry_nonneg (name : str) (lines : list str) (v : Z) :
  last_entry name lines = Some v -> 0 <= v.
Proof.
  intros (_ & line & _ & d & _ & He & Hv & _)%last_entry_Some.
  apply line_entry_Some in He
    as (? & ? & ? & ? & ? & ? & ? & _ & _ & _ & _ & _ & _ & _ & [_ Hnum] & _).
  by apply py_int_Ok in Hv as (_ & ? & _).
Qed.

Lemma last_entry_bound (name : str) (lines : list str) (v : Z) :
  last_entry name lines = Some v -> v < 10 ^ int_max_str_digits.
Proof.
  intros (_ & line & _ & d & _ & He & Hv & _)%last_entry_Some.
  apply line_entry_Some in He
    as (? & ? & ? & ? & ? & ? & ? & _ & _ & _ & _ & _ & _ & _ & [_ Hnum] & _).
  apply py_int_Ok in Hv as ([_ Hlen] & _ & Hv); [|done].
  apply digits_value_bound in Hv as [_ Hhi]; [|done].
  eapply Z.lt_le_trans; [exact Hhi|].
  rewrite Z.mul_1_l. apply Z.pow_le_mono_r; [lia|exact Hlen].
Qed.

(** X1. [parse_bencher] on lines whose numbers [int] reads (each has a
    digit, and 4300 digits at most): the dict holds, for every name, the
    integer of its last matching line, and nothing else; the integers are
    not negative and have 4300 digits at most. *)
Theorem parse_bencher_digits (lines : list str) :
  (forall line name number,
     line ∈ lines -> line_entry line = Some (name, number) ->
     int_reads number) ->
  exists m,
    parse_bencher lines = Ok m
    /\ (forall name, m !! name = last_entry name lines)
    /\ (forall name v,
          m !! name = Some v -> 0 <= v < 10 ^ int_max_str_digits)
    /\ ((forall line, line ∈ lines -> line_entry line = None) -> m = ∅).
Proof.
  intros Hd. destruct (parse_loop_total lines ∅ Hd) as [m Hm].
  exists m. split; [done|].
  assert (forall name, m !! name = last_entry name lines) as Hlook.
  { intros name. rewrite (parse_loop_ok _ _ _ Hm name).
    by destruct (last_entry name lines). }
  split; [done|]. split.
  - intros name v. rewrite Hlook. intros Hv.
    split; [by eapply last_entry_nonneg|by eapply last_entry_bound].
  - intros Hno. apply map_eq. intros name.
    by rewrite Hlook, lookup_empty, last_entry_None.
Qed.

(** ** Rounding to binary64 *)

Lemma rne_cases (n d : Z) :
  0 < d ->
  exists q r, n = d * q + r /\ 0 <= r < d
    /\ rne n d = (if 2 * r <? d then q
                  else if d <? 2 * r then q + 1
                  else if Z.even q then q else q + 1).
Proof.
  intros Hd. exists (n / d), (n mod d).
  split; [apply Z.div_mod; lia|].
  split; [apply Z.mod_pos_bound; lia|]. done.
Qed.

Lemma rne_error (n d : Z) : 0 < d -> Z.abs (2 * n - 2 * rne n d * d) <= d.
Proof.
  intros Hd. destruct (rne_cases n d Hd) as (q & r & -> & Hr & ->).
  destruct (Z.ltb_spec (2 * r) d); [nia|].
  destruct (Z.ltb_spec d (2 * r)); [nia|].
  destruct (Z.even q); nia.
Qed.

Lemma rne_ge (n d t : Z) : 0 < d -> t * d <= n -> t <= rne n d.
Proof.
  intros Hd Ht. destruct (rne_cases n d Hd) as (q & r & -> & Hr & ->).
  assert (t <= q) by nia.
  destruct (Z.ltb_spec (2 * r) d); [lia|].
  destruct (Z.ltb_spec d (2 * r)); [lia|].
  destruct (Z.even q); lia.
Qed.

Lemma rne_le (n d t : Z) : 0 < d -> n <= t * d -> rne n d <= t.
Proof.
  intros Hd Ht. destruct (rne_cases n d Hd) as (q & r & -> & Hr & ->).
  assert (q < t \/ (q = t /\ r = 0)) as [Hq|[-> ->]] by nia.
  - destruct (Z.ltb_spec (2 * r) d); [lia|].
    destruct (Z.ltb_spec d (2 * r)); [lia|].
    destruct (Z.even q); lia.
  - destruct (Z.ltb_spec (2 * 0) d); lia.
Qed.

(** Above an even integer: the tie goes down. *)
Lemma rne_gt_even (n d t : Z) :
  0 < d -> Z.even t = true -> t < rne n d <-> (2 * t + 1) * d < 2 * n.
Proof.
  intros Hd Ht. destruct (rne_cases n d Hd) as (q & r & -> & Hr & ->).
  destruct (Z.ltb_spec (2 * r) d) as [H1|H1].
  - split; intros; nia.
  - destruct (Z.ltb_spec d (2 * r)) as [H2|H2].
    + split; intros; nia.
    + assert (d = 2 * r) as -> by lia.
      destruct (Z.even q) eqn:Hq.
      * split; intros; nia.
      * assert (q <> t) by congruence. split; intros; nia.
Qed.

(** Give a term a name and forget what it is. *)
Ltac name_term x t :=
  let H := fresh in remember t as x eqn:H; clear H.

Lemma P2_pos (e : Z) : 0 < exp2 e.
Proof. unfold exp2. apply Z.pow_pos_nonneg; lia. Qed.

(** 2^e / 2^e' = 2^(e - e'), with the powers of negative exponents moved
    to the other side. *)
Lemma pow2_shift (e e' : Z) :
  e' <= e -> exp2 e * exp2 (- e') = 2 ^ (e - e') * (exp2 e' * exp2 (- e)).
Proof.
  intros Hle. unfold exp2. rewrite <- !Z.pow_add_r by lia. f_equal. lia.
Qed.

Lemma ratio_ge_mono (n d e e' : Z) :
  0 < n -> 0 < d -> e' <= e -> ratio_ge n d e -> ratio_ge n d e'.
Proof.
  intros Hn Hd Hle Hge.
  pose proof (pow2_shift e e' Hle) as Hs.
  pose proof (P2_pos e) as ?. pose proof (P2_pos e') as ?.
  pose proof (P2_pos (- e)) as ?. pose proof (P2_pos (- e')) as ?.
  assert (1 <= 2 ^ (e - e')) as Hp
    by (pose proof (Z.pow_pos_nonneg 2 (e - e')); lia).
  name_term a (exp2 e). name_term a' (exp2 e').
  name_term b (exp2 (- e)). name_term b' (exp2 (- e')).
  name_term p (2 ^ (e - e')).
  apply (Z.mul_le_mono_pos_r _ _ b); [done|].
  assert (d * a' * b <= d * a' * b * p) by nia.
  assert (d * a * b' <= n * b * b') by nia.
  nia.
Qed.

Lemma ratio_lt_mono (n d e e' : Z) :
  0 < n -> 0 < d -> e <= e' -> ratio_lt n d e -> ratio_lt n d e'.
Proof.
  intros Hn Hd Hle Hlt.
  pose proof (pow2_shift e' e Hle) as Hs.
  pose proof (P2_pos e) as ?. pose proof (P2_pos e') as ?.
  pose proof (P2_pos (- e)) as ?. pose proof (P2_pos (- e')) as ?.
  assert (1 <= 2 ^ (e' - e)) as Hp
    by (pose proof (Z.pow_pos_nonneg 2 (e' - e)); lia).
  name_term a (exp2 e). name_term a' (exp2 e').
  name_term b (exp2 (- e)). name_term b' (exp2 (- e')).
  name_term p (2 ^ (e' - e)).
  apply (Z.mul_lt_mono_pos_r b); [done|].
  assert (n * b * b' < d * a * b') by nia.
  assert (d * a * b' <= d * a * b' * p) by nia.
  nia.
Qed.

Lemma ratio_log2_spec (n d : Z) :
  0 < n -> 0 < d ->
  ratio_ge n d (ratio_log2 n d) /\ ratio_lt n d (ratio_log2 n d + 1).
Proof.
  intros Hn Hd. unfold ratio_log2.
  destruct (Z.log2_spec n Hn) as [Hn1 Hn2].
  destruct (Z.log2_spec d Hd) as [Hd1 Hd2].
  pose proof (Z.log2_nonneg n). pose proof (Z.log2_nonneg d).
  name_term ln (Z.log2 n). name_term ld (Z.log2 d).
  assert (forall a b e, 0 <= a -> 0 <= b -> a = b + e ->
                        2 ^ a * exp2 (- e) = 2 ^ b * exp2 e) as Hratio.
  { intros a b e Ha Hb ->. unfold exp2.
    rewrite <- !Z.pow_add_r by lia. f_equal. lia. }
  destruct (Z.ltb_spec (n * exp2 (- (ln - ld))) (d * exp2 (ln - ld))) as [Hlt|Hge].
  - split; [|by replace (ln - ld - 1 + 1) with (ln - ld) by lia].
    pose proof (Hratio ln (Z.succ ld) (ln - ld - 1)) as Hr.
    pose proof (P2_pos (ln - ld - 1)). pose proof (P2_pos (- (ln - ld - 1))).
    nia.
  - split; [done|].
    pose proof (Hratio (Z.succ ln) ld (ln - ld + 1)) as Hr.
    pose proof (P2_pos (ln - ld + 1)). pose proof (P2_pos (- (ln - ld + 1))).
    nia.
Qed.

(** The result of rounding, before and after the carry into the next
    binade. *)
Lemma round_binary64_cases (n d m k : Z) :
  0 < n -> round_binary64 n d = Some (m, k) ->
  let k0 := Z.max (ratio_log2 n d) (-1022) - 52 in
  let m0 := rne (n * exp2 (- k0)) (d * exp2 k0) in
  k <= 971
  /\ ((m0 <> 2 ^ 53 /\ m = m0 /\ k = k0)
      \/ (m0 = 2 ^ 53 /\ m = 2 ^ 52 /\ k = k0 + 1)).
Proof.
  intros Hn. unfold round_binary64.
  destruct (Z.eqb_spec n 0) as [|_]; [lia|]. cbv zeta.
  set (k0 := Z.max (ratio_log2 n d) (-1022) - 52).
  set (m0 := rne (n * exp2 (- k0)) (d * exp2 k0)).
  destruct (Z.eqb_spec m0 (2 ^ 53)) as [Heq|Hne].
  - destruct (Z.ltb_spec 971 (k0 + 1)); [done|]. intros [= <- <-]. auto.
  - destruct (Z.ltb_spec 971 k0); [done|]. intros [= <- <-]. auto.
Qed.

(** In a normal binade the significand has its leading bit. *)
Lemma round_lower (n d e : Z) :
  0 < n -> 0 < d -> ratio_ge n d e ->
  2 ^ 52 <= rne (n * exp2 (- (e - 52))) (d * exp2 (e - 52)).
Proof.
  intros Hn Hd Hge.
  pose proof (P2_pos e). pose proof (P2_pos (- e)).
  pose proof (P2_pos (e - 52)). pose proof (P2_pos (- (e - 52))).
  apply rne_ge; [nia|].
  pose proof (pow2_shift e (e - 52)) as Hs.
  replace (e - (e - 52)) with 52 in Hs by lia.
  name_term a (exp2 e). name_term b (exp2 (- e)).
  name_term a' (exp2 (e - 52)). name_term b' (exp2 (- (e - 52))).
  apply (Z.mul_le_mono_pos_r _ _ b); [done|].
  assert (d * a * b' <= n * b * b') by nia. nia.
Qed.

(** The significand never exceeds 2^53. *)
Lemma round_upper (n d e k0 : Z) :
  0 < n -> 0 < d -> ratio_lt n d (e + 1) -> e - 52 <= k0 ->
  rne (n * exp2 (- k0)) (d * exp2 k0) <= 2 ^ 53.
Proof.
  intros Hn Hd Hlt Hk.
  apply (ratio_lt_mono n d (e + 1) (k0 + 53)) in Hlt; [|done|done|lia].
  pose proof (P2_pos k0). pose proof (P2_pos (- k0)).
  pose proof (P2_pos (k0 + 53)). pose proof (P2_pos (- (k0 + 53))).
  apply rne_le; [nia|].
  pose proof (pow2_shift (k0 + 53) k0) as Hs.
  replace (k0 + 53 - k0) with 53 in Hs by lia.
  name_term a (exp2 k0). name_term b (exp2 (- k0)).
  name_term a' (exp2 (k0 + 53)). name_term b' (exp2 (- (k0 + 53))).
  apply (Z.mul_le_mono_pos_r _ _ b'); [done|].
  assert (n * b' * b < d * a' * b) by nia. nia.
Qed.

(** The quotient rounds above a binary64 number [M * 2^K] of even
    significand exactly when it is above the midpoint between that number
    and the next one. *)
Lemma round_above (n d M K m k : Z) :
  0 < n -> 0 < d -> 2 ^ 52 <= M < 2 ^ 53 -> Z.even M = true ->
  -1073 <= K ->
  round_binary64 n d = Some (m, k) ->
  float_ltb (Float false M K) (Float false m k) = true
  <-> (2 * M + 1) * (d * exp2 K) < 2 * (n * exp2 (- K)).
Proof.
  intros Hn Hd HM Hev HK Hround.
  destruct (round_binary64_cases n d m k Hn Hround) as [_ Hcases].
  destruct (ratio_log2_spec n d Hn Hd) as [Hge Hlt].
  name_term e (ratio_log2 n d).
  remember (Z.max e (-1022) - 52) as k0 eqn:Hk0def.
  remember (rne (n * exp2 (- k0)) (d * exp2 k0)) as m0 eqn:Hm0def.
  assert (m0 <= 2 ^ 53) as Hup
    by (rewrite Hm0def; apply (round_upper n d e); [done..|lia]).
  unfold float_ltb, scaled. cbn [fneg fmant fexp].
  rewrite Z.ltb_lt, !Z.mul_1_l.
  pose proof (P2_pos K) as HPK. pose proof (P2_pos (- K)) as HNK.
  destruct (Z.lt_trichotomy e (K + 52)) as [He|[He|He]].
  - (* below the binade of the threshold *)
    assert (k0 < K) as Hk0 by lia.
    apply (ratio_lt_mono n d (e + 1) (K + 52)) in Hlt; [|done|done|lia].
    pose proof (pow2_shift (K + 52) K) as Hs.
    replace (K + 52 - K) with 52 in Hs by lia.
    pose proof (P2_pos (K + 52)). pose proof (P2_pos (- (K + 52))).
    assert (~ (2 * M + 1) * (d * exp2 K) < 2 * (n * exp2 (- K))) as Hno.
    { name_term a (exp2 K). name_term b (exp2 (- K)).
      name_term a' (exp2 (K + 52)). name_term b' (exp2 (- (K + 52))).
      intros Habs.
      assert (n * b' * b < d * a' * b) by nia.
      assert ((2 * M + 1) * (d * a) * b' < 2 * (n * b) * b') by nia.
      nia. }
    split; [|done]. intros Hlt'. exfalso.
    destruct Hcases as [(_ & -> & ->)|(_ & -> & ->)].
    + rewrite Z.min_r in Hlt' by lia.
      replace (k0 - k0) with 0 in Hlt' by lia.
      assert (2 <= 2 ^ (K - k0))
        by (change 2 with (2 ^ 1) at 1; apply Z.pow_le_mono_r; lia).
      nia.
    + rewrite Z.min_r in Hlt' by lia.
      replace (k0 + 1 - (k0 + 1)) with 0 in Hlt' by lia.
      assert (1 <= 2 ^ (K - (k0 + 1)))
        by (pose proof (Z.pow_pos_nonneg 2 (K - (k0 + 1))); lia).
      nia.
  - (* in the binade of the threshold *)
    assert (k0 = K) as Hk0 by lia.
    assert (M < m0 <-> (2 * M + 1) * (d * exp2 K) < 2 * (n * exp2 (- K))) as <-.
    { rewrite Hm0def, Hk0. apply rne_gt_even; [nia|done]. }
    destruct Hcases as [(_ & -> & ->)|(Hm0 & -> & ->)].
    + rewrite Hk0, Z.min_id, Z.sub_diag. simpl. lia.
    + rewrite Hk0, Z.min_l by lia.
      replace (K - K) with 0 by lia. replace (K + 1 - K) with 1 by lia.
      rewrite Hm0. simpl. lia.
  - (* above the binade of the threshold *)
    assert (k0 = e - 52) as Hk0 by lia.
    assert (2 ^ 52 <= m0) as Hlow
      by (rewrite Hm0def, Hk0; by apply round_lower).
    apply (ratio_ge_mono n d e (K + 53)) in Hge; [|done|done|lia].
    pose proof (pow2_shift (K + 53) K) as Hs.
    replace (K + 53 - K) with 53 in Hs by lia.
    pose proof (P2_pos (K + 53)). pose proof (P2_pos (- (K + 53))).
    assert ((2 * M + 1) * (d * exp2 K) < 2 * (n * exp2 (- K))) as Hyes.
    { name_term a (exp2 K). name_term b (exp2 (- K)).
      name_term a' (exp2 (K + 53)). name_term b' (exp2 (- (K + 53))).
      apply (Z.mul_lt_mono_pos_r b'); [done|].
      assert (d * a' * b <= n * b' * b) by nia.
      assert ((2 * M + 1) * (d * a * b') < 2 * 2 ^ 53 * (d * a * b')) by nia.
      nia. }
    split; [done|]. intros _.
    assert (2 * 2 ^ 52 <= m * 2 ^ (k - K) /\ K <= k) as [Hbig Hle].
    { destruct Hcases as [(_ & -> & ->)|(_ & -> & ->)].
      - assert (2 <= 2 ^ (k0 - K))
          by (change 2 with (2 ^ 1) at 1; apply Z.pow_le_mono_r; lia).
        split; [nia|lia].
      - assert (2 <= 2 ^ (k0 + 1 - K))
          by (change 2 with (2 ^ 1) at 1; apply Z.pow_le_mono_r; lia).
        split; [nia|lia]. }
    rewrite Z.min_l by lia. replace (K - K) with 0 by lia.
    simpl (2 ^ 0). lia.
Qed.

Lemma round_binary64_nonneg (n d m k : Z) :
  0 < n -> 0 < d -> round_binary64 n d = Some (m, k) -> 0 <= m.
Proof.
  intros Hn Hd Hround.
  destruct (round_binary64_cases n d m k Hn Hround)
    as [_ [(_ & -> & _)|(_ & -> & _)]]; [|lia].
  pose proof (P2_pos (Z.max (ratio_log2 n d) (-1022) - 52)).
  pose proof (P2_pos (- (Z.max (ratio_log2 n d) (-1022) - 52))).
  apply rne_ge; nia.
Qed.

(** Quotients below 2^1023 are in range. *)
Lemma round_binary64_finite (n d : Z) :
  0 <= n -> 0 < d -> n < 2 ^ 1023 * d ->
  exists m k, round_binary64 n d = Some (m, k).
Proof.
  intros Hn Hd Hlt. unfold round_binary64.
  destruct (Z.eqb_spec n 0) as [|Hn0]; [eauto|]. cbv zeta.
  destruct (ratio_log2_spec n d) as [Hge _]; [lia|done|].
  name_term e (ratio_log2 n d).
  assert (e <= 1022) as He.
  { destruct (Z.le_gt_cases e 1022) as [|Hbig]; [done|].
    apply (ratio_ge_mono n d e 1023) in Hge; [|lia|done|lia].
    change (exp2 1023) with (2 ^ 1023) in Hge.
    rewrite (eq_refl : exp2 (Z.opp 1023) = 1) in Hge. lia. }
  destruct (_ =? 2 ^ 53).
  - destruct (Z.ltb_spec 971 (Z.max e (-1022) - 52 + 1)); [lia|eauto].
  - destruct (Z.ltb_spec 971 (Z.max e (-1022) - 52)); [lia|eauto].
Qed.

(** The rounded quotient is within half a unit in the last place. *)
Lemma round_binary64_error (n d m k : Z) :
  0 < n -> 0 < d -> round_binary64 n d = Some (m, k) ->
  Z.abs (2 * (n * exp2 (- k)) - 2 * m * (d * exp2 k)) <= d * exp2 k.
Proof.
  intros Hn Hd Hround.
  destruct (round_binary64_cases n d m k Hn Hround) as [_ Hcases].
  cbv zeta in Hcases.
  name_term k0 (Z.max (ratio_log2 n d) (-1022) - 52).
  pose proof (P2_pos k0). pose proof (P2_pos (- k0)).
  pose proof (rne_error (n * exp2 (- k0)) (d * exp2 k0)) as Herr.
  destruct Hcases as [(_ & -> & ->)|(Hm0 & -> & ->)]; [apply Herr; nia|].
  rewrite Hm0 in Herr.
  pose proof (pow2_shift (k0 + 1) k0) as Hs.
  replace (k0 + 1 - k0) with 1 in Hs by lia. change (2 ^ 1) with 2 in Hs.
  pose proof (P2_pos (k0 + 1)). pose proof (P2_pos (- (k0 + 1))).
  name_term a (exp2 k0). name_term b (exp2 (- k0)).
  name_term a' (exp2 (k0 + 1)). name_term b' (exp2 (- (k0 + 1))).
  assert (Z.abs (2 * (n * b) - 2 * 2 ^ 53 * (d * a)) <= d * a) as Herr'
    by (apply Herr; nia).
  clear Herr Hround Hm0.
  apply (Z.mul_le_mono_pos_r _ _ b); [done|].
  rewrite <- (Z.abs_eq b) at 1 by lia. rewrite <- Z.abs_mul.
  assert (Z.abs (2 * (n * b) - 2 * 2 ^ 53 * (d * a)) * b' <= d * a * b')
    as Hscaled by nia.
  rewrite <- (Z.abs_eq b') in Hscaled at 1 by lia.
  rewrite <- Z.abs_mul in Hscaled.
  replace ((2 * (n * b') - 2 * 2 ^ 52 * (d * a')) * b)
    with ((2 * (n * b) - 2 * 2 ^ 53 * (d * a)) * b') by nia.
  nia.
Qed.

(** ** The delta and its classification *)

Lemma relative_delta_pos (base_ns curr_ns : Z) :
  0 < base_ns ->
  relative_delta base_ns curr_ns
  = match round_binary64 (Z.abs (curr_ns - base_ns)) base_ns with
    | Some (m, k) => Ok (Float (curr_ns <? base_ns) m k)
    | None => Raise OverflowError
    end.
Proof.
  intros Hb. unfold relative_delta, int_truediv.
  destruct (Z.ltb_spec 0 base_ns); [|lia].
  destruct (Z.eqb_spec base_ns 0); [lia|].
  rewrite (Z.abs_eq base_ns) by lia.
  destruct (Z.ltb_spec base_ns 0); [lia|]. rewrite xorb_false_r.
  destruct (round_binary64 _ _) as [[m k]|]; [|done].
  do 2 f_equal. destruct (Z.ltb_spec (curr_ns - base_ns) 0),
    (Z.ltb_spec curr_ns base_ns); lia || done.
Qed.

Lemma relative_delta_nonpos (base_ns curr_ns : Z) :
  base_ns <= 0 -> relative_delta base_ns curr_ns = Ok float_zero.
Proof.
  intros Hb. unfold relative_delta. by destruct (Z.ltb_spec 0 base_ns); [lia|].
Qed.

(** A delta is finite when the current duration is below 2^1023 times
    the baseline. *)
Lemma relative_delta_finite (base_ns curr_ns : Z) :
  0 <= curr_ns -> curr_ns < 2 ^ 1023 * base_ns ->
  exists delta, relative_delta base_ns curr_ns = Ok delta.
Proof.
  intros Hc Hlt. assert (0 < base_ns) as Hb by lia.
  rewrite relative_delta_pos by done.
  destruct (round_binary64_finite (Z.abs (curr_ns - base_ns)) base_ns)
    as (m & k & ->); [lia|done|lia|eauto].
Qed.

(** The comparison with the threshold, on the integers: the delta is a
    regression exactly when the quotient is above the midpoint between
    the binary64 number 0.10 and the next one. *)
Lemma is_regression_iff (base_ns curr_ns : Z) (delta : float) :
  0 < base_ns -> relative_delta base_ns curr_ns = Ok delta ->
  is_regression delta = true
  <-> 14411518807585589 * base_ns < (curr_ns - base_ns) * 2 ^ 57.
Proof.
  intros Hb. rewrite relative_delta_pos by done.
  change (2 ^ 57) with 144115188075855872.
  destruct (round_binary64 _ _) as [[m k]|] eqn:Hround; [|done].
  intros [= <-].
  destruct (Z.lt_trichotomy curr_ns base_ns) as [Hlt|[->|Hgt]].
  - destruct (Z.ltb_spec curr_ns base_ns); [|lia].
    assert (0 < Z.abs (curr_ns - base_ns)) as Hn by lia.
    pose proof (round_binary64_nonneg _ _ _ _ Hn Hb Hround) as Hm.
    split; [|lia]. unfold is_regression, float_ltb, scaled.
    cbn [fneg fmant fexp REGRESSION_THRESHOLD float_0_10].
    rewrite Z.ltb_lt. intros Habs. exfalso.
    pose proof (Z.pow_pos_nonneg 2 (k - Z.min (-56) k)).
    pose proof (Z.pow_pos_nonneg 2 (-56 - Z.min (-56) k)).
    nia.
  - rewrite Z.sub_diag in *. injection Hround as <- <-.
    rewrite Z.ltb_irrefl.
    assert (is_regression (Float false 0 (-1074)) = false) as ->
      by reflexivity.
    split; [done|lia].
  - destruct (Z.ltb_spec curr_ns base_ns); [lia|].
    rewrite Z.abs_eq in Hround by lia.
    unfold is_regression, REGRESSION_THRESHOLD, float_0_10.
    rewrite (round_above (curr_ns - base_ns) base_ns 7205759403792794 (-56)
               m k); [|lia|done|done|done|done|done].
    rewrite (eq_refl : exp2 (-56) = 1),
      (eq_refl : exp2 (Z.opp (-56)) = 72057594037927936).
    lia.
Qed.

(** ** Floats as rational numbers *)

Lemma pow2_Qpower (e : Z) : (pow2 e == 2 ^ e)%Q.
Proof.
  unfold pow2, exp2. destruct e as [|p|p].
  - reflexivity.
  - rewrite Z.max_r, Z.max_l by lia. change (2 ^ 0) with 1.
    change (Z.to_pos 1) with 1%positive.
    change 2%Q with (inject_Z 2). rewrite <- Zpower_Qpower by lia.
    reflexivity.
  - rewrite Z.max_l, Z.max_r by lia. change (2 ^ 0) with 1.
    change (- Z.neg p) with (Z.pos p).
    change (Z.neg p) with (- Z.pos p). rewrite Qpower_opp.
    change 2%Q with (inject_Z 2). rewrite <- Zpower_Qpower by lia.
    pose proof (Z.pow_pos_nonneg 2 (Z.pos p)) as Hpos.
    destruct (2 ^ Z.pos p) as [|q|q] eqn:Hq; try lia.
    reflexivity.
Qed.

Lemma Zpos_to_pos_P2 (e : Z) : Z.pos (Z.to_pos (exp2 e)) = exp2 e.
Proof. apply Z2Pos.id, P2_pos. Qed.

Lemma float_ltb_Q (x y : float) :
  float_ltb x y = true <-> (float_Q x < float_Q y)%Q.
Proof.
  unfold float_ltb, float_Q, scaled, pow2, Qlt. rewrite Z.ltb_lt.
  destruct x as [sx mx ex], y as [sy my ey]. cbn [fneg fmant fexp].
  cbn [Qmult inject_Z Qnum Qden]. rewrite !Pos.mul_1_l, !Zpos_to_pos_P2.
  name_term vx ((if sx then -1 else 1) * mx).
  name_term vy ((if sy then -1 else 1) * my).
  set (kk := Z.min ex ey).
  set (c := kk + Z.max 0 (- ex) + Z.max 0 (- ey)).
  assert (0 <= c) by lia.
  assert (exp2 ex * exp2 (- ey) = 2 ^ (ex - kk) * 2 ^ c) as Hx.
  { unfold exp2. rewrite <- !Z.pow_add_r by lia. f_equal. lia. }
  assert (exp2 ey * exp2 (- ex) = 2 ^ (ey - kk) * 2 ^ c) as Hy.
  { unfold exp2. rewrite <- !Z.pow_add_r by lia. f_equal. lia. }
  rewrite <- !(Z.mul_assoc vx), <- !(Z.mul_assoc vy), Hx, Hy, !Z.mul_assoc.
  pose proof (Z.pow_pos_nonneg 2 c).
  rewrite <- Z.mul_lt_mono_pos_r by lia. done.
Qed.

(** The literals are the binary64 numbers nearest to 1/10 and 1/20. *)
Lemma float_0_10_nearest :
  round_binary64 1 10 = Some (fmant float_0_10, fexp float_0_10).
Proof. reflexivity. Qed.

Lemma float_0_05_nearest :
  round_binary64 1 20 = Some (fmant float_0_05, fexp float_0_05).
Proof. reflexivity. Qed.

(** The delta is within half a unit in the last place of the quotient. *)
Lemma relative_delta_error (base_ns curr_ns : Z) (delta : float) :
  0 < base_ns -> relative_delta base_ns curr_ns = Ok delta ->
  (Qabs (float_Q delta - ((curr_ns - base_ns)%Z # Z.to_pos base_ns))
   <= (1 # 2) * pow2 (fexp delta))%Q.
Proof.
  intros Hb. rewrite relative_delta_pos by done.
  destruct (round_binary64 _ _) as [[m k]|] eqn:Hround; [|done].
  intros [= <-]. cbn [fexp].
  assert (0 <= m /\ Z.abs (2 * (Z.abs (curr_ns - base_ns) * exp2 (- k))
                           - 2 * m * (base_ns * exp2 k)) <= base_ns * exp2 k)
    as [Hm Herr].
  { destruct (Z.eq_dec curr_ns base_ns) as [->|Hne].
    - rewrite Z.sub_diag in *. injection Hround as <- <-.
      change (Z.abs 0) with 0. rewrite (eq_refl : exp2 (-1074) = 1). lia.
    - split; [eapply round_binary64_nonneg; [|done..]; lia|].
      apply round_binary64_error; [lia|done..]. }
  pose proof (P2_pos k). pose proof (P2_pos (- k)).
  apply Qabs_Qle_condition.
  unfold float_Q, pow2, Qle, Qminus, Qplus, Qopp, Qmult. cbn [fneg fmant fexp].
  cbn [inject_Z Qnum Qden].
  rewrite ?Pos.mul_1_l, ?Pos2Z.inj_mul, ?Zpos_to_pos_P2, ?Z2Pos.id by lia.
  name_term a (exp2 k). name_term b (exp2 (- k)).
  destruct (Z.ltb_spec curr_ns base_ns); split; nia.
Qed.

(** ** The range of the delta *)

(** Above an odd integer: the tie goes up. *)
Lemma rne_gt_odd (n d t : Z) :
  0 < d -> Z.even t = false -> t < rne n d <-> (2 * t + 1) * d <= 2 * n.
Proof.
  intros Hd Ht. destruct (rne_cases n d Hd) as (q & r & -> & Hr & ->).
  destruct (Z.ltb_spec (2 * r) d) as [H1|H1].
  - split; intros; nia.
  - destruct (Z.ltb_spec d (2 * r)) as [H2|H2].
    + split; intros; nia.
    + assert (d = 2 * r) as -> by lia.
      destruct (Z.even q) eqn:Hq.
      * assert (q <> t) by congruence. split; intros; nia.
      * split; intros; nia.
Qed.

(** The quotient is out of range from the midpoint between the largest
    binary64 number and 2^1024 on. *)
Lemma round_binary64_None (n d : Z) :
  0 < n -> 0 < d ->
  round_binary64 n d = None <-> (2 ^ 54 - 1) * 2 ^ 970 * d <= n.
Proof.
  intros Hn Hd.
  destruct (ratio_log2_spec n d Hn Hd) as [Hge Hlt].
  unfold round_binary64. destruct (Z.eqb_spec n 0) as [|_]; [lia|]. cbv zeta.
  name_term e (ratio_log2 n d).
  change (2 ^ 54 - 1) with 18014398509481983.
  destruct (Z.lt_trichotomy e 1023) as [He|[->|He]].
  - apply (ratio_lt_mono n d (e + 1) 1023) in Hlt; [|done|done|lia].
    rewrite (eq_refl : exp2 1023 = 2 ^ 970 * 9007199254740992),
      (eq_refl : exp2 (Z.opp 1023) = 1) in Hlt.
    assert (0 < 2 ^ 970) by (apply Z.pow_pos_nonneg; lia).
    split; [|nia]. destruct (_ =? 2 ^ 53).
    + by destruct (Z.ltb_spec 971 (Z.max e (-1022) - 52 + 1)); [lia|].
    + by destruct (Z.ltb_spec 971 (Z.max e (-1022) - 52)); [lia|].
  - replace (Z.max 1023 (-1022) - 52) with 971 by lia.
    rewrite (eq_refl : exp2 (Z.opp 971) = 1),
      (eq_refl : exp2 971 = 2 ^ 970 * 2), Z.mul_1_r.
    assert (0 < 2 ^ 970) by (apply Z.pow_pos_nonneg; lia).
    assert (rne n (d * (2 ^ 970 * 2)) <= 2 ^ 53) as Hup.
    { assert (1023 - 52 <= 971) as Hk by lia.
      pose proof (round_upper n d 1023 971 Hn Hd Hlt Hk) as Hup.
      by rewrite (eq_refl : exp2 (Z.opp 971) = 1),
        (eq_refl : exp2 971 = 2 ^ 970 * 2), Z.mul_1_r in Hup. }
    pose proof (rne_gt_odd n (d * (2 ^ 970 * 2)) (2 ^ 53 - 1)) as Hodd.
    change (2 ^ 53 - 1) with 9007199254740991 in Hodd.
    change (2 ^ 53) with 9007199254740992 in *.
    name_term p (2 ^ 970).
    destruct (Z.eqb_spec (rne n (d * (p * 2))) 9007199254740992) as [Heq|Hneq].
    + split; [intros _|done]. rewrite Heq in Hodd.
      assert ((2 * 9007199254740991 + 1) * (d * (p * 2)) <= 2 * n)
        by (apply Hodd; [nia|done|lia]).
      nia.
    + split; [done|]. intros Hbig. exfalso.
      assert (9007199254740991 < rne n (d * (p * 2)))
        by (apply Hodd; [nia|done|nia]).
      lia.
  - apply (ratio_ge_mono n d e 1024) in Hge; [|done|done|lia].
    rewrite (eq_refl : exp2 1024 = 2 ^ 970 * 18014398509481984),
      (eq_refl : exp2 (Z.opp 1024) = 1) in Hge.
    assert (0 < 2 ^ 970) by (apply Z.pow_pos_nonneg; lia).
    split; [intros _; nia|intros _].
    destruct (_ =? 2 ^ 53).
    + by destruct (Z.ltb_spec 971 (Z.max e (-1022) - 52 + 1)); [|lia].
    + by destruct (Z.ltb_spec 971 (Z.max e (-1022) - 52)); [|lia].
Qed.

Lemma relative_delta_overflow (base_ns curr_ns : Z) :
  relative_delta base_ns curr_ns = Raise OverflowError
  <-> 0 < base_ns
      /\ (2 ^ 1024 - 2 ^ 970) * base_ns <= Z.abs (curr_ns - base_ns).
Proof.
  destruct (Z.le_gt_cases base_ns 0) as [Hb|Hb].
  { rewrite relative_delta_nonpos by done. split; [done|lia]. }
  rewrite relative_delta_pos by lia.
  replace (2 ^ 1024 - 2 ^ 970) with ((2 ^ 54 - 1) * 2 ^ 970)
    by (rewrite (eq_refl : 2 ^ 1024 = 2 ^ 970 * 2 ^ 54); ring).
  destruct (Z.eq_dec curr_ns base_ns) as [->|Hne].
  - rewrite Z.sub_diag. cbn [Z.abs]. change (round_binary64 0 base_ns)
      with (Some (0, -1074)).
    assert (0 < 2 ^ 970) by (apply Z.pow_pos_nonneg; lia).
    change (2 ^ 54 - 1) with 18014398509481983. split; [done|nia].
  - pose proof (round_binary64_None (Z.abs (curr_ns - base_ns)) base_ns)
      as Hnone.
    destruct (round_binary64 _ _) as [[m k]|].
    + split; [done|]. intros [_ Hbig].
      assert (Some (m, k) = None) as Habs; [|done].
      apply Hnone; [lia|done..].
    + split; [intros _|done]. split; [done|]. apply Hnone; [lia|done..].
Qed.

(** ** The nearest binary64 number *)





(** ** Distances to a fraction *)








(** ** The rows of the report *)

Lemma filter_all {A : Type} (P : A -> Prop) `{forall x, Decision (P x)}
    (l : list A) :
  Forall P l -> filter P l = l.
Proof.
  induction 1 as [|x l Hx _ IH]; [done|].
  by rewrite filter_cons_True, IH.
Qed.

Lemma filter_none {A : Type} (P : A -> Prop) `{forall x, Decision (P x)}
    (l : list A) :
  Forall (fun x => ~ P x) l -> filter P l = [].
Proof.
  induction 1 as [|x l Hx _ IH]; [done|].
  by rewrite filter_cons_False, IH.
Qed.

Lemma new_rows_names (baseline current : gmap str Z) :
  omap new_row_name (new_rows baseline current) = new_names baseline current
  /\ omap row_name (new_rows baseline current) = new_names baseline current
  /\ omap baseline_row_name (new_rows baseline current) = [].
Proof.
  unfold new_rows. induction (new_names baseline current) as [|n l IH];
    [done|].
  destruct IH as (IH1 & IH2 & IH3). cbn.
  repeat split; [f_equal; exact IH1|f_equal; exact IH2|exact IH3].
Qed.

Lemma new_rows_are_new (baseline current : gmap str Z) :
  Forall (fun l => is_new_row l = true) (new_rows baseline current).
Proof. unfold new_rows. apply Forall_fmap, Forall_forall. done. Qed.

Lemma summary_names (regs : list (str * float)) :
  omap row_name (summary regs) = []
  /\ omap baseline_row_name (summary regs) = []
  /\ omap new_row_name (summary regs) = []
  /\ Forall (fun l => is_new_row l = false) (summary regs).
Proof.
  destruct regs as [|r regs]; [by repeat split; repeat constructor|].
  unfold summary. generalize (length (r :: regs)). intros len.
  induction (r :: regs) as [|[n d] l (IH1 & IH2 & IH3 & IH4)].
  - by repeat split; repeat constructor.
  - cbn in *. repeat split; try done.
    inversion_clear IH4. by repeat constructor.
Qed.

(** The names of the rows of a completed comparison, by loop. *)
Lemma compare_finite_names (baseline current : gmap str Z) :
  baseline <> ∅ -> deltas_finite baseline current ->
  omap baseline_row_name (compare baseline current).1
  = (sorted_items baseline).*1
  /\ omap new_row_name (compare baseline current).1
     = new_names baseline current
  /\ omap row_name (compare baseline current).1
     = (sorted_items baseline).*1 ++ new_names baseline current.
Proof.
  intros Hne Hfin.
  destruct (compare_finite baseline current Hne Hfin)
    as (rows & regs & -> & Hrows & _).
  apply Forall2_row_spec_names in Hrows as (Hr1 & Hr2 & Hr3).
  destruct (new_rows_names baseline current) as (Hn1 & Hn2 & Hn3).
  destruct (summary_names regs) as (Hs1 & Hs2 & Hs3 & _).
  cbn [fst]. rewrite !omap_app, Hr1, Hr2, Hr3, Hn1, Hn2, Hn3, Hs1, Hs2, Hs3.
  cbn. by rewrite !app_nil_r.
Qed.

Lemma deltas_finiteb_true (baseline current : gmap str Z) :
  deltas_finiteb baseline current = true -> deltas_finite baseline current.
Proof.
  unfold deltas_finiteb. rewrite forallb_forall.
  intros Hall name b c Hb Hc.
  specialize (Hall (name, b)). cbn in Hall. rewrite Hc in Hall.
  destruct (relative_delta b c) as [delta|e]; [by exists delta|].
  discriminate Hall. by apply list_elem_of_In, elem_of_map_to_list.
Qed.

(** The row of a benchmark of both reports. *)
Lemma matched_row_in_report (baseline current : gmap str Z) (name : str)
    (base_ns curr_ns : Z) :
  baseline !! name = Some base_ns -> current !! name = Some curr_ns ->
  deltas_finite baseline current ->
  exists delta,
    relative_delta base_ns curr_ns = Ok delta
    /\ MatchedRow name base_ns curr_ns delta (marker_of delta)
       ∈ (compare baseline current).1.
Proof.
  intros Hb Hc Hfin.
  assert (baseline <> ∅) as Hne by (intros ->; by rewrite lookup_empty in Hb).
  destruct (compare_finite baseline current Hne Hfin)
    as (rows & regs & -> & Hrows & _).
  apply elem_of_sorted_items, list_elem_of_lookup_1 in Hb as [i Hi].
  destruct (Forall2_lookup_l _ _ _ _ _ Hrows Hi) as (row & Hrow & Hspec).
  unfold row_spec in Hspec. cbn in Hspec. rewrite Hc in Hspec.
  destruct Hspec as (delta & Hdelta & ->). exists delta. split; [done|].
  cbn [fst]. rewrite !elem_of_app. right. left.
  by eapply list_elem_of_lookup_2.
Qed.

(** The lines of the final listing are the regressions. *)
Lemma regressed_item_in_report (baseline current : gmap str Z) (name : str)
    (delta : float) :
  baseline <> ∅ -> deltas_finite baseline current ->
  RegressedItem name delta ∈ (compare baseline current).1
  <-> regressed baseline current name delta.
Proof.
  intros Hne Hfin.
  destruct (compare_finite baseline current Hne Hfin)
    as (rows & regs & -> & Hrows & Hregs).
  rewrite <- Hregs. cbn [fst]. rewrite !elem_of_app. split.
  - intros [Hin|[Hin|[Hin|[Hin|Hin]]]].
    + repeat (apply elem_of_cons in Hin as [?|Hin]; [done|]).
      by apply elem_of_nil in Hin.
    + apply list_elem_of_lookup_1 in Hin as [i Hi].
      destruct (Forall2_lookup_r _ _ _ _ _ Hrows Hi) as (item & _ & Hspec).
      unfold row_spec in Hspec.
      destruct (current !! item.1); [by destruct Hspec as (? & _ & ?)|done].
    + unfold new_rows in Hin.
      by apply list_elem_of_fmap in Hin as (? & ? & _).
    + apply elem_of_cons in Hin as [?|Hin]; [done|].
      by apply elem_of_nil in Hin.
    + destruct regs as [|r regs]; cbn [summary] in Hin.
      * apply elem_of_cons in Hin as [?|Hin]; [done|].
        by apply elem_of_nil in Hin.
      * apply elem_of_cons in Hin as [?|Hin]; [done|].
        by apply list_elem_of_fmap in Hin as ([n d] & [= -> ->] & ?).
  - intros Hin. do 4 right. destruct regs as [|r regs];
      [by apply elem_of_nil in Hin|].
    cbn [summary]. apply elem_of_cons. right.
    apply list_elem_of_fmap. by exists (name, delta).
Qed.

(** The run fails exactly when a benchmark of both reports is above the
    threshold. *)
Lemma exit_status_compare (baseline current : gmap str Z) :
  baseline <> ∅ -> deltas_finite baseline current ->
  (exit_status (compare baseline current).2 = 1
   <-> exists name delta, regressed baseline current name delta)
  /\ (exit_status (compare baseline current).2 = 0
      <-> ~ exists name delta, regressed baseline current name delta).
Proof.
  intros Hne Hfin.
  destruct (compare_finite baseline current Hne Hfin)
    as (rows & regs & -> & _ & Hregs).
  cbn [snd]. destruct regs as [|[n d] regs]; cbn.
  - assert (~ exists name delta, regressed baseline current name delta) as Hno.
    { intros (name & delta & Hin%Hregs). by apply elem_of_nil in Hin. }
    split; [split; [done|by intros ?%Hno]|done].
  - assert (exists name delta, regressed baseline current name delta) as Hsome.
    { exists n, d. apply Hregs. by left. }
    split; [done|]. split; [done|]. by intros Hno.
Qed.

(** C7, as amended. When every delta is in the binary64 range, the
    rows of the loop over the baseline are about the names of the
    baseline, each name once, in strictly ascending order; the rows of the
    new benchmarks are in strictly ascending order of names as well. *)
Theorem report_rows_sorted (baseline current : gmap str Z) :
  deltas_finite baseline current ->
  (forall name,
     name ∈ omap baseline_row_name (compare baseline current).1
     <-> name ∈ dom baseline)
  /\ NoDup (omap baseline_row_name (compare baseline current).1)
  /\ StronglySorted str_lt
       (omap baseline_row_name (compare baseline current).1)
  /\ StronglySorted str_lt (omap new_row_name (compare baseline current).1).
Proof.
  intros Hfin. destruct (decide (baseline = ∅)) as [->|Hne].
  - rewrite compare_empty. cbn.
    repeat split; try constructor; try by intros ?%elem_of_nil.
    rewrite dom_empty_L. by intros ?%not_elem_of_empty.
  - destruct (compare_finite_names baseline current Hne Hfin)
      as (-> & -> & _).
    split; [apply elem_of_sorted_items_names|].
    split; [apply sorted_items_names_NoDup|].
    split; [apply sorted_items_names_sorted|apply new_names_sorted].
Qed.

Lemma rows_in_place (baseline current : gmap str Z)
    (items : list (str * Z)) (rows : list line) :
  Forall2 (row_spec current) items rows ->
  Forall (fun item => baseline !! item.1 = Some item.2) items ->
  Forall (row_in_place baseline current) rows.
Proof.
  induction 1 as [|[name b] row items rows Hrow _ IH]; [constructor|].
  intros [Hb Hitems]%Forall_cons. constructor; [|by apply IH].
  unfold row_spec in Hrow. cbn in Hrow, Hb.
  destruct (current !! name) as [c|] eqn:Hc.
  - destruct Hrow as (d & _ & ->). by cbn.
  - subst row. by cbn.
Qed.

(** C8, as amended. With an empty baseline the report is the skip notice
    alone, whatever the current report holds. With a baseline that is not
    empty and deltas in the binary64 range, the rows of the report are
    about the names of the two reports, each name in one row: a matched
    row for a name of both, a missing row for a name of the baseline
    alone, a new row for a name of the current report alone. *)
Theorem report_names (baseline current : gmap str Z) :
  (baseline = ∅ ->
   compare baseline current = ([SkipNotice], SysExit 0)
   /\ omap row_name (compare baseline current).1 = [])
  /\ (baseline <> ∅ -> deltas_finite baseline current ->
      (forall name,
         name ∈ omap row_name (compare baseline current).1
         <-> name ∈ dom baseline ∪ dom current)
      /\ NoDup (omap row_name (compare baseline current).1)
      /\ Forall (row_in_place baseline current) (compare baseline current).1).
Proof.
  split; [intros ->; by rewrite compare_empty|].
  intros Hne Hfin.
  destruct (compare_finite_names baseline current Hne Hfin) as (_ & _ & ->).
  split; [|split].
  - intros name.
    rewrite elem_of_app, elem_of_sorted_items_names, elem_of_new_names,
      elem_of_union.
    destruct (decide (name ∈ dom baseline)); tauto.
  - apply NoDup_app. split; [apply sorted_items_names_NoDup|].
    split; [|apply StronglySorted_str_lt_NoDup, new_names_sorted].
    intros name Hb%elem_of_sorted_items_names [_ Hn]%elem_of_new_names.
    done.
  - destruct (compare_finite baseline current Hne Hfin)
      as (rows & regs & -> & Hrows & _).
    cbn [fst]. repeat apply Forall_app_2.
    + by repeat constructor.
    + apply (rows_in_place baseline current _ _ Hrows).
      apply Forall_forall. intros [name b] Hin. cbn.
      by apply elem_of_sorted_items.
    + unfold new_rows. apply Forall_fmap, Forall_forall.
      intros name [Hc Hb]%elem_of_new_names. cbn.
      apply not_elem_of_dom in Hb. apply elem_of_dom in Hc as [c Hc].
      by rewrite Hc.
    + by repeat constructor.
    + destruct regs as [|r regs]; [by repeat constructor|].
      cbn [summary]. constructor; [done|].
      apply Forall_fmap, Forall_forall. by intros [n d] _.
Qed.

Lemma known_lookup (baseline current : gmap str Z) (name : str) :
  name ∈ dom baseline -> known baseline current !! name = current !! name.
Proof.
  intros Hin. unfold known. apply option_eq. intros v.
  rewrite map_lookup_filter_Some. cbn. tauto.
Qed.

Lemma known_new_names (baseline current : gmap str Z) :
  new_names baseline (known baseline current) = [].
Proof.
  unfold new_names.
  assert (dom (known baseline current) ∖ dom baseline = ∅) as ->; [|done].
  apply set_eq. intros name.
  rewrite elem_of_difference, elem_of_dom. split; [|by intros ?%not_elem_of_empty].
  intros [[v Hv] Hnot]. unfold known in Hv.
  apply map_lookup_filter_Some in Hv as [_ Hin]. done.
Qed.

(** Without the rows of the new benchmarks, the report is the one of
    the comparison with the current report cut down to the names of the
    baseline. *)
Lemma compare_known (baseline current : gmap str Z) :
  filter (fun l => is_new_row l = false) (compare baseline current).1
  = (compare baseline (known baseline current)).1.
Proof.
  unfold compare. destruct (decide (baseline = ∅)) as [|Hne]; [done|].
  rewrite <- (baseline_loop_ext current (known baseline current)).
  2:{ intros name Hin%elem_of_sorted_items_names.
      by rewrite known_lookup. }
  pose proof (baseline_loop_rows current (sorted_items baseline) [])
    as Hrows.
  assert (new_rows baseline (known baseline current) = []) as ->
    by (unfold new_rows; by rewrite known_new_names).
  destruct (baseline_loop current (sorted_items baseline) [])
    as [rows [regs|e]]; cbn [fst] in *.
  - cbn [app].
    pose proof (new_rows_are_new baseline current) as Hnew.
    assert (filter (fun l => is_new_row l = false)
              ([Title; Header; Rule] ++ rows ++ new_rows baseline current
               ++ [Blank] ++ summary regs)
            = [Title; Header; Rule] ++ rows ++ [Blank] ++ summary regs)
      as Hbody.
    { destruct (summary_names regs) as (_ & _ & _ & Hsum).
      rewrite !filter_app. rewrite (filter_all _ rows) by done.
      rewrite (filter_none _ (new_rows baseline current)).
      2:{ eapply Forall_impl; [exact Hnew|]. cbn. congruence. }
      by rewrite (filter_all _ (summary regs)) by done. }
    destruct regs as [|r regs]; cbn [fst];
      rewrite <- !app_assoc; exact Hbody.
  - rewrite filter_app, (filter_all _ rows) by done. done.
Qed.

Lemma no_new_header (baseline current : gmap str Z) (l : line) :
  ~ new_header baseline current l.
Proof.
  intros (Hin & Hnew & Hnot). apply Hnot. rewrite <- compare_known.
  by apply list_elem_of_filter.
Qed.

(** C9, as amended. The new benchmarks add their rows to the report and
    nothing else: without those rows the report is the one of the same
    comparison with the new benchmarks left out, so that no line
    announces them; and the rows are one per new benchmark. *)
Theorem new_benchmarks_rows_only (baseline current : gmap str Z) :
  filter (fun l => is_new_row l = false) (compare baseline current).1
  = (compare baseline (known baseline current)).1
  /\ (forall l, ~ new_header baseline current l)
  /\ (baseline <> ∅ -> deltas_finite baseline current ->
      omap new_row_name (compare baseline current).1
      = new_names baseline current
      /\ StronglySorted str_lt (new_names baseline current)
      /\ forall name,
           name ∈ new_names baseline current
           <-> name ∈ dom current /\ name ∉ dom baseline).
Proof.
  split; [apply compare_known|]. split; [apply no_new_header|].
  intros Hne Hfin.
  destruct (compare_finite_names baseline current Hne Hfin) as (_ & -> & _).
  split; [done|]. split; [apply new_names_sorted|].
  apply elem_of_new_names.
Qed.

(** ** The exit status *)

Lemma exit_status_verdict (regs : list (str * float)) :
  (exit_status (verdict regs) = 1 <-> regs <> [])
  /\ (exit_status (verdict regs) = 0 <-> regs = []).
Proof. by destruct regs. Qed.

(** C1, as amended. A wrong number of arguments ends the run with the
    usage message and status 1 before any file is opened; a file that
    cannot be read, the baseline or the current one, ends it with the
    exception, hence status 1, and nothing is printed. A run with
    two arguments that no exception ends has status 1 when a benchmark of
    both reports is a regression and status 0 otherwise; and whenever the
    loop over the baseline reaches its end, the run ends as its
    regressions list says: status 1 exactly when the list is not empty. *)
Theorem exit_status_spec (prog : str) (args : list str) (fs : files) :
  (length args <> 2%nat ->
   main prog args fs = ([Print (Usage prog)], SysExit 1))
  /\ (forall path1 path2 e,
        args = [path1; path2] ->
        (fs path1 = Raise e ->
         main prog args fs = ([Open path1], Uncaught e))
        /\ (forall lines1 baseline,
              fs path1 = Ok lines1 -> parse_bencher lines1 = Ok baseline ->
              fs path2 = Raise e ->
              main prog args fs = ([Open path1; Open path2], Uncaught e))
        /\ (fs path1 = Raise e \/ fs path2 = Raise e ->
            exit_status (main prog args fs).2 = 1
            /\ forall l, Print l ∉ (main prog args fs).1))
  /\ (length args = 2%nat ->
      (forall e, (main prog args fs).2 <> Uncaught e) ->
      (exit_status (main prog args fs).2 = 1 <-> run_regressed args fs)
      /\ (exit_status (main prog args fs).2 = 0 <-> ~ run_regressed args fs))
  /\ (forall baseline current rows regs,
        baseline <> ∅ ->
        baseline_loop current (sorted_items baseline) [] = (rows, Ok regs) ->
        (compare baseline current).2 = verdict regs
        /\ (exit_status (verdict regs) = 1 <-> regs <> [])).
Proof.
  split; [|split; [|split]].
  - intros Hlen. by destruct args as [|p1 [|p2 [|p3 args]]].
  - intros p1 p2 e ->. split; [|split].
    + intros Hfs. cbn. by rewrite Hfs.
    + intros l1 bl Hf1 Hp1 Hf2. cbn. by rewrite Hf1, Hp1, Hf2.
    + intros Hfs. cbn.
      assert (forall (evs : list event) l,
                evs = [Open p1] \/ evs = [Open p1; Open p2] ->
                Print l ∉ evs) as Hopen.
      { intros evs l Hevs Hin. destruct Hevs as [Hevs|Hevs]; subst evs;
          repeat (apply elem_of_cons in Hin as [?|Hin]; [done|]);
          by apply elem_of_nil in Hin. }
      destruct (fs p1) as [l1|e1] eqn:Hf1; [|split; [done|]; intros l;
                                              apply Hopen; by left].
      destruct (parse_bencher l1) as [bl|e1] eqn:Hp1;
        [|split; [done|]; intros l; apply Hopen; by left].
      destruct Hfs as [?|Hf2]; [done|]. rewrite Hf2.
      split; [done|]. intros l. apply Hopen. by right.
  - intros Hlen Hok.
    destruct args as [|p1 [|p2 [|p3 args]]]; try done. clear Hlen.
    assert (forall b c, fs p1 = Ok b -> fs p2 = Ok c ->
              forall bl cu, parse_bencher b = Ok bl ->
                            parse_bencher c = Ok cu ->
              (run_regressed [p1; p2] fs <-> exists name delta,
                                               regressed bl cu name delta))
      as Hrun.
    { intros b c Hb Hc bl cu Hbl Hcu. split.
      - intros (q1 & q2 & l1 & l2 & bl' & cu' & name & delta & [= <- <-]
                & Hq1 & Hp1 & Hq2 & Hp2 & Hreg).
        rewrite Hb in Hq1. injection Hq1 as <-.
        rewrite Hc in Hq2. injection Hq2 as <-.
        rewrite Hbl in Hp1. injection Hp1 as <-.
        rewrite Hcu in Hp2. injection Hp2 as <-.
        by exists name, delta.
      - intros (name & delta & Hreg).
        by exists p1, p2, b, c, bl, cu, name, delta. }
    cbn in Hok |- *.
    destruct (fs p1) as [l1|e] eqn:Hf1; [|by destruct (Hok e)].
    destruct (parse_bencher l1) as [bl|e] eqn:Hp1; [|by destruct (Hok e)].
    destruct (fs p2) as [l2|e] eqn:Hf2; [|by destruct (Hok e)].
    destruct (parse_bencher l2) as [cu|e] eqn:Hp2; [|by destruct (Hok e)].
    rewrite (Hrun l1 l2 eq_refl eq_refl bl cu Hp1 Hp2).
    destruct (compare bl cu) as [out t] eqn:Hcmp. cbn in Hok |- *.
    destruct (decide (bl = ∅)) as [->|Hne].
    + rewrite compare_empty in Hcmp. injection Hcmp as <- <-. cbn.
      assert (~ exists name delta, regressed ∅ cu name delta) as Hno.
      { intros (name & delta & b & c & Hb & _). by rewrite lookup_empty in Hb. }
      split; [split; [done|by intros ?%Hno]|done].
    + destruct (compare_completed bl cu out t Hne Hcmp Hok)
        as (rows & regs & _ & -> & _ & Hregs).
      destruct (exit_status_verdict regs) as [H1 H0].
      assert (regs <> [] <-> exists name delta, regressed bl cu name delta)
        as Hiff.
      { split.
        - destruct regs as [|[name delta] regs]; [done|]. intros _.
          exists name, delta. apply Hregs. by left.
        - intros (name & delta & Hreg%Hregs) ->. by apply elem_of_nil in Hreg. }
      rewrite H1, H0, <- Hiff. split; [done|].
      destruct regs as [|r regs].
      * split; [by intros _ Hn|done].
      * split; [done|]. intros Hn. by destruct Hn.
  - intros bl cu rows regs Hne Hloop. unfold compare.
    rewrite decide_False, Hloop by done.
    split; [by destruct regs|apply exit_status_verdict].
Qed.

(** With an empty baseline and a current report that parses, the run
    prints the notice and ends with status 0. *)
Lemma empty_baseline_skips (prog path1 path2 : str) (fs : files)
    (lines1 lines2 : list str) (current : gmap str Z) :
  fs path1 = Ok lines1 -> parse_bencher lines1 = Ok ∅ ->
  fs path2 = Ok lines2 -> parse_bencher lines2 = Ok current ->
  main prog [path1; path2] fs
  = ([Open path1; Open path2; Print SkipNotice], SysExit 0).
Proof.
  intros Hf1 Hp1 Hf2 Hp2. cbn. by rewrite Hf1, Hp1, Hf2, Hp2, compare_empty.
Qed.

(** ** The threshold *)

(** C3, as amended. For a benchmark of both reports with a positive
    baseline, in a comparison whose deltas are all in the binary64 range:
    the row of the benchmark carries the delta and its mark; the mark is
    the regression mark exactly when the delta is above the threshold, as
    binary64 numbers, and then the benchmark is in the final listing and
    the run ends with status 1; a delta equal to the threshold is no
    regression, the benchmark is not listed, and the run fails only if
    another benchmark is a regression. On the durations the delta is
    above the threshold exactly when the quotient is above
    14411518807585589 / 2^57, the midpoint between the binary64 number
    0.10 and the next one: a quotient of exactly 1/10 is no regression,
    and a quotient above 1/10 is one for every baseline up to 2^52. *)
Theorem regression_threshold_strict (baseline current : gmap str Z)
    (name : str) (base_ns curr_ns : Z) :
  baseline !! name = Some base_ns -> current !! name = Some curr_ns ->
  0 < base_ns -> deltas_finite baseline current ->
  exists delta,
    relative_delta base_ns curr_ns = Ok delta
    /\ MatchedRow name base_ns curr_ns delta (marker_of delta)
       ∈ (compare baseline current).1
    /\ (marker_of delta = RegressionMark
        <-> (float_Q REGRESSION_THRESHOLD < float_Q delta)%Q)
    /\ ((float_Q delta == float_Q REGRESSION_THRESHOLD)%Q ->
        marker_of delta <> RegressionMark)
    /\ (forall d,
          RegressedItem name d ∈ (compare baseline current).1
          <-> d = delta /\ (float_Q REGRESSION_THRESHOLD < float_Q delta)%Q)
    /\ ((float_Q REGRESSION_THRESHOLD < float_Q delta)%Q ->
        exit_status (compare baseline current).2 = 1)
    /\ (~ (float_Q REGRESSION_THRESHOLD < float_Q delta)%Q ->
        (exit_status (compare baseline current).2 = 1
         <-> exists name' delta',
               name' <> name /\ regressed baseline current name' delta')
        /\ ((forall name' delta',
               regressed baseline current name' delta' -> name' = name) ->
            exit_status (compare baseline current).2 = 0))
    /\ ((float_Q REGRESSION_THRESHOLD < float_Q delta)%Q
        <-> 14411518807585589 * base_ns < (curr_ns - base_ns) * 2 ^ 57)
    /\ (10 * (curr_ns - base_ns) = base_ns ->
        ~ (float_Q REGRESSION_THRESHOLD < float_Q delta)%Q)
    /\ (base_ns < 10 * (curr_ns - base_ns) -> base_ns <= 2 ^ 52 ->
        (float_Q REGRESSION_THRESHOLD < float_Q delta)%Q).
Proof.
  intros Hb Hc Hpos Hfin.
  assert (baseline <> ∅) as Hne by (intros ->; by rewrite lookup_empty in Hb).
  destruct (matched_row_in_report baseline current name base_ns curr_ns
              Hb Hc Hfin) as (delta & Hdelta & Hrow).
  exists delta. split; [done|]. split; [done|].
  pose proof (is_regression_iff base_ns curr_ns delta Hpos Hdelta) as Hiff.
  pose proof (float_ltb_Q REGRESSION_THRESHOLD delta) as HQ.
  fold (is_regression delta) in HQ.
  assert (marker_of delta = RegressionMark <-> is_regression delta = true)
    as Hmark.
  { unfold marker_of. destruct (is_regression delta); [done|].
    by destruct (is_faster delta). }
  assert (forall d,
            regressed baseline current name d
            <-> d = delta /\ is_regression delta = true) as Hreg.
  { intros d. split.
    - intros (b & c & Hb' & Hc' & Hd & Hr).
      rewrite Hb in Hb'. injection Hb' as <-.
      rewrite Hc in Hc'. injection Hc' as <-.
      rewrite Hdelta in Hd. injection Hd as <-. done.
    - intros [-> Hr]. by exists base_ns, curr_ns. }
  destruct (exit_status_compare baseline current Hne Hfin) as [Hfail Hpass].
  split; [by rewrite Hmark|]. split.
  { intros Heq. rewrite Hmark, HQ, Heq. apply Qlt_irrefl. }
  split.
  { intros d. by rewrite regressed_item_in_report, Hreg, HQ. }
  split.
  { intros Habove. apply Hfail. exists name, delta. apply Hreg.
    split; [done|]. by apply HQ. }
  split.
  { intros Hnot. split.
    - rewrite Hfail. split.
      + intros (name' & delta' & Hr). exists name', delta'. split; [|done].
        intros ->. apply Hreg in Hr as [_ Hr]. by apply Hnot, HQ.
      + intros (name' & delta' & _ & Hr). by exists name', delta'.
    - intros Honly. apply Hpass. intros (name' & delta' & Hr).
      pose proof (Honly _ _ Hr) as ->. apply Hreg in Hr as [_ Hr].
      by apply Hnot, HQ. }
  change (2 ^ 57) with 144115188075855872 in *.
  change (2 ^ 52) with 4503599627370496.
  split; [by rewrite <- HQ|]. split.
  - intros Heq. rewrite <- HQ, Hiff. lia.
  - intros Hgt Hsmall. apply HQ, Hiff. lia.
Qed.

(** ** The delta *)


(** ** The shape of a line *)

Lemma parse_loop_skip (line : str) (lines : list str) (acc : gmap str Z) :
  line_entry line = None ->
  parse_loop (line :: lines) acc = parse_loop lines acc.
Proof.
  rewrite line_entry_groups. cbn [parse_loop].
  by destruct (re_match bencher_line line).
Qed.

(** C10, as amended. A line with one white space character between the
    name and "bench:", and no white space followed by "bench:" further
    on, gives no entry, whatever follows; a line that gives an entry
    starts with "test", and has two white space characters at least
    between its name and the "bench:" before its number. *)
Theorem entry_needs_two_spaces :
  (forall (ws1 name rest : str) (w : N),
     run_of Space ws1 -> run_of NotSpace name -> is_space w = true ->
     marker_after_space rest = false ->
     line_entry (lit "test" ++ ws1 ++ name ++ [w] ++ lit "bench:" ++ rest)
     = None
     /\ forall lines acc,
          parse_loop
            ((lit "test" ++ ws1 ++ name ++ [w] ++ lit "bench:" ++ rest)
             :: lines) acc
          = parse_loop lines acc)
  /\ (forall line name number,
        line_entry line = Some (name, number) ->
        exists ws1 w1 mid w2 rest,
          line = lit "test" ++ ws1 ++ name ++ [w1] ++ mid ++ [w2]
                 ++ lit "bench:" ++ rest
          /\ run_of Space ws1 /\ run_of NotSpace name
          /\ is_space w1 = true /\ is_space w2 = true).
Proof.
  split.
  - intros ws1 name rest w H1 Hn Hw Hrest.
    pose proof (line_entry_single_space ws1 name rest w H1 Hn Hw Hrest)
      as Hnone.
    split; [done|]. intros lines acc. by apply parse_loop_skip.
  - apply line_entry_needs.
Qed.

(** ** Runs on the example inputs *)

(** C2: a line of the shape with a comma for a number makes
    [parse_bencher] raise, also after lines it has read well; and a delta
    beyond the binary64 range makes the comparison raise. *)
Theorem parse_bencher_not_total :
  parse_bencher [comma_line] = Raise ValueError
  /\ parse_bencher (scenario_baseline ++ [comma_line]) = Raise ValueError
  /\ (compare {[lit "a" := 1]} {[lit "a" := 2 ^ 1024]}).2
     = Uncaught OverflowError.
Proof. by vm_compute. Qed.

(** C5: the comma line has the shape, with name "a" and number ",", and
    the number without its commas is no integer: [int] raises, and
    [parse_bencher] with it. *)
Theorem comma_line_no_entry :
  line_entry comma_line = Some (lit "a", lit ",")
  /\ strip_commas (lit ",") = []
  /\ py_int (strip_commas (lit ",")) = Raise ValueError
  /\ parse_bencher [comma_line] = Raise ValueError.
Proof. by vm_compute. Qed.

(** C4: with a baseline without a matching line, and hence an empty
    dict, the run over a current report that holds the comma line ends in
    the exception raised while that report is parsed: no notice, status 1. *)
Theorem empty_baseline_current_raises :
  parse_bencher [] = Ok ∅
  /\ main (lit "bench_compare.py") paths (two_files [] [comma_line])
     = ([Open (lit "baseline.txt"); Open (lit "current.txt")],
        Uncaught ValueError)
  /\ exit_status
       (main (lit "bench_compare.py") paths (two_files [] [comma_line])).2
     = 1.
Proof. by vm_compute. Qed.

(** C1 fails on a file that cannot be read, and on a baseline that holds
    the comma line: two arguments, no regression, status 1. *)
Lemma exit_status_unreadable_file :
  ~ (exit_status (main (lit "bench_compare.py") paths no_files).2 = 1
     <-> length paths <> 2%nat \/ run_regressed paths no_files)
  /\ ~ (exit_status
         (main (lit "bench_compare.py") paths (two_files [comma_line] [])).2
       = 1
       <-> length paths <> 2%nat
           \/ run_regressed paths (two_files [comma_line] [])).
Proof.
  split.
  - intros [Hexit _]. destruct Hexit as [Hlen|Hreg]; [by vm_compute|done|].
    by destruct Hreg as (p1 & p2 & l1 & ? & ? & ? & ? & ? & _ & Hfs & _).
  - intros [Hexit _]. destruct Hexit as [Hlen|Hreg]; [by vm_compute|done|].
    destruct Hreg
      as (p1 & p2 & l1 & ? & ? & ? & ? & ? & [= <- <-] & Hfs & Hparse & _).
    injection Hfs as <-. by vm_compute in Hparse.
Qed.

(** C3 fails on a baseline above 2^52: the quotient of the two durations
    is above 1/10, the delta is the binary64 number 0.10 all the same,
    the threshold, and the benchmark is no regression: the run passes. *)
Lemma threshold_large_baseline :
  0 < large_baseline
  /\ large_baseline < 10 * (large_current - large_baseline)
  /\ relative_delta large_baseline large_current = Ok float_0_10
  /\ marker_of float_0_10 = NoMarker
  /\ compare {[lit "a" := large_baseline]} {[lit "a" := large_current]}
     = ([Title; Header; Rule;
         MatchedRow (lit "a") large_baseline large_current float_0_10
           NoMarker;
         Blank; PassSummary], Return)
  /\ exit_status
       (compare {[lit "a" := large_baseline]}
          {[lit "a" := large_current]}).2 = 0.
Proof. by vm_compute. Qed.

(** C7 fails on a delta beyond the binary64 range: the loop stops before
    the row of the benchmark, a name of the baseline. *)
Lemma overflow_drops_rows :
  lit "a" ∈ dom ({[lit "a" := 1]} : gmap str Z)
  /\ compare {[lit "a" := 1]} {[lit "a" := 2 ^ 1024]}
     = ([Title; Header; Rule], Uncaught OverflowError)
  /\ lit "a" ∉ omap baseline_row_name
                  (compare {[lit "a" := 1]} {[lit "a" := 2 ^ 1024]}).1.
Proof.
  assert (compare {[lit "a" := 1]} {[lit "a" := 2 ^ 1024]}
          = ([Title; Header; Rule], Uncaught OverflowError)) as Heval
    by by vm_compute.
  split; [by apply elem_of_dom; exists 1; apply lookup_singleton_eq|].
  split; [done|]. rewrite Heval. cbn. by intros ?%elem_of_nil.
Qed.

(** C8 fails on an empty baseline: the benchmarks of the current report
    are in no row. *)
Lemma empty_baseline_no_rows :
  compare ∅ {[lit "a" := 1]} = ([SkipNotice], SysExit 0)
  /\ lit "a" ∈ dom (∅ : gmap str Z) ∪ dom ({[lit "a" := 1]} : gmap str Z)
  /\ lit "a" ∉ omap row_name (compare ∅ {[lit "a" := 1]}).1.
Proof.
  split; [apply compare_empty|]. split.
  - apply elem_of_union. right.
    by apply elem_of_dom; exists 1; apply lookup_singleton_eq.
  - rewrite compare_empty. cbn. by intros ?%elem_of_nil.
Qed.

(** C9 fails on a report with a new benchmark: its lines are the three
    heading lines of every report, the rows, the blank line and the
    summary, and none of them is there for the new benchmarks but the row
    of the benchmark. *)
Lemma new_benchmark_no_header :
  new_names {[lit "a" := 1]} {[lit "b" := 2]} = [lit "b"]
  /\ (compare {[lit "a" := 1]} {[lit "b" := 2]}).1
     = [Title; Header; Rule; MissingRow (lit "a") 1; NewRow (lit "b") 2;
        Blank; PassSummary]
  /\ ~ exists l, new_header {[lit "a" := 1]} {[lit "b" := 2]} l.
Proof.
  split; [by vm_compute|]. split; [by vm_compute|].
  intros [l Hl]. by apply no_new_header in Hl.
Qed.

(** C10 fails on a line with two spaces, and no token, between the name
    and "bench:": the line has an entry. *)
Lemma two_spaces_entry :
  two_spaces_line
  = lit "test" ++ lit " " ++ lit "foo" ++ lit "  " ++ lit "bench:"
    ++ lit " 1 ns/iter"
  /\ run_of Space (lit " ") /\ run_of NotSpace (lit "foo")
  /\ run_of Space (lit "  ")
  /\ line_entry two_spaces_line = Some (lit "foo", lit "1")
  /\ parse_bencher [two_spaces_line] = Ok {[lit "foo" := 1]}.
Proof.
  split; [reflexivity|].
  split; [by split; [|repeat constructor]|].
  split; [by split; [|repeat constructor]|].
  split; [by split; [|repeat constructor]|].
  split; by vm_compute.
Qed.

(** ** The theorems at work *)

Lemma exit_status_spec_witness :
  exit_status
    (main (lit "bench_compare.py") paths
       (two_files scenario_baseline scenario_current)).2 = 1
  /\ run_regressed paths (two_files scenario_baseline scenario_current)
  /\ exit_status (main (lit "bench_compare.py") paths baseline_only).2 = 1.
Proof.
  destruct (exit_status_spec (lit "bench_compare.py") paths
              (two_files scenario_baseline scenario_current))
    as (_ & _ & Hrun & _).
  destruct (exit_status_spec (lit "bench_compare.py") paths baseline_only)
    as (_ & Hfile & _).
  destruct (Hfile (lit "baseline.txt") (lit "current.txt") OSError eq_refl)
    as (_ & _ & Hexit).
  destruct Hexit as [Hexit _]; [by right|].
  destruct Hrun as [[Hreg _] _].
  - reflexivity.
  - intros e. by vm_compute.
  - split; [by vm_compute|]. split; [|exact Hexit]. apply Hreg. by vm_compute.
Defined.

Lemma regression_threshold_strict_witness :
  MatchedRow (lit "foo") 1000 1200 (Float false 7205759403792794 (-55))
    RegressionMark ∈ (compare example_baseline example_current).1
  /\ RegressedItem (lit "foo") (Float false 7205759403792794 (-55))
     ∈ (compare example_baseline example_current).1
  /\ exit_status (compare example_baseline example_current).2 = 1.
Proof.
  destruct (regression_threshold_strict example_baseline example_current
              (lit "foo") 1000 1200)
    as (delta & Hdelta & Hrow & Hmark & _ & Hlist & Hexit & _ & _ & _ & Hgt).
  - by vm_compute.
  - by vm_compute.
  - lia.
  - apply deltas_finiteb_true. by vm_compute.
  - assert (Float false 7205759403792794 (-55) = delta) as <-.
    { assert (Ok (Float false 7205759403792794 (-55)) = Ok delta) as Heq
        by (rewrite <- Hdelta; by vm_compute).
      by injection Heq. }
    assert (float_Q REGRESSION_THRESHOLD
            < float_Q (Float false 7205759403792794 (-55)))%Q as Habove
      by (apply Hgt; [lia|by vm_compute]).
    split; [by rewrite (proj2 Hmark Habove) in Hrow|].
    split; [apply Hlist; split; [reflexivity|exact Habove]|].
    apply Hexit. exact Habove.
Defined.


Lemma deltas_finite_missing (baseline : gmap str Z) :
  deltas_finite baseline ∅.
Proof. intros name b c _ Hc. by rewrite lookup_empty in Hc. Qed.

Lemma report_rows_sorted_witness :
  omap baseline_row_name (compare example_baseline example_current).1
  = [lit "bar"; lit "foo"; lit "gone"]
  /\ omap new_row_name (compare example_baseline example_current).1
     = [lit "added"; lit "new"]
  /\ NoDup (omap baseline_row_name
              (compare example_baseline example_current).1)
  /\ StronglySorted str_lt
       (omap baseline_row_name (compare example_baseline example_current).1)
  /\ StronglySorted str_lt
       (omap new_row_name (compare example_baseline example_current).1).
Proof.
  destruct (report_rows_sorted example_baseline example_current)
    as (_ & Hnd & Hs & Hnew).
  - apply deltas_finiteb_true. by vm_compute.
  - split; [by vm_compute|]. split; [by vm_compute|]. by split.
Defined.

Lemma report_names_witness :
  omap row_name (compare example_baseline example_current).1
  = [lit "bar"; lit "foo"; lit "gone"; lit "added"; lit "new"]
  /\ NoDup (omap row_name (compare example_baseline example_current).1)
  /\ Forall (row_in_place example_baseline example_current)
       (compare example_baseline example_current).1
  /\ compare ∅ example_current = ([SkipNotice], SysExit 0).
Proof.
  destruct (report_names example_baseline example_current) as [_ Hrows].
  destruct (report_names ∅ example_current) as [Hskip _].
  destruct Hrows as (_ & Hnd & Hplace).
  - apply insert_non_empty.
  - apply deltas_finiteb_true. by vm_compute.
  - split; [by vm_compute|]. split; [done|]. split; [done|].
    by apply Hskip.
Defined.

Lemma new_benchmarks_rows_only_witness :
  new_names example_baseline example_current = [lit "added"; lit "new"]
  /\ omap new_row_name (compare example_baseline example_current).1
     = new_names example_baseline example_current
  /\ filter (fun l => is_new_row l = false)
       (compare example_baseline example_current).1
     = (compare example_baseline
          (known example_baseline example_current)).1.
Proof.
  destruct (new_benchmarks_rows_only example_baseline example_current)
    as (Hfilter & _ & Hnew).
  destruct Hnew as (Hrows & _).
  - apply insert_non_empty.
  - apply deltas_finiteb_true. by vm_compute.
  - split; [by vm_compute|]. by split.
Defined.

Lemma entry_needs_two_spaces_witness :
  line_entry (lit "test" ++ lit " " ++ lit "foo" ++ [space] ++ lit "bench:"
              ++ lit " 1 ns/iter") = None.
Proof.
  destruct entry_needs_two_spaces as [Hnone _].
  destruct (Hnone (lit " ") (lit "foo") (lit " 1 ns/iter") space)
    as [Hentry _].
  - by split; [|repeat constructor].
  - by split; [|repeat constructor].
  - reflexivity.
  - reflexivity.
  - exact Hentry.
Defined.

(** * Further properties of the comparison *)

(** ** What the rows hold *)

(** Membership in a list written out, from membership in a shorter one. *)
Ltac pick_member H :=
  repeat (apply elem_of_cons in H as [->|H];
          [solve [repeat first [by left|right]]|]);
  by apply elem_of_nil in H.

Lemma baseline_loop_rows_spec (current : gmap str Z)
    (items : list (str * Z)) (regs : list (str * float)) :
  Forall (fun row => exists item, item ∈ items /\ row_spec current item row)
         (baseline_loop current items regs).1.
Proof.
  revert regs. induction items as [|[name base_ns] items IH]; intros regs;
    simpl; [constructor|].
  assert (forall r,
            Forall (fun row => exists item,
                        item ∈ (name, base_ns) :: items
                        /\ row_spec current item row)
                   (baseline_loop current items r).1) as IH'.
  { intros r. eapply Forall_impl; [apply IH|].
    intros row (item & Hin & Hrow). exists item. split; [by right|done]. }
  destruct (current !! name) as [curr_ns|] eqn:Hcur.
  - destruct (relative_delta base_ns curr_ns) as [delta|e] eqn:Hd;
      [|constructor].
    match goal with |- context [baseline_loop current items ?r] =>
      specialize (IH' r); destruct (baseline_loop current items r) end.
    constructor; [|done]. exists (name, base_ns). split; [by left|].
    unfold row_spec. cbn. rewrite Hcur. by exists delta.
  - specialize (IH' regs). destruct (baseline_loop current items regs).
    constructor; [|done]. exists (name, base_ns). split; [by left|].
    unfold row_spec. cbn. by rewrite Hcur.
Qed.

Lemma elem_of_compare (baseline current : gmap str Z) (l : line) :
  l ∈ (compare baseline current).1 ->
  (baseline = ∅ /\ l = SkipNotice)
  \/ l ∈ [Title; Header; Rule; Blank; PassSummary]
  \/ (exists item, item ∈ sorted_items baseline /\ row_spec current item l)
  \/ l ∈ new_rows baseline current
  \/ (exists count, l = FailSummary count)
  \/ (exists name delta, l = RegressedItem name delta).
Proof.
  unfold compare. destruct (decide (baseline = ∅)) as [|Hne].
  { cbn. intros ->%list_elem_of_singleton. by left. }
  intros Hin. right. revert Hin.
  pose proof (baseline_loop_rows_spec current (sorted_items baseline) [])
    as Hrows.
  destruct (baseline_loop current (sorted_items baseline) [])
    as [rows [regs|e]]; cbn [fst] in *.
  - assert (l ∈ [Title; Header; Rule] ++ rows ++ new_rows baseline current
              ++ [Blank] ++ summary regs ->
            l ∈ [Title; Header; Rule; Blank; PassSummary]
            \/ (exists item, item ∈ sorted_items baseline
                             /\ row_spec current item l)
            \/ l ∈ new_rows baseline current
            \/ (exists count, l = FailSummary count)
            \/ (exists name delta, l = RegressedItem name delta)) as Hbody.
    { rewrite !elem_of_app.
      intros [Hin|[Hin|[Hin|[Hin|Hin]]]].
      - left. by pick_member Hin.
      - right. left. by eapply Forall_forall in Hrows.
      - right. right. by left.
      - left. by pick_member Hin.
      - destruct regs as [|r regs]; cbn [summary] in Hin.
        + left. by pick_member Hin.
        + apply elem_of_cons in Hin as [->|Hin]; [by do 3 right; left; eexists|].
          apply list_elem_of_fmap in Hin as ([n d] & -> & _).
          do 4 right. by exists n, d. }
    destruct regs as [|r regs]; cbn [fst]; intros Hin; apply Hbody;
      rewrite <- !app_assoc in Hin; exact Hin.
  - rewrite elem_of_app. intros [Hin|Hin].
    + left. by pick_member Hin.
    + right. left. by eapply Forall_forall in Hrows.
Qed.

(** X5. Every row of a report, complete or not, holds the durations of the
    two reports for its benchmark; a matched row holds the delta of the
    two durations and the mark of that delta. *)
Theorem rows_hold_the_reports (baseline current : gmap str Z) (l : line) :
  l ∈ (compare baseline current).1 ->
  match l with
  | MatchedRow name base_ns curr_ns delta mk =>
      baseline !! name = Some base_ns /\ current !! name = Some curr_ns
      /\ relative_delta base_ns curr_ns = Ok delta /\ mk = marker_of delta
  | MissingRow name base_ns =>
      baseline !! name = Some base_ns /\ current !! name = None
  | NewRow name curr_ns =>
      baseline !! name = None /\ current !! name = Some curr_ns
  | _ => True
  end.
Proof.
  intros [[_ ->]|[Hin|[(item & Hitem & Hrow)|[Hin|[[count ->]|(n & d & ->)]]]]]
    %elem_of_compare; [done| | | |done|done].
  - repeat (apply elem_of_cons in Hin as [->|Hin]; [done|]).
    by apply elem_of_nil in Hin.
  - destruct item as [name base_ns].
    apply elem_of_sorted_items in Hitem. unfold row_spec in Hrow.
    cbn in Hrow. destruct (current !! name) as [curr_ns|] eqn:Hcur.
    + by destruct Hrow as (delta & Hdelta & ->).
    + by subst l.
  - unfold new_rows in Hin.
    apply list_elem_of_fmap in Hin as (name & -> & [Hc Hb]%elem_of_new_names).
    apply not_elem_of_dom in Hb. apply elem_of_dom in Hc as [c Hc].
    by rewrite Hc.
Qed.

(** ** The summary *)

Lemma flagged_marker (name : str) (base_ns curr_ns : Z) (delta : float) :
  flagged (MatchedRow name base_ns curr_ns delta (marker_of delta))
  = if is_regression delta then Some (name, delta) else None.
Proof.
  unfold marker_of. destruct (is_regression delta); [done|].
  by destruct (is_faster delta).
Qed.

Lemma baseline_loop_flagged (current : gmap str Z) (items : list (str * Z))
    (regs regs' : list (str * float)) (rows : list line) :
  baseline_loop current items regs = (rows, Ok regs') ->
  regs' = regs ++ omap flagged rows.
Proof.
  revert regs rows. induction items as [|[name base_ns] items IH];
    intros regs rows; simpl.
  - intros [= <- <-]. by rewrite app_nil_r.
  - destruct (current !! name) as [curr_ns|].
    + destruct (relative_delta base_ns curr_ns) as [delta|e]; [|done].
      destruct (baseline_loop current items _) as [out r] eqn:Hloop.
      intros [= <- ->]. apply IH in Hloop as ->.
      change (omap flagged (?x :: ?l))
        with (match flagged x with
              | Some y => y :: omap flagged l
              | None => omap flagged l
              end).
      rewrite flagged_marker.
      destruct (is_regression delta); [by rewrite <- app_assoc|done].
    + destruct (baseline_loop current items regs) as [out r] eqn:Hloop.
      intros [= <- ->]. by apply IH in Hloop as ->.
Qed.

Lemma omap_rows_flagged (current : gmap str Z) (items : list (str * Z))
    (rows : list line) :
  Forall2 (row_spec current) items rows ->
  omap listed rows = [] /\ omap announced rows = []
  /\ (StronglySorted str_lt items.*1 ->
      StronglySorted str_lt (omap flagged rows).*1
      /\ Forall (fun name => name ∈ items.*1) (omap flagged rows).*1).
Proof.
  induction 1 as [|[name b] row items rows Hrow _ (IH1 & IH2 & IH3)];
    [by repeat constructor|].
  assert (listed row = None /\ announced row = None
          /\ (flagged row = None
              \/ (exists delta, flagged row = Some (name, delta))))
    as (Hl & Ha & Hf).
  { unfold row_spec in Hrow. cbn in Hrow. destruct (current !! name).
    - destruct Hrow as (delta & _ & ->). repeat split.
      rewrite flagged_marker. destruct (is_regression delta); eauto.
    - subst row. repeat split. by left. }
  change (omap ?f (row :: rows))
    with (match f row with Some y => y :: omap f rows | None => omap f rows end).
  rewrite Hl, Ha. split; [done|]. split; [done|].
  intros [Hsorted Hhead]%StronglySorted_inv. cbn in Hhead.
  destruct (IH3 Hsorted) as [IHs IHin].
  assert (Forall (fun n => n ∈ name :: items.*1) (omap flagged rows).*1)
    as IHin'.
  { eapply Forall_impl; [exact IHin|]. intros n Hn. by right. }
  destruct Hf as [->|[delta ->]]; [by split|]. cbn.
  split; constructor; [done| |by left|done].
  apply Forall_forall. intros n Hn.
  eapply Forall_forall in IHin; [|done].
  by eapply Forall_forall in Hhead.
Qed.

(** X6. In a report that no exception cut short, the final listing names the
    regressions flagged in the table, the same ones in the same order,
    which is ascending in the names; the count of the summary line is
    their number; and the run ends with [sys.exit(1)] when there is one,
    normally when there is none. *)
Theorem summary_lists_flagged (baseline current : gmap str Z) :
  baseline <> ∅ ->
  (forall e, (compare baseline current).2 <> Uncaught e) ->
  omap listed (compare baseline current).1
  = omap flagged (compare baseline current).1
  /\ StronglySorted str_lt (omap flagged (compare baseline current).1).*1
  /\ (omap flagged (compare baseline current).1 = [] ->
      omap announced (compare baseline current).1 = []
      /\ PassSummary ∈ (compare baseline current).1
      /\ (compare baseline current).2 = Return)
  /\ (omap flagged (compare baseline current).1 <> [] ->
      omap announced (compare baseline current).1
      = [length (omap flagged (compare baseline current).1)]
      /\ (PassSummary ∉ (compare baseline current).1)
      /\ (compare baseline current).2 = SysExit 1).
Proof.
  intros Hne Hok. unfold compare in *. rewrite decide_False in * by done.
  pose proof (baseline_loop_rows_spec current (sorted_items baseline) [])
    as Hspec.
  destruct (baseline_loop current (sorted_items baseline) [])
    as [rows [regs|e]] eqn:Hloop; [|by destruct (Hok e)].
  cbn [fst] in Hspec.
  pose proof (baseline_loop_flagged _ _ _ _ _ Hloop) as Hregs.
  apply baseline_loop_ok in Hloop as [Hrows _].
  apply omap_rows_flagged in Hrows as (Hl & Ha & Hs).
  destruct (Hs (sorted_items_names_sorted baseline)) as [Hsorted _].
  cbn [app] in Hregs. clear Hs Hok.
  assert (omap flagged (new_rows baseline current) = []
          /\ omap listed (new_rows baseline current) = []
          /\ omap announced (new_rows baseline current) = []) as (Hn1 & Hn2 & Hn3).
  { unfold new_rows. by induction (new_names baseline current). }
  assert (forall l : list (str * float),
            omap flagged (map (fun '(name, delta) => RegressedItem name delta) l)
            = []
            /\ omap listed
                 (map (fun '(name, delta) => RegressedItem name delta) l) = l
            /\ omap announced
                 (map (fun '(name, delta) => RegressedItem name delta) l) = []
            /\ PassSummary
               ∉ map (fun '(name, delta) => RegressedItem name delta) l)
    as Hitems.
  { induction l as [|[n d] l (IH1 & IH2 & IH3 & IH4)].
    - repeat split. by intros ?%elem_of_nil.
    - cbn. repeat split; try done; [by f_equal|].
      by intros [?|?]%elem_of_cons. }
  assert (PassSummary ∉ rows) as Hpass.
  { intros Hin. eapply Forall_forall in Hspec as ([n b] & _ & Hrow); [|done].
    unfold row_spec in Hrow. cbn in Hrow.
    destruct (current !! n); [by destruct Hrow as (? & _ & ?)|done]. }
  assert (PassSummary ∉ new_rows baseline current) as Hpass'.
  { unfold new_rows. by intros (? & ? & _)%list_elem_of_fmap. }
  destruct regs as [|r regs]; cbn [fst snd].
  - rewrite !omap_app, Hl, Ha, Hn1, Hn2, Hn3, <- Hregs. cbn.
    split; [done|]. split; [constructor|]. split; [|done].
    intros _. split; [done|]. split; [|done].
    do 3 (apply elem_of_cons; right). apply elem_of_app. right. by left.
  - assert (omap flagged rows <> []) as Hsome by by rewrite <- Hregs.
    rewrite Hregs. clear Hregs.
    destruct (Hitems (omap flagged rows)) as (Hi1 & Hi2 & Hi3 & Hi4).
    rewrite !omap_app, Hl, Ha, Hn1, Hn2, Hn3.
    change (omap ?f (FailSummary ?c :: ?l))
      with (match f (FailSummary c) with
            | Some y => y :: omap f l
            | None => omap f l
            end).
    cbn [flagged listed announced]. rewrite Hi1, Hi2, Hi3. cbn.
    rewrite ?app_nil_r.
    split; [done|]. split; [done|]. split; [done|].
    intros _. split; [done|]. split; [|done].
    intros Hin. do 3 (apply elem_of_cons in Hin as [?|Hin]; [done|]).
    rewrite !elem_of_app, elem_of_cons in Hin.
    destruct Hin as [[Hin|[Hin|[Hin|Hin%elem_of_nil]]]|Hin]; try done.
    by apply elem_of_cons in Hin as [Hin|Hin].
Qed.

(** ** The range of the delta *)

(** X7. The division raises nothing but [OverflowError], and raises it exactly
    when the baseline is positive and the quotient is, in absolute value,
    at least 2^1024 - 2^970: for a current duration below
    (2^1024 - 2^970 + 1) times the baseline, when it is at least the
    baseline. *)
Theorem delta_overflow_boundary (base_ns curr_ns : Z) :
  (forall e, relative_delta base_ns curr_ns = Raise e -> e = OverflowError)
  /\ ((exists e, relative_delta base_ns curr_ns = Raise e)
      <-> 0 < base_ns
          /\ (2 ^ 1024 - 2 ^ 970) * base_ns <= Z.abs (curr_ns - base_ns))
  /\ (0 < base_ns <= curr_ns ->
      curr_ns < (2 ^ 1024 - 2 ^ 970 + 1) * base_ns ->
      exists delta, relative_delta base_ns curr_ns = Ok delta).
Proof.
  pose proof (relative_delta_overflow base_ns curr_ns) as Hiff.
  pose proof (relative_delta_raises base_ns curr_ns) as Hexn.
  split; [exact Hexn|]. split; [split|].
  - intros [e He]. apply Hiff. by rewrite He, (Hexn e He).
  - intros Hbig. exists OverflowError. by apply Hiff.
  - intros Hb Hlt. destruct (relative_delta base_ns curr_ns) as [d|e] eqn:Hd;
      [by exists d|].
    rewrite (Hexn e eq_refl) in Hiff. destruct (proj1 Hiff eq_refl) as [_ Hbig].
    rewrite Z.abs_eq in Hbig by lia. lia.
Qed.

(** X8. The comparison ends in an exception exactly when a benchmark of both
    reports has a delta out of range; the exception is [OverflowError]. *)
Theorem compare_raises_iff (baseline current : gmap str Z) :
  (forall e, (compare baseline current).2 = Uncaught e -> e = OverflowError)
  /\ ((exists e, (compare baseline current).2 = Uncaught e)
      <-> exists name base_ns curr_ns,
            baseline !! name = Some base_ns /\ current !! name = Some curr_ns
            /\ 0 < base_ns
            /\ (2 ^ 1024 - 2 ^ 970) * base_ns <= Z.abs (curr_ns - base_ns)).
Proof.
  assert (forall (n : str) b c,
            relative_delta b c = Raise OverflowError
            <-> 0 < b /\ (2 ^ 1024 - 2 ^ 970) * b <= Z.abs (c - b)) as Hiff
    by (intros; apply relative_delta_overflow).
  unfold compare. destruct (decide (baseline = ∅)) as [->|Hne].
  { split; [done|]. split; [by intros [e ?]|].
    intros (name & b & c & Hb & _). by rewrite lookup_empty in Hb. }
  destruct (baseline_loop current (sorted_items baseline) [])
    as [rows [regs|e]] eqn:Hloop.
  - split; [by destruct regs|]. split; [by intros [e ?]; destruct regs|].
    intros (name & b & c & Hb & Hc & Hbig). exfalso.
    apply baseline_loop_ok in Hloop as [Hrows _].
    apply elem_of_sorted_items in Hb.
    apply list_elem_of_lookup_1 in Hb as [i Hi].
    eapply Forall2_lookup_l in Hrows as (row & _ & Hrow); [|exact Hi].
    unfold row_spec in Hrow. cbn in Hrow. rewrite Hc in Hrow.
    destruct Hrow as (delta & Hdelta & _).
    rewrite (proj2 (Hiff name b c) Hbig) in Hdelta. done.
  - apply baseline_loop_raise in Hloop as (-> & name & b & c & Hin & Hc & Hr).
    split; [by intros e [= <-]|]. split; [intros _|by eexists].
    exists name, b, c. apply elem_of_sorted_items in Hin.
    split; [done|]. split; [done|]. by apply (Hiff name).
Qed.

(** ** The gate on the durations *)

Lemma delta_within_tenth (base_ns curr_ns : Z) :
  0 <= curr_ns -> base_ns <= 0 \/ 10 * (curr_ns - base_ns) <= base_ns ->
  exists delta,
    relative_delta base_ns curr_ns = Ok delta /\ is_regression delta = false.
Proof.
  intros Hc Hb. destruct (Z.le_gt_cases base_ns 0) as [Hle|Hpos].
  { rewrite relative_delta_nonpos by done. by exists float_zero. }
  destruct Hb as [|Hb]; [lia|].
  destruct (relative_delta_finite base_ns curr_ns Hc) as [delta Hdelta].
  { assert (2 <= 2 ^ 1023)
      by (change 2 with (2 ^ 1) at 1; apply Z.pow_le_mono_r; lia).
    nia. }
  exists delta. split; [done|].
  destruct (is_regression delta) eqn:Hreg; [|done].
  apply (is_regression_iff base_ns curr_ns delta) in Hreg; [|lia|done].
  change (2 ^ 57) with 144115188075855872 in Hreg. lia.
Qed.

(** X9. The gate in terms of the durations. When no benchmark of both reports
    is more than a tenth above its baseline, the run ends with status 0;
    when one is, with a baseline of at most 2^52, it ends with status 1. *)
Theorem gate_on_durations (baseline current : gmap str Z) :
  ((forall name base_ns curr_ns,
      baseline !! name = Some base_ns -> current !! name = Some curr_ns ->
      0 <= curr_ns
      /\ (base_ns <= 0 \/ 10 * (curr_ns - base_ns) <= base_ns)) ->
   exit_status (compare baseline current).2 = 0)
  /\ ((exists name base_ns curr_ns,
         baseline !! name = Some base_ns /\ current !! name = Some curr_ns
         /\ 0 < base_ns <= 2 ^ 52
         /\ base_ns < 10 * (curr_ns - base_ns)) ->
      exit_status (compare baseline current).2 = 1).
Proof.
  split.
  - intros Hall. destruct (decide (baseline = ∅)) as [->|Hne];
      [by rewrite compare_empty|].
    destruct (compare_finite baseline current Hne)
      as (rows & regs & -> & _ & Hregs).
    { intros name b c Hb Hc. destruct (Hall name b c Hb Hc) as [Hpos Hten].
      destruct (delta_within_tenth b c Hpos Hten) as (delta & ? & _).
      by exists delta. }
    destruct regs as [|[name delta] regs]; [done|]. exfalso.
    destruct (proj1 (Hregs name delta)) as (b & c & Hb & Hc & Hdelta & Hreg);
      [by left|].
    destruct (Hall name b c Hb Hc) as [Hpos Hten].
    destruct (delta_within_tenth b c Hpos Hten) as (delta' & Hdelta' & Hno).
    congruence.
  - intros (name & b & c & Hb & Hc & Hrange & Hslow).
    assert (baseline <> ∅) as Hne by (intros ->; by rewrite lookup_empty in Hb).
    destruct (compare baseline current) as [out t] eqn:Hcmp. cbn [snd].
    destruct t as [|code|e] eqn:Ht; [| |done].
    + destruct (compare_completed baseline current out Return Hne Hcmp)
        as (rows & regs & _ & Hv & Hrows & Hregs); [done|].
      destruct regs as [|r regs]; [|done]. exfalso.
      apply elem_of_sorted_items in Hb.
      apply list_elem_of_lookup_1 in Hb as [i Hi].
      eapply Forall2_lookup_l in Hrows as (row & _ & Hrow); [|exact Hi].
      unfold row_spec in Hrow. cbn in Hrow. rewrite Hc in Hrow.
      destruct Hrow as (delta & Hdelta & _).
      assert ((name, delta) ∈ @nil (str * float)) as Hin; [|by apply elem_of_nil in Hin].
      apply Hregs. exists b, c.
      apply list_elem_of_lookup_2, elem_of_sorted_items in Hi.
      repeat split; try done.
      apply (is_regression_iff b c delta); [lia|done|].
      change (2 ^ 57) with 144115188075855872.
      change (2 ^ 52) with 4503599627370496 in Hrange. lia.
    + destruct (compare_completed baseline current out (SysExit code) Hne Hcmp)
        as (rows & regs & _ & Hv & _); [done|].
      destruct regs; cbn in Hv; [done|]. by injection Hv as ->.
Qed.

(** ** The improvement mark *)

Lemma float_ltb_neg (m k M K : Z) :
  float_ltb (Float true m k) (Float true M K)
  = float_ltb (Float false M K) (Float false m k).
Proof.
  unfold float_ltb, scaled. cbn [fneg fmant fexp]. rewrite (Z.min_comm K k).
  name_term p (2 ^ (k - Z.min k K)). name_term q (2 ^ (K - Z.min k K)).
  destruct (Z.ltb_spec (-1 * m * p) (-1 * M * q)),
    (Z.ltb_spec (1 * M * q) (1 * m * p)); lia || done.
Qed.

Lemma is_faster_iff (base_ns curr_ns : Z) (delta : float) :
  0 < base_ns -> relative_delta base_ns curr_ns = Ok delta ->
  is_faster delta = true
  <-> 14411518807585589 * base_ns < (base_ns - curr_ns) * 2 ^ 58.
Proof.
  intros Hb. rewrite relative_delta_pos by done.
  change (2 ^ 58) with 288230376151711744.
  destruct (round_binary64 _ _) as [[m k]|] eqn:Hround; [|done].
  intros [= <-]. unfold is_faster, float_neg, float_0_05. cbn [fneg fmant fexp negb].
  destruct (Z.ltb_spec curr_ns base_ns) as [Hlt|Hge].
  - rewrite float_ltb_neg.
    rewrite (round_above (Z.abs (curr_ns - base_ns)) base_ns
               7205759403792794 (-57) m k); [|lia|done|done|done|done|done].
    rewrite (eq_refl : exp2 (-57) = 1),
      (eq_refl : exp2 (Z.opp (-57)) = 144115188075855872).
    lia.
  - split; [|lia]. unfold float_ltb, scaled. cbn [fneg fmant fexp].
    rewrite Z.ltb_lt. intros Habs. exfalso.
    assert (0 <= m) as Hm.
    { destruct (Z.eq_dec curr_ns base_ns) as [->|Hne].
      - rewrite Z.sub_diag in Hround. by injection Hround as <- <-.
      - eapply round_binary64_nonneg; [|done..]. lia. }
    assert (0 < 2 ^ (k - Z.min k (-57))) by (apply Z.pow_pos_nonneg; lia).
    assert (0 < 2 ^ (-57 - Z.min k (-57))) by (apply Z.pow_pos_nonneg; lia).
    nia.
Qed.

(** X10. For a benchmark of both reports with a positive baseline, the row is
    marked faster exactly when the delta is below -0.05, as binary64
    numbers, and then it is no regression. On the durations: a current
    duration exactly a twentieth below the baseline is not marked, and one
    more than a twentieth below is, for every baseline up to 2^52; a
    current duration at or above the baseline never is. *)
Theorem faster_threshold_strict (base_ns curr_ns : Z) (delta : float) :
  0 < base_ns -> relative_delta base_ns curr_ns = Ok delta ->
  (is_faster delta = true
   <-> (float_Q delta < float_Q (float_neg float_0_05))%Q)
  /\ (marker_of delta = FasterMark <-> is_faster delta = true)
  /\ (20 * (base_ns - curr_ns) = base_ns -> is_faster delta = false)
  /\ (base_ns < 20 * (base_ns - curr_ns) -> base_ns <= 2 ^ 52 ->
      is_faster delta = true)
  /\ (base_ns <= curr_ns -> is_faster delta = false).
Proof.
  intros Hb Hdelta.
  pose proof (is_faster_iff base_ns curr_ns delta Hb Hdelta) as Hiff.
  change (2 ^ 58) with 288230376151711744 in Hiff.
  change (2 ^ 52) with 4503599627370496.
  split; [apply float_ltb_Q|]. split; [|split; [|split]].
  - unfold marker_of. destruct (is_regression delta) eqn:Hreg.
    + split; [done|]. intros Hfast. exfalso.
      apply float_ltb_Q in Hreg, Hfast.
      assert (float_Q REGRESSION_THRESHOLD < float_Q (float_neg float_0_05))%Q
        as Habs by (eapply Qlt_trans; [exact Hreg|exact Hfast]).
      by vm_compute in Habs.
    + by destruct (is_faster delta).
  - intros Heq. destruct (is_faster delta); [|done].
    assert (14411518807585589 * base_ns
            < (base_ns - curr_ns) * 288230376151711744) by by apply Hiff.
    lia.
  - intros Hgt Hsmall. apply Hiff. lia.
  - intros Hge. destruct (is_faster delta); [|done].
    assert (14411518807585589 * base_ns
            < (base_ns - curr_ns) * 288230376151711744) by by apply Hiff.
    lia.
Qed.

(** * Further properties of the parser *)

Lemma parse_loop_ok_digits (lines : list str) (acc m : gmap str Z) :
  parse_loop lines acc = Ok m ->
  forall line name number,
    line ∈ lines -> line_entry line = Some (name, number) ->
    int_reads number.
Proof.
  revert acc. induction lines as [|l lines IH]; intros acc; simpl.
  - intros _ line name number Hin. by apply elem_of_nil in Hin.
  - pose proof (line_entry_groups l) as Hentry.
    destruct (re_match bencher_line l) as [mt|] eqn:Hm.
    + pose proof (re_match_shape _ _ Hm)
        as (? & ? & ? & ? & ? & ? & ? & _ & _ & _ & _ & _ & _ & _ & [_ Hnum]
            & _).
      destruct (py_int (strip_commas (group mt 2))) as [ns|e] eqn:Hint; [|done].
      intros Hloop line name number [->|Hin]%elem_of_cons He.
      * rewrite Hentry in He. injection He as <- <-.
        by apply py_int_Ok in Hint as [? _].
      * by eapply IH.
    + intros Hloop line name number [->|Hin]%elem_of_cons He.
      * by rewrite Hentry in He.
      * by eapply IH.
Qed.

Lemma int_reads_not (number : str) :
  ~ int_reads number
  <-> Forall (fun c => c = comma) number
      \/ int_max_str_digits < Z.of_nat (length (strip_commas number)).
Proof.
  unfold int_reads. rewrite <- strip_commas_nil.
  destruct (decide (strip_commas number = [])) as [Hnil|Hne].
  - split; [by left|]. by intros _ [? _].
  - split.
    + intros Hno. right.
      destruct (Z.le_gt_cases (Z.of_nat (length (strip_commas number)))
                  int_max_str_digits); [|lia].
      by destruct Hno.
    + intros [?|Hlong] [_ Hshort]; [done|lia].
Qed.

(** X2. [parse_bencher] raises exactly when a line has the shape with a
    number that [int] does not read: one made of commas alone, or one of
    more than 4300 digits. What it raises is [ValueError]. *)
Theorem parse_bencher_raises_iff (lines : list str) :
  (forall e, parse_bencher lines = Raise e -> e = ValueError)
  /\ ((exists e, parse_bencher lines = Raise e)
      <-> exists line name number,
            line ∈ lines /\ line_entry line = Some (name, number)
            /\ (Forall (fun c => c = comma) number
                \/ int_max_str_digits
                   < Z.of_nat (length (strip_commas number)))).
Proof.
  unfold parse_bencher. split.
  - by intros e [-> _]%parse_loop_raise.
  - split.
    + intros [e (_ & line & name & number & Hin & He & Hno)%parse_loop_raise].
      exists line, name, number. by rewrite <- int_reads_not.
    + intros (line & name & number & Hin & He & Hno%int_reads_not).
      destruct (parse_loop lines ∅) as [m|e] eqn:Hloop; [|by exists e].
      by destruct Hno, (parse_loop_ok_digits _ _ _ Hloop line name number).
Qed.

(** X3. A line has an entry exactly when it has the shape of the pattern:
    "test", white space, a name without white space, white space, any text
    without a newline, white space, "bench:", white space, digits and
    commas, white space, "ns/iter". The entry has that shape, and its
    name is the name of every way to see the shape in the line. *)
Theorem line_entry_shape (line : str) :
  (is_Some (line_entry line) <-> exists name number, line_shape line name number)
  /\ (forall n d, line_entry line = Some (n, d) -> line_shape line n d)
  /\ (forall n d name number,
        line_entry line = Some (n, d) -> line_shape line name number ->
        n = name).
Proof.
  split; [|split].
  - split.
    + intros [[n d] He]. exists n, d. by apply line_entry_Some.
    + intros (name & number & Hshape).
      destruct (line_entry line) eqn:He; [done|].
      by destruct (proj1 (line_entry_None line) He name number).
  - apply line_entry_Some.
  - intros n d name number He%line_entry_Some Hshape.
    destruct Hshape as (ws1 & ws2 & mid & ws3 & ws4 & ws5 & tl & Heq & H1
                        & Hn & H2 & _).
    by destruct (line_shape_name ws1 name ws2 _ line n d Heq H1 Hn H2 He)
      as (? & ? & -> & _).
Qed.

(** ** Numbers written and read *)

Lemma digits_value_uint_acc (u : Decimal.uint) (acc : positive) :
  digits_value (Z.pos acc) (uint_digits u)
  = Some (Z.pos (Pos.of_uint_acc u acc)).
Proof.
  revert acc. induction u as [|u IH|u IH|u IH|u IH|u IH|u IH|u IH|u IH|u IH|u IH];
    intros acc; [done|..];
    cbn [uint_digits digits_value Pos.of_uint_acc];
    match goal with
    | |- context [to_decimal ?c] =>
        let d := eval vm_compute in (to_decimal c) in
        change (to_decimal c) with d
    end;
    cbv iota beta; rewrite <- IH; f_equal; lia.
Qed.

Lemma digits_value_uint (u : Decimal.uint) :
  digits_value 0 (uint_digits u) = Some (Z.of_N (Pos.of_uint u)).
Proof.
  induction u as [|u IH|u IH|u IH|u IH|u IH|u IH|u IH|u IH|u IH|u IH];
    [done|exact IH|..];
    cbn [uint_digits digits_value Pos.of_uint];
    match goal with
    | |- context [to_decimal ?c] =>
        let d := eval vm_compute in (to_decimal c) in
        change (to_decimal c) with d
    end;
    cbv iota beta; cbn [Z.of_N]; rewrite <- digits_value_uint_acc; f_equal.
Qed.

Lemma uint_digits_no_comma (u : Decimal.uint) :
  Forall (fun c => in_class DigitOrComma c = true /\ c <> comma)
         (uint_digits u).
Proof. induction u; by repeat constructor. Qed.

Lemma dec_nonempty (n : Z) : dec n <> [].
Proof.
  unfold dec. destruct (Z.to_N n) as [|p]; [done|]. cbn [N.to_uint].
  pose proof (DecimalPos.Unsigned.to_uint_nonnil p) as Hnil.
  by destruct (Pos.to_uint p).
Qed.

Lemma strip_commas_sep3 (k : nat) (rd : str) :
  strip_commas (sep3 k rd) = strip_commas rd.
Proof.
  unfold strip_commas. revert k. induction rd as [|d rd IH]; intros k; [done|].
  cbn [sep3]. destruct (k =? 3)%nat.
  - rewrite filter_cons_False by (by intros []).
    by rewrite !filter_cons, IH.
  - by rewrite !filter_cons, IH.
Qed.

Lemma strip_commas_rev (s : str) : strip_commas (rev s) = rev (strip_commas s).
Proof.
  unfold strip_commas. induction s as [|c s IH]; [done|].
  cbn [rev]. rewrite filter_app, IH, !filter_cons, filter_nil.
  destruct (decide (c ≠ comma)); [done|]. by rewrite app_nil_r.
Qed.

Lemma sep3_class (k : nat) (rd : str) :
  Forall (fun c => in_class DigitOrComma c = true) rd ->
  Forall (fun c => in_class DigitOrComma c = true) (sep3 k rd).
Proof.
  intros Hrd. revert k. induction Hrd as [|d rd Hd _ IH]; intros k;
    [constructor|].
  cbn [sep3]. destruct (k =? 3)%nat; by repeat constructor.
Qed.

Lemma sep3_not_space (k : nat) (rd : str) :
  Forall (fun c => is_space c = false) rd ->
  Forall (fun c => is_space c = false) (sep3 k rd).
Proof.
  intros Hrd. revert k. induction Hrd as [|d rd Hd _ IH]; intros k;
    [constructor|].
  cbn [sep3]. destruct (k =? 3)%nat; by repeat constructor.
Qed.

Lemma uint_digits_not_space (u : Decimal.uint) :
  Forall (fun c => is_space c = false) (uint_digits u).
Proof. induction u; by repeat constructor. Qed.

(** The text [format(n, ',')]: digits and commas, no white space, and the
    digits of [str(n)] between the commas. *)
Lemma with_commas_text (n : Z) :
  0 <= n ->
  run_of DigitOrComma (with_commas n)
  /\ Forall (fun c => is_space c = false) (with_commas n)
  /\ strip_commas (with_commas n) = dec n.
Proof.
  intros Hn. unfold with_commas.
  destruct (Z.ltb_spec n 0) as [|_]; [lia|]. rewrite Z.abs_eq by lia.
  cbn [app]. pose proof (uint_digits_no_comma (N.to_uint (Z.to_N n))) as Hd.
  fold (dec n) in Hd. pose proof (dec_nonempty n) as Hne.
  split; [split|split].
  - intros Hnil. apply (f_equal (@length N)) in Hnil.
    rewrite length_rev in Hnil. destruct (rev (dec n)) as [|d rd] eqn:Hrev.
    + apply (f_equal (@length N)) in Hrev. rewrite length_rev in Hrev.
      by destruct (dec n).
    + cbn in Hnil. done.
  - apply Forall_rev, sep3_class, Forall_rev.
    eapply Forall_impl; [exact Hd|]. by intros c [? _].
  - apply Forall_rev, sep3_not_space, Forall_rev, uint_digits_not_space.
  - rewrite strip_commas_rev, strip_commas_sep3, <- strip_commas_rev,
      rev_involutive.
    unfold strip_commas. apply filter_all.
    eapply Forall_impl; [exact Hd|]. by intros c [_ ?].
Qed.

Lemma dec_value (n : Z) : 0 <= n -> digits_value 0 (dec n) = Some n.
Proof.
  intros Hn. unfold dec. rewrite digits_value_uint.
  change (Pos.of_uint (N.to_uint (Z.to_N n)))
    with (N.of_uint (N.to_uint (Z.to_N n))).
  rewrite DecimalN.Unsigned.of_to. f_equal. lia.
Qed.

(** [str(n)] has no more digits than a power of ten above [n]. *)
Lemma dec_length (n k : Z) :
  0 <= n < 10 ^ k -> 0 < k -> Z.of_nat (length (dec n)) <= k.
Proof.
  intros [Hn Hlt] Hk. pose proof (dec_value n Hn) as Hval. unfold dec in *.
  pose proof (DecimalN.Unsigned.to_of (N.to_uint (Z.to_N n))) as Hnorm.
  rewrite DecimalN.Unsigned.of_to in Hnorm.
  assert (forall (c : N) (d : Z) (u : Decimal.uint),
            to_decimal c = Some d -> 1 <= d ->
            digits_value 0 (c :: uint_digits u) = Some n ->
            Z.of_nat (length (c :: uint_digits u)) <= k) as Hhead.
  { intros c d u Hc Hd Hv. cbn [digits_value] in Hv. rewrite Hc in Hv.
    apply digits_value_bound in Hv as [Hlo _]; [|lia].
    cbn [length]. rewrite Nat2Z.inj_succ.
    destruct (Z.le_gt_cases k (Z.of_nat (length (uint_digits u))))
      as [Hle|Hgt]; [|lia].
    assert (10 ^ k <= 10 ^ Z.of_nat (length (uint_digits u)))
      by (apply Z.pow_le_mono_r; lia).
    assert (0 < 10 ^ Z.of_nat (length (uint_digits u)))
      by (apply Z.pow_pos_nonneg; lia).
    nia. }
  unfold Decimal.unorm in Hnorm.
  destruct (N.to_uint (Z.to_N n)) as [|u|u|u|u|u|u|u|u|u|u] eqn:Hu;
    [cbn; lia| |by eapply Hhead; [| |exact Hval]..].
  cbn [Decimal.nzhead] in Hnorm.
  pose proof (DecimalFacts.nb_digits_nzhead u) as Hnb.
  destruct (Decimal.nzhead u) as [|u'|u'|u'|u'|u'|u'|u'|u'|u'|u'] eqn:Hz;
    try discriminate Hnorm.
  - injection Hnorm as Hnil. subst u. cbn. lia.
  - injection Hnorm as ->. cbn [Decimal.nb_digits] in Hnb. lia.
Qed.

Lemma py_int_dec (n : Z) :
  0 <= n < 10 ^ int_max_str_digits -> py_int (dec n) = Ok n.
Proof.
  intros Hn. pose proof (dec_length n int_max_str_digits Hn eq_refl) as Hlen.
  unfold py_int. pose proof (dec_nonempty n) as Hne.
  destruct (dec n) as [|c s] eqn:Hdec; [done|]. rewrite <- Hdec in *.
  destruct (Z.ltb_spec int_max_str_digits (Z.of_nat (length (dec n))));
    [lia|].
  by rewrite dec_value by lia.
Qed.

Lemma parse_one_line (line name number : str) (v : Z) :
  line_entry line = Some (name, number) ->
  py_int (strip_commas number) = Ok v ->
  parse_bencher [line] = Ok {[name := v]}.
Proof.
  unfold parse_bencher. cbn [parse_loop]. rewrite line_entry_groups.
  destruct (re_match bencher_line line) as [mt|]; [|done].
  intros [= <- <-] ->. by rewrite insert_empty.
Qed.

(** ** The line of a duration *)

(** The parts of a line of the shape behind its name. *)
Lemma line_shape_rest (ws1 name ws2 rest line name' number : str) :
  line = lit "test" ++ ws1 ++ name ++ ws2 ++ rest ->
  run_of Space ws1 -> run_of NotSpace name -> run_of Space ws2 ->
  line_shape line name' number ->
  name' = name
  /\ exists ws2' mid ws3 ws4 ws5 tl,
       ws2 ++ rest
       = ws2' ++ mid ++ ws3 ++ lit "bench:" ++ ws4 ++ number ++ ws5
         ++ lit "ns/iter" ++ tl
       /\ run_of Space ws4 /\ run_of DigitOrComma number
       /\ run_of Space ws5.
Proof.
  intros -> H1 Hn H2
    (ws1' & ws2' & mid & ws3 & ws4 & ws5 & tl & Heq & H1' & Hn' & H2'
     & Hmid & H3 & H4 & Hnum & H5).
  apply app_inv_head in Heq.
  remember (mid ++ ws3 ++ lit "bench:" ++ ws4 ++ number ++ ws5
              ++ lit "ns/iter" ++ tl) as rest' eqn:Hrest'.
  destruct (run_of_head _ _ Hn) as (x & n1 & -> & Hx & Hn1).
  destruct (run_of_head _ _ Hn') as (x' & n1' & -> & Hx' & Hn1').
  destruct (run_of_head _ _ H2) as (w & v & -> & Hw & Hv).
  destruct (run_of_head _ _ H2') as (w' & v' & -> & Hw' & Hv').
  cbn [in_class] in Hx, Hx', Hw, Hw'. apply negb_true_iff in Hx, Hx'.
  destruct H1 as [_ H1], H1' as [_ H1'].
  cbn [app] in Heq.
  destruct (run_unique is_space ws1 ws1' x x' _ _ H1 H1' Hx Hx' Heq)
    as [-> [= -> Heq2]].
  destruct (run_unique (fun c => negb (is_space c)) n1 n1' w w'
              (v ++ rest) (v' ++ rest')) as [-> [= -> Heq3]]; try done.
  { by rewrite Hw. } { by rewrite Hw'. }
  split; [done|]. exists (w' :: v'), mid, ws3, ws4, ws5, tl.
  split; [|done]. cbn [app]. by rewrite Heq3, Hrest'.
Qed.

Lemma forallb_Forall {A : Type} (f : A -> bool) (l : list A) :
  forallb f l = true -> Forall (fun x => f x = true) l.
Proof.
  induction l as [|x l IH]; [constructor|]. cbn [forallb].
  intros [? ?]%andb_true_iff. constructor; [done|by apply IH].
Qed.

(** A result line as the bencher format has it, with a name and a number
    between single spaces: the entry of the line is that name with that
    number. *)
Lemma printed_line_entry (name number : str) :
  run_of NotSpace name -> run_of DigitOrComma number ->
  Forall (fun c => is_space c = false) number ->
  line_entry (lit "test " ++ name ++ lit " ... bench: " ++ number
              ++ lit " ns/iter")
  = Some (name, number).
Proof.
  intros Hname Hnum Hns.
  remember (lit "test " ++ name ++ lit " ... bench: " ++ number
            ++ lit " ns/iter") as line eqn:Hline.
  assert (line = lit "test" ++ lit " " ++ name ++ lit " "
                 ++ (lit "..." ++ lit " " ++ lit "bench:" ++ lit " " ++ number
                     ++ lit " " ++ lit "ns/iter" ++ [])) as Hparts.
  { rewrite Hline.
    change (lit "test ") with (lit "test" ++ lit " ").
    change (lit " ... bench: ")
      with (lit " " ++ lit "..." ++ lit " " ++ lit "bench:" ++ lit " ").
    change (lit " ns/iter") with (lit " " ++ lit "ns/iter").
    by rewrite <- !app_assoc, app_nil_r. }
  assert (run_of Space (lit " ")) as Hsp by (by split; [|repeat constructor]).
  assert (line_shape line name number) as Hshape.
  { exists (lit " "), (lit " "), (lit "..."), (lit " "), (lit " "), (lit " "), [].
    split; [exact Hparts|]. split; [exact Hsp|]. split; [exact Hname|].
    split; [exact Hsp|]. split; [by repeat constructor|].
    split; [exact Hsp|]. split; [exact Hsp|]. by split. }
  destruct (line_entry line) as [[name' number']|] eqn:He.
  2:{ by destruct (proj1 (line_entry_None line) He name number). }
  apply line_entry_Some in He.
  destruct (line_shape_rest _ _ _ _ _ _ _ Hparts Hsp Hname Hsp He)
    as (-> & ws2' & mid & ws3 & ws4 & ws5 & tl & Heq & H4 & [Hne' Hnum']
        & H5).
  f_equal. f_equal.
  destruct (run_of_last _ _ H4) as (ws4' & w & -> & Hw & _).
  destruct (run_of_head _ _ H5) as (w5 & ws5' & -> & Hw5 & _).
  cbn [in_class] in Hw, Hw5.
  remember (lit " ... bench: ") as P eqn:HP.
  remember (lit " ns/iter") as S eqn:HS.
  assert (Forall (fun c => negb (in_class DigitOrComma c) = true) P) as HPd
    by (subst P; by apply forallb_Forall).
  assert (Forall (fun c => negb (in_class DigitOrComma c) = true) S) as HSd
    by (subst S; by apply forallb_Forall).
  assert (exists S', S = space :: S') as [S' HS'] by (subst S; by eexists).
  assert (lit " " ++ lit "..." ++ lit " " ++ lit "bench:" ++ lit " " ++ number
          ++ lit " " ++ lit "ns/iter" ++ [] = P ++ number ++ S) as Hconc.
  { subst P S.
    change (lit " ... bench: ")
      with (lit " " ++ lit "..." ++ lit " " ++ lit "bench:" ++ lit " ").
    change (lit " ns/iter") with (lit " " ++ lit "ns/iter").
    by rewrite <- !app_assoc, app_nil_r. }
  rewrite Hconc in Heq. clear Hconc Hparts Hshape He Hline HP HS.
  remember (ws2' ++ mid ++ ws3 ++ lit "bench:" ++ ws4') as A1 eqn:HA1.
  assert (P ++ number ++ S
          = (A1 ++ [w]) ++ number' ++ (w5 :: ws5') ++ lit "ns/iter" ++ tl)
    as Heq' by (rewrite Heq, HA1; by rewrite <- !app_assoc).
  clear Heq HA1.
  (* the numbers at the same place *)
  assert (number' ++ (w5 :: ws5') ++ lit "ns/iter" ++ tl = number ++ S ->
          number' = number) as Hsame.
  { rewrite HS'. cbn [app]. intros Hn.
    apply app_eq_inv in Hn as [(j & -> & Hj)|(j & -> & Hj)].
    - destruct j as [|y j]; [by rewrite app_nil_r|]. exfalso.
      injection Hj as <- _. apply Forall_app in Hnum' as [_ Hj].
      by inversion_clear Hj.
    - destruct j as [|y j]; [by rewrite app_nil_r|]. exfalso.
      injection Hj as <- _. apply Forall_app in Hns as [_ Hj].
      inversion_clear Hj. congruence. }
  destruct number' as [|x number'']; [done|].
  apply app_eq_inv in Heq' as [(k & -> & Hk)|(k & Hk & Hk')].
  - (* [bench:] and its white space end in the text before the number *)
    destruct k as [|y k]; [by apply Hsame|]. exfalso.
    cbn [app] in Hk. injection Hk as <- Hk. apply Forall_app in HPd as [_ HPd].
    inversion_clear HPd as [|? ? Hx _]. inversion_clear Hnum' as [|? ? Hx' _].
    by rewrite Hx' in Hx.
  - (* they end behind it *)
    destruct (decide (k = [])) as [->|Hkne].
    { rewrite app_nil_l in Hk'. symmetry in Hk'. by apply Hsame. }
    exfalso. destruct (exists_last Hkne) as (k' & w' & ->).
    rewrite app_assoc in Hk. apply app_inj_tail in Hk as [_ ->].
    apply app_eq_inv in Hk' as [(j & -> & Hj)|(j & Hj & Hj')].
    + apply Forall_app in Hns as [Hns _]. apply Forall_app in Hns as [_ Hns].
      inversion_clear Hns. congruence.
    + rewrite Hj' in HSd. apply Forall_app in HSd as [_ HSd].
      cbn [app] in HSd. inversion_clear HSd as [|? ? Hx _].
      inversion_clear Hnum' as [|? ? Hx' _]. by rewrite Hx' in Hx.
Qed.

(** X4. Durations written with thousands separators read back: for a name
    without white space and an integer [n] of 4300 digits at most, the
    result line of the name with the number [format(n, ',')], the form
    in which the report prints a duration, has the entry of that name
    with that text, and [parse_bencher] maps the name to [n]. *)
Theorem with_commas_reads_back (name : str) (n : Z) :
  run_of NotSpace name -> 0 <= n < 10 ^ int_max_str_digits ->
  line_entry (lit "test " ++ name ++ lit " ... bench: " ++ with_commas n
              ++ lit " ns/iter")
  = Some (name, with_commas n)
  /\ parse_bencher [lit "test " ++ name ++ lit " ... bench: "
                    ++ with_commas n ++ lit " ns/iter"]
     = Ok {[name := n]}.
Proof.
  intros Hname Hn.
  destruct (with_commas_text n) as (Hrun & Hns & Hstrip); [lia|].
  pose proof (printed_line_entry name (with_commas n) Hname Hrun Hns)
    as Hentry.
  split; [exact Hentry|].
  apply (parse_one_line _ _ _ _ Hentry). rewrite Hstrip. by apply py_int_dec.
Qed.

(** ** The skipped comparison *)

Lemma last_entry_is_Some (lines : list str) (acc m : gmap str Z)
    (line name number : str) :
  parse_loop lines acc = Ok m ->
  line ∈ lines -> line_entry line = Some (name, number) ->
  is_Some (last_entry name lines).
Proof.
  revert acc. induction lines as [|l lines IH]; intros acc Hloop Hin He.
  { by apply elem_of_nil in Hin. }
  cbn [parse_loop] in Hloop. cbn [last_entry].
  pose proof (line_entry_groups l) as Hentry.
  destruct (last_entry name lines) as [v|] eqn:Hlast; [done|].
  assert (forall acc', parse_loop lines acc' = Ok m -> line = l) as Hhere.
  { intros acc' Hloop'. apply elem_of_cons in Hin as [->|Hin]; [done|].
    destruct (IH acc' Hloop' Hin He) as [? ?]. done. }
  destruct (re_match bencher_line l) as [mt|].
  - destruct (py_int (strip_commas (group mt 2))) as [ns|e] eqn:Hint; [|done].
    rewrite (Hhere _ Hloop) in He. rewrite Hentry in *.
    injection He as Hn Hd. rewrite decide_True, Hint by done. done.
  - rewrite (Hhere _ Hloop) in He. by rewrite He in Hentry.
Qed.

Lemma parse_bencher_empty (lines : list str) (m : gmap str Z) :
  parse_bencher lines = Ok m ->
  m = ∅ <-> Forall (fun line => line_entry line = None) lines.
Proof.
  unfold parse_bencher. intros Hloop. rewrite Forall_forall. split.
  - intros -> line Hin. destruct (line_entry line) as [[name number]|] eqn:He;
      [|done].
    destruct (last_entry_is_Some _ _ _ _ _ _ Hloop Hin He) as [v Hv].
    pose proof (parse_loop_ok _ _ _ Hloop name) as Hlook.
    by rewrite Hv, lookup_empty in Hlook.
  - intros Hno. apply map_eq. intros name.
    rewrite (parse_loop_ok _ _ _ Hloop name), last_entry_None by done.
    done.
Qed.

(** X11. With two reports that parse, the comparison is skipped exactly when no
    line of the baseline file is a result line: then the run opens both
    files, prints the notice alone and ends with status 0, whatever the
    current report holds. With a result line in the baseline file the
    notice is not printed, and the title and the heading of the table
    are. *)
Theorem skip_iff_no_baseline_entry (prog path1 path2 : str) (fs : files)
    (lines1 lines2 : list str) (baseline current : gmap str Z) :
  fs path1 = Ok lines1 -> parse_bencher lines1 = Ok baseline ->
  fs path2 = Ok lines2 -> parse_bencher lines2 = Ok current ->
  (Forall (fun line => line_entry line = None) lines1 ->
   main prog [path1; path2] fs
   = ([Open path1; Open path2; Print SkipNotice], SysExit 0))
  /\ (Print SkipNotice ∈ (main prog [path1; path2] fs).1
      <-> Forall (fun line => line_entry line = None) lines1)
  /\ (~ Forall (fun line => line_entry line = None) lines1 ->
      exists rest,
        (main prog [path1; path2] fs).1
        = [Open path1; Open path2; Print Title; Print Header; Print Rule]
          ++ rest).
Proof.
  intros Hf1 Hp1 Hf2 Hp2.
  pose proof (parse_bencher_empty lines1 baseline Hp1) as Hempty.
  assert (main prog [path1; path2] fs
          = ([Open path1; Open path2]
             ++ map Print (compare baseline current).1,
             (compare baseline current).2)) as Hmain.
  { cbn [main]. rewrite Hf1, Hp1, Hf2, Hp2.
    by destruct (compare baseline current). }
  split; [|split].
  - intros ->%Hempty. by rewrite Hmain, compare_empty.
  - rewrite <- Hempty, Hmain. cbn [fst]. split.
    + intros Hin. do 2 (apply elem_of_cons in Hin as [?|Hin]; [done|]).
      apply list_elem_of_fmap in Hin as (l & [= <-] & Hin).
      apply elem_of_compare in Hin
        as [[? _]|[Hin|[(item & _ & Hrow)|[Hin|[[? ?]|(? & ? & ?)]]]]];
        [done| | | |done..].
      * exfalso. repeat (apply elem_of_cons in Hin as [?|Hin]; [done|]).
        by apply elem_of_nil in Hin.
      * exfalso. unfold row_spec in Hrow.
        destruct (current !! item.1); [by destruct Hrow as (? & _ & ?)|done].
      * exfalso. unfold new_rows in Hin.
        by apply list_elem_of_fmap in Hin as (? & ? & _).
    + intros ->. rewrite compare_empty. cbn. do 2 right. by left.
  - rewrite <- Hempty, Hmain. intros Hne. cbn [fst]. unfold compare.
    rewrite decide_False by done.
    destruct (baseline_loop current (sorted_items baseline) [])
      as [rows [regs|e]]; [destruct regs|]; cbn [fst]; eexists;
      rewrite ?map_app; cbn [map app]; reflexivity.
Qed.

(** ** Instances *)

Lemma parse_bencher_digits_witness :
  exists m,
    parse_bencher scenario_baseline = Ok m
    /\ forall name, m !! name = last_entry name scenario_baseline.
Proof.
  destruct (parse_bencher_digits scenario_baseline) as (m & Hm & Hlook & _).
  - intros line name number Hin He. unfold scenario_baseline in Hin.
    apply elem_of_cons in Hin as [->|Hin];
      [|apply elem_of_cons in Hin as [->|Hin];
        [|by apply elem_of_nil in Hin]];
      vm_compute in He; injection He as <- <-; by split; vm_compute.
  - by exists m.
Defined.

Lemma rows_hold_the_reports_witness :
  relative_delta 1000 1200 = Ok (Float false 7205759403792794 (-55))
  /\ RegressionMark = marker_of (Float false 7205759403792794 (-55)).
Proof.
  pose proof (rows_hold_the_reports {[lit "foo" := 1000]} {[lit "foo" := 1200]}
                (MatchedRow (lit "foo") 1000 1200
                   (Float false 7205759403792794 (-55)) RegressionMark))
    as Hrow.
  cbv beta iota in Hrow. destruct Hrow as (_ & _ & Hdelta & Hmark).
  - vm_compute. do 3 right. by left.
  - by split.
Defined.

Lemma summary_lists_flagged_witness :
  omap listed (compare {[lit "foo" := 1000]} {[lit "foo" := 1200]}).1
  = omap flagged (compare {[lit "foo" := 1000]} {[lit "foo" := 1200]}).1.
Proof.
  destruct (summary_lists_flagged {[lit "foo" := 1000]} {[lit "foo" := 1200]})
    as (Hlisted & _).
  - apply map_non_empty_singleton.
  - intros e. by vm_compute.
  - exact Hlisted.
Defined.

Lemma gate_on_durations_witness :
  exit_status (compare {[lit "foo" := 1000]} {[lit "foo" := 1200]}).2 = 1
  /\ exit_status (compare {[lit "foo" := 1000]} {[lit "foo" := 1100]}).2 = 0.
Proof.
  split.
  - apply (proj2 (gate_on_durations {[lit "foo" := 1000]}
                    {[lit "foo" := 1200]})).
    exists (lit "foo"), 1000, 1200.
    split; [reflexivity|]. split; [reflexivity|].
    split; [split; [lia|by vm_compute]|lia].
  - apply (proj1 (gate_on_durations {[lit "foo" := 1000]}
                    {[lit "foo" := 1100]})).
    intros name base_ns curr_ns
      [<- <-]%lookup_singleton_Some [_ <-]%lookup_singleton_Some. lia.
Defined.

Lemma faster_threshold_strict_witness :
  is_faster (Float true 7205759403792794 (-56)) = true
  /\ marker_of (Float true 7205759403792794 (-56)) = FasterMark.
Proof.
  destruct (faster_threshold_strict 1000 900 (Float true 7205759403792794 (-56)))
    as (_ & Hmark & _ & Hfast & _).
  - lia.
  - reflexivity.
  - assert (is_faster (Float true 7205759403792794 (-56)) = true) as Hf
      by (apply Hfast; [lia|by vm_compute]).
    split; [exact Hf|by apply Hmark].
Defined.

Lemma with_commas_reads_back_witness :
  with_commas 1234567 = lit "1,234,567"
  /\ parse_bencher [lit "test " ++ lit "foo" ++ lit " ... bench: "
                    ++ with_commas 1234567 ++ lit " ns/iter"]
     = Ok {[lit "foo" := 1234567]}.
Proof.
  split; [reflexivity|].
  apply (with_commas_reads_back (lit "foo") 1234567).
  - by split; [|repeat constructor].
  - split; [lia|]. by vm_compute.
Defined.

Lemma skip_iff_no_baseline_entry_witness :
  main (lit "bench_compare.py") paths
    (two_files [lit "no benchmark here"] scenario_current)
  = ([Open (lit "baseline.txt"); Open (lit "current.txt"); Print SkipNotice],
     SysExit 0).
Proof.
  destruct (skip_iff_no_baseline_entry (lit "bench_compare.py")
              (lit "baseline.txt") (lit "current.txt")
              (two_files [lit "no benchmark here"] scenario_current)
              [lit "no benchmark here"] scenario_current
              ∅ {[lit "foo" := 1200; lit "bar" := 480]})
    as (Hskip & _).
  - reflexivity.
  - reflexivity.
  - reflexivity.
  - by vm_compute.
  - apply Hskip. by repeat constructor.
Defined.

(** * The template adaptation script *)

(** ** The scan of [str.replace] *)

Lemma strip_prefix_prefix (l s : str) :
  is_Some (strip_prefix l s) <-> l `prefix_of` s.
Proof.
  split.
  - intros [rest Hrest]. apply strip_prefix_Some in Hrest. by exists rest.
  - intros [rest ->]. exists rest. by apply strip_prefix_Some.
Qed.

Lemma strip_prefix_None (l s : str) :
  strip_prefix l s = None <-> ~ l `prefix_of` s.
Proof. by rewrite <- strip_prefix_prefix, eq_None_not_Some. Qed.

Lemma replace_from_skip (old new x rest : str) :
  replace_from old new (length x) (x ++ rest) = replace_from old new 0 rest.
Proof. induction x as [|c x IH]; [done|]. exact IH. Qed.

Lemma str_replace_nil (old new : str) :
  old <> [] -> str_replace old new [] = [].
Proof. by destruct old. Qed.

Lemma str_replace_occurrence (old new rest : str) :
  old <> [] ->
  str_replace old new (old ++ rest) = new ++ str_replace old new rest.
Proof.
  destruct old as [|c old]; [done|]. intros _. unfold str_replace.
  cbn [app replace_from].
  rewrite (proj2 (strip_prefix_Some (c :: old) (c :: old ++ rest) rest) eq_refl).
  cbn [length]. replace (S (length old) - 1)%nat with (length old) by lia.
  by rewrite replace_from_skip.
Qed.

Lemma str_replace_other (old new : str) (c : N) (s : str) :
  old <> [] -> ~ old `prefix_of` c :: s ->
  str_replace old new (c :: s) = c :: str_replace old new s.
Proof.
  destruct old as [|d old]; [done|]. intros _ Hp%strip_prefix_None.
  unfold str_replace. cbn [replace_from]. by rewrite Hp.
Qed.

(** Induction along the scan. *)
Lemma scan_ind (old : str) (Hold : old <> []) (P : str -> Prop) :
  P [] ->
  (forall rest, P rest -> P (old ++ rest)) ->
  (forall c s, ~ old `prefix_of` c :: s -> P s -> P (c :: s)) ->
  forall s, P s.
Proof.
  intros Hnil Hocc Hother s.
  remember (length s) as n eqn:Hn. revert s Hn.
  induction n as [n IH] using lt_wf_ind. intros s ->.
  destruct s as [|c s]; [done|].
  destruct (strip_prefix old (c :: s)) as [rest|] eqn:Hp.
  - apply strip_prefix_Some in Hp. rewrite Hp.
    apply Hocc, (IH (length rest)); [|done].
    rewrite Hp, length_app. destruct old; [done|]. cbn. lia.
  - apply strip_prefix_None in Hp. apply Hother; [done|].
    apply (IH (length s)); [cbn; lia|done].
Qed.

(** ** Occurrences *)

Lemma occurs_prefix (k s : str) : k `prefix_of` s -> occurs k s.
Proof. intros [b ->]. by exists [], b. Qed.

Lemma occurs_cons (k : str) (c : N) (s : str) :
  occurs k (c :: s) <-> k `prefix_of` c :: s \/ occurs k s.
Proof.
  split.
  - intros ([|d a] & b & Heq).
    + left. by exists b.
    + right. injection Heq as -> ->. by exists a, b.
  - intros [Hp|(a & b & ->)]; [by apply occurs_prefix|]. by exists (c :: a), b.
Qed.

Lemma occurs_app_l (k x s : str) : occurs k s -> occurs k (x ++ s).
Proof. intros (a & b & ->). exists (x ++ a), b. by rewrite <- app_assoc. Qed.

Lemma occurs_app_r (k s y : str) : occurs k s -> occurs k (s ++ y).
Proof. intros (a & b & ->). exists a, (b ++ y). by rewrite <- !app_assoc. Qed.

Lemma occurs_trans (k m s : str) : occurs k m -> occurs m s -> occurs k s.
Proof. intros (a & b & ->) (c & d & ->). by apply occurs_app_l, occurs_app_r, occurs_app_l, occurs_app_r, occurs_prefix. Qed.

Lemma str_contains_occurs (k s : str) :
  str_contains k s = true <-> occurs k s.
Proof.
  induction s as [|c s IH]; cbn [str_contains].
  - destruct (strip_prefix k []) as [rest|] eqn:Hp.
    + split; [intros _|done]. by apply occurs_prefix, strip_prefix_prefix.
    + split; [done|]. intros ([|? ?] & b & Heq); [|done].
      apply strip_prefix_None in Hp. destruct Hp. by exists b.
  - rewrite occurs_cons, <- IH.
    destruct (strip_prefix k (c :: s)) as [rest|] eqn:Hp.
    + split; [intros _|done]. left. by apply strip_prefix_prefix.
    + apply strip_prefix_None in Hp. tauto.
Qed.

Lemma str_contains_false (k s : str) :
  str_contains k s = false <-> ~ occurs k s.
Proof. rewrite <- str_contains_occurs. by destruct (str_contains k s). Qed.

Lemma elem_of_suffixes (t s : str) :
  t ∈ suffixes s <-> t <> [] /\ t `suffix_of` s.
Proof.
  induction s as [|c s IH]; cbn [suffixes].
  - rewrite elem_of_nil. split; [done|]. intros [Hne Hs].
    by apply suffix_nil_inv in Hs.
  - rewrite elem_of_cons, IH. split.
    + intros [->|[Hne Hs]]; [done|]. split; [done|]. by apply suffix_cons_r.
    + intros [Hne Hs]. destruct t as [|d t]; [done|].
      apply suffix_cons_inv in Hs as [Hs|Hs]; [by left|by right].
Qed.

Lemma comparable_sym (x y : str) : comparable x y = comparable y x.
Proof.
  unfold comparable. by destruct (strip_prefix x y), (strip_prefix y x).
Qed.

Lemma comparable_prefix (x y : str) :
  comparable x y = true <-> x `prefix_of` y \/ y `prefix_of` x.
Proof.
  unfold comparable. rewrite <- !strip_prefix_prefix.
  destruct (strip_prefix x y), (strip_prefix y x); split; try done; eauto.
  intros [[? ?]|[? ?]]; done.
Qed.

(** A prefix of [x ++ z] lies in [x] or goes on in [z]. *)
Lemma prefix_app_cases (k x z : str) :
  k `prefix_of` x ++ z ->
  k `prefix_of` x \/ exists t, t <> [] /\ k = x ++ t /\ t `prefix_of` z.
Proof.
  revert k. induction x as [|c x IH]; intros k Hp.
  - destruct k as [|d k]; [left; apply prefix_nil|].
    right. by exists (d :: k).
  - destruct k as [|d k]; [left; apply prefix_nil|].
    cbn [app] in Hp. pose proof (prefix_cons_inv_1 _ _ _ _ Hp) as ->.
    apply prefix_cons_inv_2, IH in Hp as [Hp|(t & Hne & -> & Hp)].
    + left. by apply prefix_cons.
    + right. by exists t.
Qed.

Lemma prefix_app_comparable (t m y : str) :
  t `prefix_of` m ++ y -> comparable t m = true.
Proof.
  intros [Hp|(u & _ & -> & _)]%prefix_app_cases; apply comparable_prefix.
  - by left.
  - right. by apply prefix_app_r.
Qed.

(** An occurrence in [x ++ y] lies in [y] or starts in [x]. *)
Lemma occurs_app_cases (k x y : str) :
  occurs k (x ++ y) ->
  occurs k y \/ exists t, t ∈ suffixes x /\ k `prefix_of` t ++ y.
Proof.
  induction x as [|c x IH]; [by left|]. cbn [app].
  intros [Hp|Hocc]%occurs_cons.
  - right. exists (c :: x). split; [by left|done].
  - destruct (IH Hocc) as [?|(t & Ht & Hp)]; [by left|].
    right. exists t. split; [by right|done].
Qed.

Lemma existsb_false {A : Type} (f : A -> bool) (l : list A) :
  existsb f l = false <-> forall x, x ∈ l -> f x = false.
Proof.
  induction l as [|a l IH]; cbn [existsb].
  - split; [|done]. intros _ x Hx. by apply elem_of_nil in Hx.
  - rewrite orb_false_iff, IH. split.
    + intros [Ha Hl] x [->|Hx]%elem_of_cons; [done|by apply Hl].
    + intros Hall. split; [apply Hall; by left|].
      intros x Hx. apply Hall. by right.
Qed.

Lemma clash_false (k m : str) :
  clash k m = false
  <-> (forall t, t ∈ suffixes k -> comparable t m = false)
      /\ (forall t, t ∈ suffixes m -> comparable t k = false).
Proof. unfold clash. by rewrite orb_false_iff, !existsb_false. Qed.

Lemma clash_sym (k m : str) : clash k m = clash m k.
Proof. unfold clash. apply orb_comm. Qed.

(** Where the text keeps a character, the scan found no occurrence of
    [old]; so an end of [k] that starts the new text started the old one,
    when no end of [k] can meet [new]. *)
Lemma prefix_of_str_replace (old new k s : str) :
  old <> [] ->
  (forall t, t ∈ suffixes k -> comparable t new = false) ->
  forall t, t ∈ suffixes k ->
    t `prefix_of` str_replace old new s -> t `prefix_of` s.
Proof.
  intros Hold Hk. induction s as [|rest IH|c s Hp IH] using (scan_ind old Hold);
    intros t Ht.
  - rewrite str_replace_nil by done. intros ->%prefix_nil_inv.
    by apply elem_of_suffixes in Ht as [? _].
  - rewrite str_replace_occurrence by done.
    intros Hpre%prefix_app_comparable. by rewrite Hk in Hpre.
  - rewrite str_replace_other by done.
    destruct t as [|d t]; [intros _; apply prefix_nil|]. intros Hpre.
    pose proof (prefix_cons_inv_1 _ _ _ _ Hpre) as ->.
    apply prefix_cons_inv_2 in Hpre. apply prefix_cons.
    destruct t as [|e t]; [apply prefix_nil|]. apply IH; [|done].
    apply elem_of_suffixes. apply elem_of_suffixes in Ht as [_ Hs].
    split; [done|]. by eapply suffix_cons_l.
Qed.

(** Replacing creates no occurrence of a string that cannot meet [new]. *)
Lemma occurs_str_replace (old new k s : str) :
  old <> [] -> clash k new = false ->
  occurs k (str_replace old new s) -> occurs k s.
Proof.
  intros Hold [Hk Hnew]%clash_false.
  induction s as [|rest IH|c s Hp IH] using (scan_ind old Hold).
  - by rewrite str_replace_nil.
  - rewrite str_replace_occurrence by done.
    intros [Hocc|(t & Ht & Hpre)]%occurs_app_cases.
    + by apply occurs_app_l, IH.
    + apply prefix_app_comparable in Hpre.
      by rewrite comparable_sym, Hnew in Hpre.
  - rewrite str_replace_other by done. rewrite !occurs_cons.
    intros [Hpre|Hocc]; [left|right; by apply IH].
    destruct k as [|d k]; [apply prefix_nil|].
    rewrite <- (str_replace_other old new) in Hpre by done.
    eapply prefix_of_str_replace; [done|exact Hk| |exact Hpre]. by left.
Qed.

(** After the replacement [old] is gone, when it cannot meet [new]. *)
Lemma str_replace_gone (old new s : str) :
  old <> [] -> clash old new = false ->
  ~ occurs old (str_replace old new s).
Proof.
  intros Hold [Hk Hnew]%clash_false.
  induction s as [|rest IH|c s Hp IH] using (scan_ind old Hold).
  - rewrite str_replace_nil by done. intros ([|? ?] & b & Heq); [|done].
    by destruct old.
  - rewrite str_replace_occurrence by done.
    intros [Hocc|(t & Ht & Hpre)]%occurs_app_cases; [done|].
    apply prefix_app_comparable in Hpre.
    by rewrite comparable_sym, Hnew in Hpre.
  - rewrite str_replace_other by done. rewrite occurs_cons.
    intros [Hpre|Hocc]; [|done]. apply Hp.
    rewrite <- (str_replace_other old new) in Hpre by done.
    eapply prefix_of_str_replace; [done|exact Hk| |exact Hpre].
    destruct old; [done|by left].
Qed.

(** Without an occurrence the text stays as it is. *)
Lemma str_replace_absent (old new s : str) :
  ~ occurs old s -> str_replace old new s = s.
Proof.
  intros Hno. assert (old <> []) as Hold.
  { intros ->. destruct Hno. by exists [], s. }
  induction s as [|c s IH]; [by apply str_replace_nil|].
  rewrite occurs_cons in Hno. rewrite str_replace_other by tauto.
  f_equal. apply IH. tauto.
Qed.

(** The scan passes a block that [old] cannot meet. *)
Lemma str_replace_block (old new x m y : str) :
  old <> [] -> clash old m = false ->
  str_replace old new (x ++ m ++ y)
  = str_replace old new x ++ m ++ str_replace old new y.
Proof.
  intros Hold [Hk Hm]%clash_false.
  induction x as [|rest IH|c s Hp IH] using (scan_ind old Hold).
  - rewrite str_replace_nil by done. cbn [app]. clear Hk.
    induction m as [|c m IH]; [done|]. cbn [app].
    rewrite str_replace_other, IH; [done| |done|].
    + intros t Ht. apply Hm. by right.
    + change (c :: m ++ y) with ((c :: m) ++ y).
      intros Hpre%prefix_app_comparable.
      rewrite comparable_sym, Hm in Hpre; [done|by left].
  - by rewrite <- !app_assoc, !str_replace_occurrence, IH, app_assoc by done.
  - cbn [app]. rewrite !str_replace_other, IH; [done..|].
    change (c :: s ++ m ++ y) with ((c :: s) ++ m ++ y).
    intros [Hpre|(t & Hne & Heq & Hpre)]%prefix_app_cases; [done|].
    apply prefix_app_comparable in Hpre. rewrite Hk in Hpre; [done|].
    apply elem_of_suffixes. split; [done|]. by exists (c :: s).
Qed.

(** The scan replaces an occurrence wherever it is, when no occurrence
    overlaps another. *)
Lemma str_replace_at (old new x y : str) :
  old <> [] -> border_free old = true ->
  str_replace old new (x ++ old ++ y)
  = str_replace old new x ++ new ++ str_replace old new y.
Proof.
  intros Hold Hfree.
  induction x as [|rest IH|c s Hp IH] using (scan_ind old Hold).
  - by rewrite str_replace_nil, !app_nil_l, str_replace_occurrence.
  - by rewrite <- !app_assoc, !str_replace_occurrence, IH, app_assoc by done.
  - cbn [app]. rewrite !str_replace_other, IH; [done..|].
    change (c :: s ++ old ++ y) with ((c :: s) ++ old ++ y).
    intros [Hpre|(t & Hne & Heq & Hpre)]%prefix_app_cases; [done|].
    apply prefix_app_cases in Hpre as [Hpre|(u & Hu & -> & _)].
    + unfold border_free in Hfree. rewrite forallb_forall in Hfree.
      specialize (Hfree t). rewrite negb_true_iff, bool_decide_eq_false in Hfree.
      apply Hfree; [|by apply strip_prefix_prefix].
      apply list_elem_of_In, elem_of_suffixes. split; [done|].
      rewrite Heq. cbn [tail app]. by exists s.
    + apply (f_equal (@length N)) in Heq. rewrite !length_app in Heq.
      cbn in Heq. lia.
Qed.

Lemma str_replace_block_head (old new m y : str) :
  old <> [] -> clash old m = false ->
  str_replace old new (m ++ y) = m ++ str_replace old new y.
Proof.
  intros Hold Hm. pose proof (str_replace_block old new [] m y Hold Hm) as Heq.
  by rewrite str_replace_nil in Heq.
Qed.

Lemma str_replace_block_tail (old new x m : str) :
  old <> [] -> clash old m = false ->
  str_replace old new (x ++ m) = str_replace old new x ++ m.
Proof.
  intros Hold Hm. pose proof (str_replace_block old new x m [] Hold Hm) as Heq.
  by rewrite str_replace_nil, !app_nil_r in Heq.
Qed.

(** ** The replacements of the script *)

(** Facts on the strings of the script, by computation. *)
Ltac literal := first [by vm_compute | vm_compute; reflexivity].

Lemma apply_items_replacements (content : str) :
  apply_items replacements content
  = str_replace (lit "your-tool") (lit "vidra")
      (str_replace (lit "YOUR_TOOL") (lit "vidra")
         (str_replace (lit "@YOUR_SCOPE/") (lit "@sansavision/")
            (str_replace (lit "@YOUR_SCOPE/YOUR_TOOL")
               (lit "@sansavision/vidra") content))).
Proof. reflexivity. Qed.

(** The scoped name is the scope followed by the tool: the second and the
    third item do what the first does. *)
Lemma scoped_name_steps (s : str) :
  str_replace (lit "YOUR_TOOL") (lit "vidra")
    (str_replace (lit "@YOUR_SCOPE/") (lit "@sansavision/")
       (str_replace (lit "@YOUR_SCOPE/YOUR_TOOL") (lit "@sansavision/vidra")
          s))
  = str_replace (lit "YOUR_TOOL") (lit "vidra")
      (str_replace (lit "@YOUR_SCOPE/") (lit "@sansavision/") s).
Proof.
  remember (length s) as n eqn:Hn. revert s Hn.
  induction n as [n IH] using lt_wf_ind. intros s ->.
  destruct (str_contains (lit "@YOUR_SCOPE/YOUR_TOOL") s) eqn:Hc.
  - apply str_contains_occurs in Hc as (a & b & ->).
    assert (0 < length (lit "@YOUR_SCOPE/YOUR_TOOL"))%nat as Hlen by (vm_compute; lia).
    rewrite str_replace_at by literal.
    rewrite (str_replace_block (lit "@YOUR_SCOPE/")) by literal.
    rewrite (str_replace_block (lit "YOUR_TOOL")) by literal.
    assert (length a < length (a ++ lit "@YOUR_SCOPE/YOUR_TOOL" ++ b)
            /\ length b < length (a ++ lit "@YOUR_SCOPE/YOUR_TOOL" ++ b))%nat
      as [Ha Hb] by (rewrite !length_app; split; lia).
    rewrite (IH (length a) Ha a eq_refl), (IH (length b) Hb b eq_refl).
    change (lit "@YOUR_SCOPE/YOUR_TOOL")
      with (lit "@YOUR_SCOPE/" ++ lit "YOUR_TOOL").
    change (lit "@sansavision/vidra") with (lit "@sansavision/" ++ lit "vidra").
    rewrite <- !app_assoc.
    rewrite (str_replace_at (lit "@YOUR_SCOPE/")) by literal.
    rewrite (str_replace_block_head (lit "@YOUR_SCOPE/") _ (lit "YOUR_TOOL"))
      by literal.
    rewrite (str_replace_block (lit "YOUR_TOOL")) by literal.
    by rewrite str_replace_occurrence by literal.
  - apply str_contains_false in Hc. by rewrite (str_replace_absent _ _ s).
Qed.

Lemma apply_items_three (content : str) :
  apply_items replacements content
  = str_replace (lit "your-tool") (lit "vidra")
      (str_replace (lit "YOUR_TOOL") (lit "vidra")
         (str_replace (lit "@YOUR_SCOPE/") (lit "@sansavision/") content)).
Proof. by rewrite apply_items_replacements, scoped_name_steps. Qed.

(** No placeholder is left by the loop over the items. *)
Lemma apply_items_clean (content : str) :
  ~ occurs (lit "@YOUR_SCOPE/") (apply_items replacements content)
  /\ ~ occurs (lit "YOUR_TOOL") (apply_items replacements content)
  /\ ~ occurs (lit "your-tool") (apply_items replacements content).
Proof.
  rewrite apply_items_replacements. split; [|split].
  - intros Hocc. do 2 apply occurs_str_replace in Hocc; [|literal..].
    by apply str_replace_gone in Hocc; [|literal..].
  - intros Hocc. apply occurs_str_replace in Hocc; [|literal..].
    by apply str_replace_gone in Hocc; [|literal..].
  - by apply str_replace_gone; literal.
Qed.

Lemma mcp_absent (content : str) :
  str_contains (lit "your-tool-mcp") (apply_items replacements content)
  = false.
Proof.
  apply str_contains_false. intros Hocc.
  destruct (apply_items_clean content) as (_ & _ & Hno). apply Hno.
  eapply occurs_trans; [|exact Hocc]. by exists [], (lit "-mcp").
Qed.

Lemma new_content_items (content : str) :
  new_content content = apply_items replacements content.
Proof. unfold new_content. by rewrite mcp_absent. Qed.

Lemma occurs_scoped_name (s : str) :
  occurs (lit "@YOUR_SCOPE/YOUR_TOOL") s -> occurs (lit "@YOUR_SCOPE/") s.
Proof. apply occurs_trans. by exists [], (lit "YOUR_TOOL"). Qed.

Lemma elem_of_replacements (old new : str) :
  (old, new) ∈ replacements ->
  (old = lit "@YOUR_SCOPE/YOUR_TOOL" /\ new = lit "@sansavision/vidra")
  \/ (old = lit "@YOUR_SCOPE/" /\ new = lit "@sansavision/")
  \/ (old = lit "YOUR_TOOL" /\ new = lit "vidra")
  \/ (old = lit "your-tool" /\ new = lit "vidra").
Proof.
  unfold replacements. rewrite !elem_of_cons, elem_of_nil.
  intros [[= -> ->]|[[= -> ->]|[[= -> ->]|[[= -> ->]|[]]]]]; tauto.
Qed.

Lemma new_content_clean (content old new : str) :
  (old, new) ∈ replacements -> ~ occurs old (new_content content).
Proof.
  rewrite new_content_items.
  destruct (apply_items_clean content) as (H2 & H3 & H4).
  intros [[-> _]|[[-> _]|[[-> _]|[-> _]]]]%elem_of_replacements; try done.
  by intros ?%occurs_scoped_name.
Qed.

Lemma new_content_fixed (content : str) :
  (forall old new, (old, new) ∈ replacements -> ~ occurs old content) ->
  new_content content = content.
Proof.
  intros Hno. rewrite new_content_items, apply_items_replacements.
  assert (forall old new,
            (old, new) ∈ replacements -> str_replace old new content = content)
    as Hsame.
  { intros old new Hin. apply str_replace_absent. by eapply Hno. }
  rewrite (Hsame (lit "@YOUR_SCOPE/YOUR_TOOL") (lit "@sansavision/vidra")),
    (Hsame (lit "@YOUR_SCOPE/") (lit "@sansavision/")),
    (Hsame (lit "YOUR_TOOL") (lit "vidra")),
    (Hsame (lit "your-tool") (lit "vidra")); [done|..];
    unfold replacements; rewrite !elem_of_cons; tauto.
Qed.

(** The loop replaces an occurrence of a placeholder wherever it is. *)
Lemma new_content_at (old new x y : str) :
  (old, new) ∈ replacements ->
  new_content (x ++ old ++ y) = new_content x ++ new ++ new_content y.
Proof.
  assert (forall x y,
            new_content (x ++ lit "@YOUR_SCOPE/" ++ y)
            = new_content x ++ lit "@sansavision/" ++ new_content y) as H2.
  { intros a b. rewrite !new_content_items, !apply_items_three.
    rewrite str_replace_at by literal.
    rewrite (str_replace_block (lit "YOUR_TOOL")) by literal.
    by rewrite (str_replace_block (lit "your-tool")) by literal. }
  assert (forall x y,
            new_content (x ++ lit "YOUR_TOOL" ++ y)
            = new_content x ++ lit "vidra" ++ new_content y) as H3.
  { intros a b. rewrite !new_content_items, !apply_items_three.
    rewrite (str_replace_block (lit "@YOUR_SCOPE/")) by literal.
    rewrite str_replace_at by literal.
    by rewrite (str_replace_block (lit "your-tool")) by literal. }
  intros [[-> ->]|[[-> ->]|[[-> ->]|[-> ->]]]]%elem_of_replacements.
  - change (lit "@YOUR_SCOPE/YOUR_TOOL")
      with (lit "@YOUR_SCOPE/" ++ lit "YOUR_TOOL").
    change (lit "@sansavision/vidra") with (lit "@sansavision/" ++ lit "vidra").
    rewrite <- !app_assoc, H2. pose proof (H3 [] y) as Hy.
    rewrite (new_content_fixed []) in Hy.
    { change (new_content (lit "YOUR_TOOL" ++ y)
              = lit "vidra" ++ new_content y) in Hy. by rewrite Hy. }
    intros k n Hin ([|? ?] & ? & Heq); [|done].
    by apply elem_of_replacements in Hin as [[-> _]|[[-> _]|[[-> _]|[-> _]]]].
  - apply H2.
  - apply H3.
  - rewrite !new_content_items, !apply_items_three.
    rewrite (str_replace_block (lit "@YOUR_SCOPE/")) by literal.
    rewrite (str_replace_block (lit "YOUR_TOOL")) by literal.
    by rewrite str_replace_at by literal.
Qed.

Lemma items_absent (s : str) :
  Forall (fun item => str_contains item.1 s = false) replacements
  <-> forall old new, (old, new) ∈ replacements -> ~ occurs old s.
Proof.
  rewrite Forall_forall. split.
  - intros Hall old new Hin. apply str_contains_false, (Hall (old, new) Hin).
  - intros Hall [old new] Hin. apply str_contains_false. by eapply Hall.
Qed.

(** ** The text the script writes *)

(** X12. No placeholder is left in the text of the script: none of the four
    strings the dictionary replaces is in it. So the script changes
    nothing in a text of its own. *)
Theorem no_placeholder_left (content : str) :
  Forall (fun item => str_contains item.1 (new_content content) = false)
         replacements
  /\ new_content (new_content content) = new_content content.
Proof.
  assert (forall old new,
            (old, new) ∈ replacements -> ~ occurs old (new_content content))
    as Hclean by (intros old new; apply new_content_clean).
  split; [by apply items_absent|by apply new_content_fixed].
Qed.

(** X13. The test ["your-tool-mcp" in new_content] never holds, for the last
    item has replaced every "your-tool": the statement under it is never
    run, and the text is the one the loop over the items leaves. What was
    "your-tool-mcp" in the file is "vidra-mcp" in the text written. *)
Theorem mcp_branch_never_taken (content : str) :
  str_contains (lit "your-tool-mcp") (apply_items replacements content)
  = false
  /\ new_content content = apply_items replacements content
  /\ (forall x y,
        content = x ++ lit "your-tool-mcp" ++ y ->
        new_content content
        = new_content x ++ lit "vidra-mcp" ++ new_content y).
Proof.
  split; [apply mcp_absent|]. split; [apply new_content_items|].
  intros x y ->.
  change (lit "your-tool-mcp") with (lit "your-tool" ++ lit "-mcp").
  change (lit "vidra-mcp") with (lit "vidra" ++ lit "-mcp").
  rewrite <- !app_assoc.
  rewrite (new_content_at (lit "your-tool") (lit "vidra"))
    by (unfold replacements; rewrite !elem_of_cons; tauto).
  do 2 f_equal. rewrite !new_content_items, !apply_items_replacements.
  by rewrite !str_replace_block_head by literal.
Qed.

(** X14. The first item of the dictionary changes nothing: the loop over the
    other three items gives the same text. *)
Theorem first_item_redundant (content : str) :
  apply_items replacements content = apply_items (tail replacements) content.
Proof. apply apply_items_three. Qed.

(** X15. The script replaces every occurrence of a placeholder, wherever it is
    in the text: the text written for a file is the text for what is
    before the occurrence, the replacement, and the text for what is
    behind it. *)
Theorem placeholder_replaced_in_place (old new x y : str) :
  (old, new) ∈ replacements ->
  new_content (x ++ old ++ y) = new_content x ++ new ++ new_content y.
Proof. apply new_content_at. Qed.

(** X16. A file is written exactly when a placeholder is in it; what is
    written differs from what was read, and the script leaves it alone
    when run again. *)
Theorem rewrite_file_spec (content : str) :
  (rewrite_file content = None
   <-> Forall (fun item => str_contains item.1 content = false) replacements)
  /\ (forall text,
        rewrite_file content = Some text ->
        text = new_content content /\ text <> content
        /\ rewrite_file text = None).
Proof.
  unfold rewrite_file. split.
  - rewrite items_absent. destruct (decide (content = new_content content))
      as [Heq|Hne].
    + split; [intros _|done]. rewrite Heq. intros old new.
      apply new_content_clean.
    + split; [done|]. intros Hno. by rewrite new_content_fixed in Hne.
  - intros text. destruct (decide (content = new_content content)); [done|].
    intros [= <-]. split; [done|]. split; [done|].
    rewrite decide_True; [done|]. symmetry. apply new_content_fixed.
    intros old new. apply new_content_clean.
Qed.

Lemma placeholder_replaced_in_place_witness :
  new_content ([] ++ lit "your-tool" ++ []) = lit "vidra".
Proof.
  rewrite (placeholder_replaced_in_place (lit "your-tool") (lit "vidra") [] []).
  - reflexivity.
  - apply list_elem_of_lookup_2 with 3%nat. reflexivity.
Defined.

(** ** The scenarios of the specification *)

(** A regression of 20% and a speed-up of 4%: FAIL. *)
Example scenario_regression :
  main (lit "bench_compare.py") paths
    (two_files scenario_baseline scenario_current)
  = ([Open (lit "baseline.txt"); Open (lit "current.txt");
      Print Title; Print Header; Print Rule;
      Print (MatchedRow (lit "bar") 500 480
               (Float true 5764607523034235 (-57)) NoMarker);
      Print (MatchedRow (lit "foo") 1000 1200
               (Float false 7205759403792794 (-55)) RegressionMark);
      Print Blank; Print (FailSummary 1);
      Print (RegressedItem (lit "foo") (Float false 7205759403792794 (-55)))],
     SysExit 1).
Proof. by vm_compute. Qed.

Example scenario_regression_stdout :
  stdout (main (lit "bench_compare.py") paths
            (two_files scenario_baseline scenario_current)).1
  = [ [0x1F4CA%N] ++ lit " Benchmark Comparison";
      lit "Benchmark                                              Baseline      Current      Delta";
      lit "--------------------------------------------------------------------------------------";
      lit "  bar                                                       500          480     -4.0%";
      lit "  foo                                                     1,000        1,200    +20.0% "
        ++ [0x274C%N] ++ lit " REGRESSION";
      [];
      [0x274C%N] ++ lit " 1 benchmark(s) regressed by >10%:";
      lit "   - foo: +20.0%" ].
Proof. by vm_compute. Qed.

(** A benchmark missing from the current report and a new one: PASS. *)
Example scenario_missing_and_new :
  main (lit "bench_compare.py") paths
    (two_files [lit "test foo ... bench: 1,000 ns/iter"]
               [lit "test qux ... bench: 300 ns/iter"])
  = ([Open (lit "baseline.txt"); Open (lit "current.txt");
      Print Title; Print Header; Print Rule;
      Print (MissingRow (lit "foo") 1000); Print (NewRow (lit "qux") 300);
      Print Blank; Print PassSummary],
     Return)
  /\ exit_status Return = 0.
Proof. by vm_compute. Qed.

(** No baseline: the comparison is skipped. *)
Example scenario_no_baseline :
  main (lit "bench_compare.py") paths
    (two_files [lit "no benchmark here"] scenario_current)
  = ([Open (lit "baseline.txt"); Open (lit "current.txt"); Print SkipNotice],
     SysExit 0).
Proof. by vm_compute. Qed.

(** The boundary: 10% exactly is no regression, one nanosecond more is. *)
Example scenario_boundary :
  relative_delta 1000 1100 = Ok float_0_10
  /\ marker_of float_0_10 = NoMarker
  /\ exists delta,
       relative_delta 1000 1101 = Ok delta
       /\ marker_of delta = RegressionMark.
Proof.
  split; [by vm_compute|]. split; [by vm_compute|].
  eexists. split; by vm_compute.
Qed.

(** ** The template adaptation on a line of a package file *)

Example adapt_package_line :
  new_content (lit "npm i @YOUR_SCOPE/YOUR_TOOL-mcp your-tool-mcp YOUR_TOOL")
  = lit "npm i @sansavision/vidra-mcp vidra-mcp vidra"
  /\ rewrite_file (lit "npm i @sansavision/vidra-mcp vidra-mcp vidra") = None.
Proof. by vm_compute. Qed.

(** ** The limit on the digits of an integer *)

(** [int] converts 4300 digits and raises on 4301; a result line with a
    number of 4301 digits makes [parse_bencher] raise. *)
Example int_digit_limit :
  (exists v, py_int (replicate 4300 0x31%N) = Ok v)
  /\ py_int (replicate 4301 0x31%N) = Raise ValueError
  /\ parse_bencher [lit "test a b bench: " ++ replicate 4301 0x31%N
                    ++ lit " ns/iter"]
     = Raise ValueError.
Proof.
  split; [eexists; by vm_compute|]. split; by vm_compute.
Qed.
